(** * FileSoldier: client-side cryptographic protocol and two-phase download

    A shallow embedding of
    - [src/utils/passwordGenerator.ts] (the AES-GCM file and metadata
      envelopes and the URL-fragment key transport),
    - the password key-wrapping utilities ([wrapKeyWithPassword],
      [unwrapKeyWithPassword]),
    - [convex/files.ts] ([saveFile], [getFileMeta], [getUserFiles],
      [getDownloadToken], [confirmDownload], [downloadFile], [deleteFile]),
    - the download page ([executeDownload], [formatCountdown], the effect
      that decrypts the metadata on load),
    - the "encrypting" step of the upload form and
    - the password generator ([generatePassword]).

    JavaScript strings are lists of UTF-16 code units, [Uint8Array]s are lists
    of 8-bit characters, promises that reject are [Throw] results, and the
    browser's secure random source is an explicit entropy state.  The
    primitives of the platform that the repository calls but does not
    implement (AES-GCM, PBKDF2, JSON, UTF-8) are the fields of the class
    [Platform]; what the proofs need of them is stated as named laws. *)

From Stdlib Require Import ZArith NArith Ascii String List Bool Lia ZifyNat ZifyN
  DecimalString.
From Stdlib Require QArith.
From stdpp Require Import base option gmap.
Import ListNotations.

Set Default Proof Using "Type".

(* ===================================================================== *)
(** * Part I: definitions                                                 *)
(* ===================================================================== *)

(** ** JavaScript values *)

(** A JavaScript string: its UTF-16 code units. *)
Abbreviation jsstring := (list N).

(** A [Uint8Array] (also the content of an [ArrayBuffer], [Blob] or
    [File]). *)
Abbreviation bytes := (list ascii).

(** The code unit of an ASCII character, and string literals. *)
Definition chr (a : ascii) : N := N_of_ascii a.
Definition lit (s : string) : jsstring := map chr (list_ascii_of_string s).

(** The names of the [DOMException]s the modelled calls can raise. *)
Inductive DomErrorName :=
  | InvalidCharacterError
  | InvalidAccessError
  | OperationError
  | DataError
  | SyntaxError
  | TypeError
  | QuotaExceededError.

(** What a promise rejects with or a call throws: a [DOMException] (or a
    built-in error such as [SyntaxError] from [JSON.parse], kept by name) or
    [new Error(message)]. *)
Inductive exn :=
  | DOMException (name : DomErrorName)
  | Error (message : string).

Inductive result (A : Type) :=
  | Ok (a : A)
  | Throw (e : exn).
Arguments Ok {A} a.
Arguments Throw {A} e.

Definition rbind {A B} (r : result A) (k : A -> result B) : result B :=
  match r with
  | Ok a => k a
  | Throw e => Throw e
  end.

(** [try { body } catch { throw handler }]. *)
Definition try_catch_throw {A} (body : result A) (handler : exn) : result A :=
  match body with
  | Ok a => Ok a
  | Throw _ => Throw handler
  end.

Declare Scope js_scope.
Delimit Scope js_scope with js.
Notation "'let!' x ':=' r 'in' k" := (rbind r (fun x => k))
  (at level 10, x pattern, r at level 100, k at level 200) : js_scope.
Local Open Scope js_scope.

(** ** [String.fromCharCode(...bytes)] and
       [Uint8Array.from(s, c => c.charCodeAt(0))] *)

(** One code unit per byte (the engine's limit on the number of spread
    arguments is not modelled). *)
Definition String_fromCharCode (bs : bytes) : jsstring := map N_of_ascii bs.

(** Storing a code unit in a [Uint8Array] keeps its low eight bits. *)
Definition Uint8Array_from (s : jsstring) : bytes := map ascii_of_N s.

(** ** [btoa] and [atob] *)

Module Base64.

Definition alphabet : jsstring :=
  lit "ABCDEFGHIJKLMNOPQRSTUVWXYZabcdefghijklmnopqrstuvwxyz0123456789+/".

Definition pad : N := chr "=".

Definition b64_char (s : N) : N := nth (N.to_nat s) alphabet 0%N.

Fixpoint index_from (i : N) (c : N) (l : jsstring) : option N :=
  match l with
  | [] => None
  | x :: l' => if N.eqb x c then Some i else index_from (N.succ i) c l'
  end.

Definition b64_index (c : N) : option N := index_from 0%N c alphabet.

(** Three octets are regrouped into four sextets; a last group of one or
    two octets gives two or three sextets, the spare low bits zero. *)
Fixpoint sextets_of (bs : list N) : list N :=
  match bs with
  | a :: b :: c :: rest =>
      (a / 4) :: ((a mod 4) * 16 + b / 16) :: ((b mod 16) * 4 + c / 64)
        :: (c mod 64) :: sextets_of rest
  | [a; b] => [a / 4; (a mod 4) * 16 + b / 16; (b mod 16) * 4]
  | [a] => [a / 4; (a mod 4) * 16]
  | [] => []
  end%N.

(** Four sextets give three octets; a last group of two or three sextets
    gives one or two octets, the spare low bits discarded. *)
Fixpoint octets_of (ss : list N) : list N :=
  match ss with
  | s1 :: s2 :: s3 :: s4 :: rest =>
      (s1 * 4 + s2 / 16) :: ((s2 mod 16) * 16 + s3 / 4)
        :: ((s3 mod 4) * 64 + s4) :: octets_of rest
  | [s1; s2; s3] => [s1 * 4 + s2 / 16; (s2 mod 16) * 16 + s3 / 4]
  | [s1; s2] => [s1 * 4 + s2 / 16]
  | _ => []
  end%N.

Definition padding (n : nat) : jsstring :=
  repeat pad ((3 - n mod 3) mod 3).

Definition encode (bs : list N) : jsstring :=
  map b64_char (sextets_of bs) ++ padding (length bs).

Definition is_ascii_whitespace (c : N) : bool :=
  (N.eqb c 9 || N.eqb c 10 || N.eqb c 12 || N.eqb c 13 || N.eqb c 32)%N.

(** Removes one or two [=] from the end. *)
Definition strip_padding (d : jsstring) : jsstring :=
  match rev d with
  | p1 :: p2 :: r =>
      if N.eqb p1 pad
      then (if N.eqb p2 pad then rev r else rev (p2 :: r))
      else d
  | [p1] => if N.eqb p1 pad then [] else d
  | [] => d
  end.

Fixpoint indices (d : jsstring) : option (list N) :=
  match d with
  | [] => Some []
  | c :: d' =>
      match b64_index c, indices d' with
      | Some s, Some ss => Some (s :: ss)
      | _, _ => None
      end
  end.

(** The forgiving-base64 decoder of the HTML standard. *)
Definition decode (data : jsstring) : option (list N) :=
  let d := List.filter (fun c => negb (is_ascii_whitespace c)) data in
  let d := if Nat.eqb (length d mod 4) 0 then strip_padding d else d in
  if Nat.eqb (length d mod 4) 1 then None
  else option_map octets_of (indices d).

(** A character that is neither white space, [=], [-] nor [_]; the
    sixty-four characters of the alphabet are. *)
Definition plain_char (c : N) : bool :=
  negb (is_ascii_whitespace c) && negb (N.eqb c pad)
  && negb (N.eqb c (chr "-")) && negb (N.eqb c (chr "_"))
  && N.ltb c 128.

End Base64.

(** [btoa(s)] throws when [s] has a code unit above 0xFF. *)
Definition btoa (s : jsstring) : result jsstring :=
  if forallb (fun c => N.ltb c 256) s
  then Ok (Base64.encode s)
  else Throw (DOMException InvalidCharacterError).

Definition atob (s : jsstring) : result jsstring :=
  match Base64.decode s with
  | Some bs => Ok bs
  | None => Throw (DOMException InvalidCharacterError)
  end.

(** A six-bit and an eight-bit value. *)
Definition is_sextet (s : N) : Prop := (s < 64)%N.
Definition is_octet (b : N) : Prop := (b < 256)%N.

(** ** JavaScript string operations used by the key transport *)

(** [s.replace(/c/g, d)] for a single character [c]. *)
Definition replace_all (c d : ascii) (s : jsstring) : jsstring :=
  map (fun x => if N.eqb x (chr c) then chr d else x) s.

Fixpoint drop_while (f : N -> bool) (s : jsstring) : jsstring :=
  match s with
  | [] => []
  | x :: s' => if f x then drop_while f s' else s
  end.

(** [s.replace(/=+$/, '')]: the run of [=] that ends the string is removed. *)
Definition strip_trailing_equals (s : jsstring) : jsstring :=
  rev (drop_while (fun x => N.eqb x (chr "=")) (rev s)).

(** [while (base64.length % 4) base64 += '=']; the loop body runs at most
    three times, which is the fuel given by [pad_to_multiple_of_4]. *)
Fixpoint pad_loop (fuel : nat) (base64 : jsstring) : jsstring :=
  match fuel with
  | O => base64
  | S fuel' =>
      if Nat.eqb (length base64 mod 4) 0 then base64
      else pad_loop fuel' (base64 ++ [chr "="])
  end.

Definition pad_to_multiple_of_4 (base64 : jsstring) : jsstring :=
  pad_loop 3 base64.

(** The two replacements of [toUrlSafe], character by character, and the two
    of [fromUrlSafe]. *)
Definition to_safe_char (x : N) : N :=
  let y := if N.eqb x (chr "+") then chr "-" else x in
  if N.eqb y (chr "/") then chr "_" else y.

Definition from_safe_char (x : N) : N :=
  let y := if N.eqb x (chr "-") then chr "+" else x in
  if N.eqb y (chr "_") then chr "/" else y.

(** [x || d] on a number that may be [null] or [undefined]: the default is
    taken when [x] is absent and also when it is [0] ([NaN] is not
    modelled). *)
Definition number_or (x : option Z) (d : Z) : Z :=
  match x with
  | Some n => if Z.eqb n 0 then d else n
  | None => d
  end.

(** ** The secure random source *)

(** [crypto.getRandomValues] reads the next bytes of an entropy stream. *)
Record Entropy := mkEntropy {
  ent_stream : nat -> ascii;
  ent_pos : nat
}.

(** A computation that draws random bytes and may throw. *)
Definition Rand (A : Type) : Type := Entropy -> result A * Entropy.

Definition rand_ret {A} (a : A) : Rand A := fun e => (Ok a, e).

Definition rand_bind {A B} (m : Rand A) (k : A -> Rand B) : Rand B :=
  fun e =>
    match m e with
    | (Ok a, e') => k a e'
    | (Throw x, e') => (Throw x, e')
    end.

Definition rand_lift {A} (r : result A) : Rand A := fun e => (r, e).

Notation "'let*' x ':=' m 'in' k" := (rand_bind m (fun x => k))
  (at level 10, x pattern, m at level 100, k at level 200) : js_scope.
Notation "'let*?' x ':=' r 'in' k" := (rand_bind (rand_lift r) (fun x => k))
  (at level 10, x pattern, r at level 100, k at level 200) : js_scope.

(** The next [n] bytes of the stream, and the stream after them. *)
Definition drawn (e : Entropy) (n : nat) : bytes :=
  map (ent_stream e) (seq (ent_pos e) n).

Definition advance (e : Entropy) (n : nat) : Entropy :=
  mkEntropy (ent_stream e) (ent_pos e + n).

(** [crypto.getRandomValues(new Uint8Array(n))]. *)
Definition getRandomValues (n : nat) : Rand bytes :=
  fun e => (Ok (drawn e n), advance e n).

(** ** Web Crypto keys *)

Inductive KeyUsage :=
  | usage_encrypt
  | usage_decrypt
  | usage_wrapKey
  | usage_unwrapKey
  | usage_deriveKey
  | usage_deriveBits.

Definition KeyUsage_eqb (a b : KeyUsage) : bool :=
  match a, b with
  | usage_encrypt, usage_encrypt
  | usage_decrypt, usage_decrypt
  | usage_wrapKey, usage_wrapKey
  | usage_unwrapKey, usage_unwrapKey
  | usage_deriveKey, usage_deriveKey
  | usage_deriveBits, usage_deriveBits => true
  | _, _ => false
  end.

Definition has_usage (u : KeyUsage) (us : list KeyUsage) : bool :=
  existsb (KeyUsage_eqb u) us.

Inductive KeyAlgorithm :=
  | AES_GCM
  | PBKDF2.

Definition KeyAlgorithm_eqb (a b : KeyAlgorithm) : bool :=
  match a, b with
  | AES_GCM, AES_GCM | PBKDF2, PBKDF2 => true
  | _, _ => false
  end.

(** A [CryptoKey]: its [algorithm], [extractable] and [usages] attributes
    and the key material it holds. *)
Record CryptoKey := mkCryptoKey {
  key_algorithm : KeyAlgorithm;
  key_extractable : bool;
  key_usages : list KeyUsage;
  key_material : bytes
}.

(** ** The platform primitives *)

(** What the browser provides and the repository only calls.  AES-GCM runs
    with the default 128-bit tag; [aes_gcm_decrypt] is [None] when the tag
    does not verify.  [jwk_export] is the object [exportKey("jwk", key)]
    resolves to and [jwk_import] is [importKey("jwk", object, _,
    extractable, usages)]. *)
Class Platform := {
  json : Type;
  JSON_stringify : json -> jsstring;
  JSON_parse : jsstring -> option json;
  json_truthy : json -> bool;
  json_name : json -> option jsstring;
  TextEncoder_encode : jsstring -> bytes;
  TextDecoder_decode : bytes -> jsstring;
  aes_gcm_encrypt : bytes -> bytes -> bytes -> bytes;
  aes_gcm_decrypt : bytes -> bytes -> bytes -> option bytes;
  pbkdf2_hmac_sha256 : bytes -> bytes -> Z -> bytes;
  jwk_export : CryptoKey -> json;
  jwk_import : json -> bool -> list KeyUsage -> result CryptoKey;
  dom_message : DomErrorName -> string
}.

(** [err.message]. *)
Definition exn_message `{Platform} (e : exn) : string :=
  match e with
  | DOMException n => dom_message n
  | Error m => m
  end.

Section WebCrypto.
Context `{Platform}.

(** [JSON.parse(s)] throws a [SyntaxError] on malformed text. *)
Definition JSON_parse_or_throw (s : jsstring) : result json :=
  match JSON_parse s with
  | Some v => Ok v
  | None => Throw (DOMException SyntaxError)
  end.

(** [crypto.subtle.encrypt({name: "AES-GCM", iv}, key, data)]. *)
Definition subtle_encrypt (iv : bytes) (key : CryptoKey) (data : bytes)
  : result bytes :=
  if negb (KeyAlgorithm_eqb (key_algorithm key) AES_GCM)
  then Throw (DOMException InvalidAccessError)
  else if negb (has_usage usage_encrypt (key_usages key))
  then Throw (DOMException InvalidAccessError)
  else Ok (aes_gcm_encrypt (key_material key) iv data).

(** [crypto.subtle.decrypt({name: "AES-GCM", iv}, key, data)]. *)
Definition subtle_decrypt (iv : bytes) (key : CryptoKey) (data : bytes)
  : result bytes :=
  if negb (KeyAlgorithm_eqb (key_algorithm key) AES_GCM)
  then Throw (DOMException InvalidAccessError)
  else if negb (has_usage usage_decrypt (key_usages key))
  then Throw (DOMException InvalidAccessError)
  else match aes_gcm_decrypt (key_material key) iv data with
       | Some plaintext => Ok plaintext
       | None => Throw (DOMException OperationError)
       end.

(** [crypto.subtle.exportKey("raw", key)]. *)
Definition subtle_exportKey_raw (key : CryptoKey) : result bytes :=
  if negb (key_extractable key)
  then Throw (DOMException InvalidAccessError)
  else match key_algorithm key with
       | AES_GCM => Ok (key_material key)
       | PBKDF2 => Throw (DOMException InvalidAccessError)
       end.

(** [crypto.subtle.exportKey("jwk", key)]. *)
Definition subtle_exportKey_jwk (key : CryptoKey) : result json :=
  if negb (key_extractable key)
  then Throw (DOMException InvalidAccessError)
  else match key_algorithm key with
       | AES_GCM => Ok (jwk_export key)
       | PBKDF2 => Throw (DOMException InvalidAccessError)
       end.

Definition aes_usage_ok (u : KeyUsage) : bool :=
  match u with
  | usage_encrypt | usage_decrypt | usage_wrapKey | usage_unwrapKey => true
  | _ => false
  end.

Definition pbkdf2_usage_ok (u : KeyUsage) : bool :=
  match u with
  | usage_deriveKey | usage_deriveBits => true
  | _ => false
  end.

Definition aes_key_length_ok (data : bytes) : bool :=
  let n := length data in
  Nat.eqb n 16 || Nat.eqb n 24 || Nat.eqb n 32.

(** [crypto.subtle.importKey("raw", data, {name: "AES-GCM", length: 256},
    extractable, usages)]. *)
Definition subtle_importKey_raw_aes (data : bytes) (extractable : bool)
    (usages : list KeyUsage) : result CryptoKey :=
  if negb (forallb aes_usage_ok usages)
  then Throw (DOMException SyntaxError)
  else if negb (aes_key_length_ok data)
  then Throw (DOMException DataError)
  else match usages with
       | [] => Throw (DOMException SyntaxError)
       | _ => Ok (mkCryptoKey AES_GCM extractable usages data)
       end.

(** [crypto.subtle.importKey("raw", data, {name: "PBKDF2"}, extractable,
    usages)]. *)
Definition subtle_importKey_raw_pbkdf2 (data : bytes) (extractable : bool)
    (usages : list KeyUsage) : result CryptoKey :=
  if negb (forallb pbkdf2_usage_ok usages)
  then Throw (DOMException SyntaxError)
  else if extractable
  then Throw (DOMException SyntaxError)
  else Ok (mkCryptoKey PBKDF2 false usages data).

(** [crypto.subtle.importKey("jwk", jwk, {name: "AES-GCM", length: 256},
    extractable, usages)]. *)
Definition subtle_importKey_jwk (jwk : json) (extractable : bool)
    (usages : list KeyUsage) : result CryptoKey :=
  jwk_import jwk extractable usages.

(** [crypto.subtle.deriveKey({name: "PBKDF2", salt, iterations,
    hash: "SHA-256"}, baseKey, {name: "AES-GCM", length: 256},
    extractable, usages)].  [iterations] is an unsigned 32-bit integer and
    must not be zero. *)
Definition subtle_deriveKey_pbkdf2 (salt : bytes) (iterations : Z)
    (baseKey : CryptoKey) (extractable : bool) (usages : list KeyUsage)
  : result CryptoKey :=
  if (iterations <? 0)%Z || (4294967295 <? iterations)%Z
  then Throw (DOMException TypeError)
  else if negb (KeyAlgorithm_eqb (key_algorithm baseKey) PBKDF2)
  then Throw (DOMException InvalidAccessError)
  else if negb (has_usage usage_deriveKey (key_usages baseKey))
  then Throw (DOMException InvalidAccessError)
  else if (iterations =? 0)%Z
  then Throw (DOMException OperationError)
  else if negb (forallb aes_usage_ok usages)
  then Throw (DOMException SyntaxError)
  else match usages with
       | [] => Throw (DOMException SyntaxError)
       | _ => Ok (mkCryptoKey AES_GCM extractable usages
                    (pbkdf2_hmac_sha256 (key_material baseKey) salt
                       iterations))
       end.

End WebCrypto.

(** ** [src/utils/passwordGenerator.ts]: the cipher module and the key
       transport *)

Definition KEY_LENGTH : nat := 256.
Definition IV_LENGTH : nat := 12.

(** What [encryptFile] resolves to. *)
Record EncryptedFile := mkEncryptedFile {
  encryptedBlob : bytes;
  iv : jsstring;
  ivBytes : bytes;
  keyString : jsstring
}.

Section Crypto.
Context `{Platform}.

(** [generateKey]: a 256-bit AES-GCM key, extractable, for both
    directions; its material comes from the random source. *)
Definition generateKey : Rand CryptoKey :=
  let* material := getRandomValues (KEY_LENGTH / 8) in
  rand_ret (mkCryptoKey AES_GCM true [usage_encrypt; usage_decrypt] material).

(** [btoa(...).replace(/\+/g, '-').replace(/\//g, '_').replace(/=+$/, '')]. *)
Definition toUrlSafe (base64 : jsstring) : jsstring :=
  strip_trailing_equals (replace_all "/" "_" (replace_all "+" "-" base64)).

(** [keyString.replace(/-/g, '+').replace(/_/g, '/')] followed by the
    padding loop. *)
Definition fromUrlSafe (keyString : jsstring) : jsstring :=
  pad_to_multiple_of_4 (replace_all "_" "/" (replace_all "-" "+" keyString)).

(** The key made safe for the URL fragment, as [encryptFile] writes it
    out: the exported JWK, stringified, Base64-encoded, made URL-safe. *)
Definition encodeKeyForTransport (key : CryptoKey) : result jsstring :=
  let! exportedKey := subtle_exportKey_jwk key in
  let! base64 := btoa (JSON_stringify exportedKey) in
  Ok (toUrlSafe base64).

Definition encryptFile (file : bytes) (key : CryptoKey) : Rand EncryptedFile :=
  let* iv := getRandomValues IV_LENGTH in
  let fileBuffer := file in
  let*? encryptedBuffer := subtle_encrypt iv key fileBuffer in
  let*? keyString := encodeKeyForTransport key in
  let*? ivString := btoa (String_fromCharCode iv) in
  rand_ret (mkEncryptedFile encryptedBuffer ivString iv keyString).

Definition encryptMetadata (metadata : json) (key : CryptoKey) : Rand jsstring :=
  let data := TextEncoder_encode (JSON_stringify metadata) in
  let* metadataIv := getRandomValues IV_LENGTH in
  let*? encrypted := subtle_encrypt metadataIv key data in
  let combined := metadataIv ++ encrypted in
  rand_lift (btoa (String_fromCharCode combined)).

(** The import of the key from the URL hash string, as both
    [decryptMetadata] and [decryptFile] write it out: back to standard
    Base64, padded, decoded, parsed, imported for decryption. *)
Definition decodeKeyFromTransport (keyString : jsstring) : result CryptoKey :=
  let base64 := fromUrlSafe keyString in
  let! text := atob base64 in
  let! jwk := JSON_parse_or_throw text in
  subtle_importKey_jwk jwk true [usage_decrypt].

Definition decryptMetadataWithKey (encryptedMetadataB64 : jsstring)
    (key : CryptoKey) : result json :=
  let! decoded := atob encryptedMetadataB64 in
  let combined := Uint8Array_from decoded in
  let iv := firstn IV_LENGTH combined in
  let encryptedData := skipn IV_LENGTH combined in
  let! decrypted := subtle_decrypt iv key encryptedData in
  JSON_parse_or_throw (TextDecoder_decode decrypted).

Definition decryptMetadata (encryptedMetadataB64 : jsstring)
    (keyString : jsstring) : result json :=
  let! key := decodeKeyFromTransport keyString in
  let! decoded := atob encryptedMetadataB64 in
  let combined := Uint8Array_from decoded in
  let iv := firstn IV_LENGTH combined in
  let encryptedData := skipn IV_LENGTH combined in
  let! decrypted := subtle_decrypt iv key encryptedData in
  JSON_parse_or_throw (TextDecoder_decode decrypted).

Definition decryptFile (encryptedBlob : bytes) (keyString ivString : jsstring)
  : result bytes :=
  let! key := decodeKeyFromTransport keyString in
  let! decoded := atob ivString in
  let iv := Uint8Array_from decoded in
  let buffer := encryptedBlob in
  subtle_decrypt iv key buffer.

(** [generatePublicLabel]: [File-] and eight characters picked by eight
    random bytes. *)
Definition label_chars : jsstring := lit "abcdefghijklmnopqrstuvwxyz0123456789".

Definition generatePublicLabel : Rand jsstring :=
  let* randomBytes := getRandomValues 8 in
  rand_ret
    (lit "File-" ++
     map (fun b => nth (N.to_nat (N_of_ascii b) mod length label_chars)
                     label_chars 0%N)
       randomBytes).

End Crypto.

(** ** What the proofs assume of the platform *)

Section PlatformLaws.
Context (P : Platform).

(** Decrypting with the key and IV of the encryption returns the
    plaintext. *)
Definition aead_correct : Prop :=
  forall k iv p, aes_gcm_decrypt k iv (aes_gcm_encrypt k iv p) = Some p.

(** The ciphertext is the plaintext's length plus the 16-byte tag. *)
Definition aead_tag_16 : Prop :=
  forall k iv p, length (aes_gcm_encrypt k iv p) = length p + 16.

(** Under one key, two 96-bit IVs never give the same ciphertext and tag
    for the same plaintext (the tag masks differ). *)
Definition aead_iv_injective : Prop :=
  forall k iv1 iv2 p,
    length iv1 = 12 -> length iv2 = 12 ->
    aes_gcm_encrypt k iv1 p = aes_gcm_encrypt k iv2 p -> iv1 = iv2.

Definition json_roundtrip : Prop :=
  forall v, JSON_parse (JSON_stringify v) = Some v.

(** JSON text is well-formed Unicode, so UTF-8 encoding loses nothing. *)
Definition utf8_roundtrip : Prop :=
  forall v, TextDecoder_decode (TextEncoder_encode (JSON_stringify v))
            = JSON_stringify v.

(** The JSON text of an exported key has no code unit above 0xFF. *)
Definition jwk_text_latin1 : Prop :=
  forall k, Forall is_octet (JSON_stringify (jwk_export k)).

(** Importing the exported object of an extractable AES key, for usages
    among the key's, gives a key with the same material. *)
Definition jwk_roundtrip : Prop :=
  forall k extractable usages,
    key_algorithm k = AES_GCM ->
    key_extractable k = true ->
    aes_key_length_ok (key_material k) = true ->
    usages <> [] ->
    (forall u, In u usages -> In u (key_usages k)) ->
    jwk_import (jwk_export k) extractable usages
    = Ok (mkCryptoKey AES_GCM extractable usages (key_material k)).

End PlatformLaws.

(** A key that [generateKey] returned. *)
Definition freshly_generated `{Platform} (K : CryptoKey) : Prop :=
  exists e, fst (generateKey e) = Ok K.

(** A key of the kind the upload path encrypts with: AES-GCM, extractable,
    usable in both directions, of a valid length.  [generateKey] and
    [unwrapKeyWithPassword] return such keys. *)
Definition file_key (K : CryptoKey) : Prop :=
  key_algorithm K = AES_GCM /\
  key_extractable K = true /\
  In usage_encrypt (key_usages K) /\
  In usage_decrypt (key_usages K) /\
  (length (key_material K) = 16 \/ length (key_material K) = 24
   \/ length (key_material K) = 32).

(** [K'] decrypts whatever [K] encrypted. *)
Definition decrypts_what_encrypted `{Platform} (K' K : CryptoKey) : Prop :=
  forall iv plaintext ciphertext,
    subtle_encrypt iv K plaintext = Ok ciphertext ->
    subtle_decrypt iv K' ciphertext = Ok plaintext.

(** ** The password key-wrapping utilities *)

Definition CURRENT_ITERATIONS : Z := 310000.
Definition LEGACY_ITERATIONS : Z := 100000.

(** What [wrapKeyWithPassword] resolves to. *)
Record WrappedKey := mkWrappedKey {
  wk_encryptedKey : jsstring;
  wk_salt : jsstring;
  wk_iv : jsstring;
  wk_iterations : Z;
  wk_version : Z
}.

Section PasswordCrypto.
Context `{Platform}.

Definition derivePasswordKey_Simple (password : jsstring) (salt : bytes)
    (iterations : Z) : result CryptoKey :=
  let! keyMaterial :=
    subtle_importKey_raw_pbkdf2 (TextEncoder_encode password) false
      [usage_deriveBits; usage_deriveKey] in
  subtle_deriveKey_pbkdf2 salt iterations keyMaterial false
    [usage_encrypt; usage_decrypt].

Definition wrapKeyWithPassword (fileKey : CryptoKey) (password : jsstring)
  : Rand WrappedKey :=
  let* salt := getRandomValues 16 in
  let*? saltString := btoa (String_fromCharCode salt) in
  let*? passwordKey := derivePasswordKey_Simple password salt CURRENT_ITERATIONS in
  let*? fileKeyRaw := subtle_exportKey_raw fileKey in
  let* iv := getRandomValues 12 in
  let*? encryptedKeyBuffer := subtle_encrypt iv passwordKey fileKeyRaw in
  let*? encryptedKey := btoa (String_fromCharCode encryptedKeyBuffer) in
  let*? ivString := btoa (String_fromCharCode iv) in
  rand_ret (mkWrappedKey encryptedKey saltString ivString CURRENT_ITERATIONS 2).

Definition unwrapKeyWithPassword (encryptedKeyStr password saltStr ivStr : jsstring)
    (iterations : option Z) : result CryptoKey :=
  let! saltDecoded := atob saltStr in
  let salt := Uint8Array_from saltDecoded in
  let! ivDecoded := atob ivStr in
  let iv := Uint8Array_from ivDecoded in
  let! encryptedKeyDecoded := atob encryptedKeyStr in
  let encryptedKey := Uint8Array_from encryptedKeyDecoded in
  let iterationCount := number_or iterations LEGACY_ITERATIONS in
  let! passwordKey := derivePasswordKey_Simple password salt iterationCount in
  try_catch_throw
    (let! fileKeyRaw := subtle_decrypt iv passwordKey encryptedKey in
     subtle_importKey_raw_aes fileKeyRaw true [usage_encrypt; usage_decrypt])
    (Error "Incorrect Password").

End PasswordCrypto.

(** What the "encrypting" step of [handleEncryptAndSend] produces. *)
Record EncryptedUpload := mkEncryptedUpload {
  up_key : CryptoKey;
  up_file : EncryptedFile;
  up_encryptedMetadata : jsstring;
  up_publicName : jsstring;
  up_passwordProtection : option WrappedKey
}.

(** The "encrypting" step of the upload form's [handleEncryptAndSend]: one
    key, the file, the metadata, the public label and, when a password was
    typed, the wrapped key. *)
Definition handleEncryptAndSend_encrypting `{Platform} (selectedFile : bytes)
    (metadataPayload : json) (password : jsstring) : Rand EncryptedUpload :=
  let* key := generateKey in
  let* encrypted := encryptFile selectedFile key in
  let* encryptedMetadata := encryptMetadata metadataPayload key in
  let* publicName := generatePublicLabel in
  let* passwordProtection :=
    match password with
    | [] => rand_ret None
    | _ :: _ =>
        let* wrapped := wrapKeyWithPassword key password in
        rand_ret (Some wrapped)
    end in
  rand_ret (mkEncryptedUpload key encrypted encryptedMetadata publicName
              passwordProtection).

(** The iteration counts [deriveKey] accepts. *)
Definition valid_iterations (n : Z) : Prop := (0 < n <= 4294967295)%Z.

(** The three strings of a wrapping of [K] under [password] made at the
    iteration count [iterations]: what the steps of [wrapKeyWithPassword]
    store, whichever count they ran with. *)
Definition wrapping_of `{Platform} (K : CryptoKey) (password : jsstring)
    (iterations : Z) (encryptedKey salt iv : jsstring) : Prop :=
  exists saltBytes ivBytes : bytes,
    length saltBytes = 16 /\ length ivBytes = 12 /\
    salt = Base64.encode (String_fromCharCode saltBytes) /\
    iv = Base64.encode (String_fromCharCode ivBytes) /\
    encryptedKey =
      Base64.encode
        (String_fromCharCode
           (aes_gcm_encrypt
              (pbkdf2_hmac_sha256 (TextEncoder_encode password) saltBytes
                 iterations)
              ivBytes (key_material K))).

(** ** [convex/files.ts]: the two-phase download *)

(** Timestamps and counts are integers (the server sets them from
    [Date.now()] and by adding one to zero, far below [2 ^ 53], where a
    double holds them exactly); a field declared [v.optional] is an
    [option], [None] being [undefined].

    A download limit comes from the caller as [v.optional(v.number())], and
    the validator checks nothing beyond the type: it is any float64.  Every
    finite float64 is a rational, so a limit is a rational, an infinity or
    [NaN]. *)
Inductive Number : Type :=
  | Finite (q : QArith_base.Q)
  | PosInfinity
  | NegInfinity
  | NaN.

(** The number of an integer. *)
Definition Number_of_Z (n : Z) : Number := Finite (QArith_base.inject_Z n).

(** [Math.ceil] of a rational. *)
Definition Math_ceil (q : QArith_base.Q) : Z :=
  (- ((- QArith_base.Qnum q) / Z.pos (QArith_base.Qden q)))%Z.

(** [c >= m] for an integer [c]: a comparison with [NaN] is false. *)
Definition Number_ge (c : Z) (m : Number) : bool :=
  match m with
  | Finite q => QArith_base.Qle_bool q (QArith_base.inject_Z c)
  | PosInfinity => false
  | NegInfinity => true
  | NaN => false
  end.

Module Convex.

Abbreviation Id := nat.

Record FileDoc := mkFileDoc {
  storageId : nat;
  userId : option string;
  publicName : jsstring;
  encryptedMetadata : jsstring;
  file_iv : jsstring;
  expiresAt : option Z;
  maxDownloads : option Number;
  downloads : option Z;
  lastDownloadAt : option Z;
  passwordProtection : option WrappedKey
}.

Record TokenDoc := mkTokenDoc {
  tok_id : Id;
  tok_fileId : Id;
  tok_token : string;
  tok_createdAt : Z;
  tok_used : bool;
  tok_expiresAt : Z
}.

Record AttemptDoc := mkAttemptDoc {
  att_id : Id;
  att_fileId : Id;
  att_attemptTime : Z;
  att_sessionId : string
}.

Record HistoryDoc := mkHistoryDoc {
  hist_id : Id;
  hist_userId : string;
  hist_fileId : option Id;
  hist_maxDownloads : option Number;
  hist_downloads : option Z
}.

(** The database: the [files] table by document id, the other tables in
    creation order, and the next id to hand out. *)
Record Db := mkDb {
  files : gmap Id FileDoc;
  downloadTokens : list TokenDoc;
  downloadAttempts : list AttemptDoc;
  fileHistory : list HistoryDoc;
  next_id : Id
}.

Definition empty_db : Db := mkDb ∅ [] [] [] 0.

(** [file.downloads || 0]. *)
Definition counter (f : FileDoc) : Z := number_or (downloads f) 0.

(** [file.expiresAt && file.expiresAt < now]. *)
Definition expired (f : FileDoc) (now : Z) : bool :=
  match expiresAt f with
  | Some t => negb (Z.eqb t 0) && Z.ltb t now
  | None => false
  end.

(** [file.maxDownloads !== undefined &&
     (file.downloads || 0) >= file.maxDownloads]. *)
Definition limit_reached (f : FileDoc) : bool :=
  match maxDownloads f with
  | Some m => Number_ge (counter f) m
  | None => false
  end.

Definition RATE_LIMIT_WINDOW : Z := 15 * 60 * 1000.
Definition MAX_ATTEMPTS : nat := 5.
Definition TOKEN_TTL : Z := 5 * 60 * 1000.
Definition HISTORY_RETENTION_DAYS : Z := 14.

(** The arguments of [saveFile] that the model keeps. *)
Record SaveFileArgs := mkSaveFileArgs {
  arg_storageId : nat;
  arg_publicName : jsstring;
  arg_encryptedMetadata : jsstring;
  arg_iv : jsstring;
  arg_expiresAt : option Z;
  arg_maxDownloads : option Number;
  arg_passwordProtection : option WrappedKey
}.

(** [saveFile], when neither [validateContentOrThrow] throws: the inserted
    document starts with [downloads: 0]; a signed-in user also gets a
    history entry. *)
Definition saveFile (db : Db) (authUser : option string)
    (args : SaveFileArgs) : Id * Db :=
  let fileId := next_id db in
  let doc := mkFileDoc (arg_storageId args) authUser (arg_publicName args)
               (arg_encryptedMetadata args) (arg_iv args)
               (arg_expiresAt args) (arg_maxDownloads args) (Some 0%Z) None
               (arg_passwordProtection args) in
  let db1 := mkDb (<[fileId := doc]> (files db)) (downloadTokens db)
               (downloadAttempts db) (fileHistory db) (S (next_id db)) in
  match authUser with
  | Some user =>
      (fileId,
       mkDb (files db1) (downloadTokens db1) (downloadAttempts db1)
         (fileHistory db1 ++
            [mkHistoryDoc (next_id db1) user (Some fileId)
               (arg_maxDownloads args) (Some 0%Z)])
         (S (next_id db1)))
  | None => (fileId, db1)
  end.

Inductive TokenResult :=
  | TokenNull
  | RateLimited (retryAfterMinutes : Z)
  | TokenIssued (url : option string) (token : string) (expiresIn : Z).

(** [Math.ceil(x / 1000 / 60)]. *)
Definition ceil_minutes (x : Z) : Z := - ((- x) / 60000).

Definition recent_attempts (db : Db) (fileId : Id) (sessionId : string)
    (now : Z) : list AttemptDoc :=
  List.filter
    (fun a => Nat.eqb (att_fileId a) fileId
              && String.eqb (att_sessionId a) sessionId
              && Z.gtb (att_attemptTime a) (now - RATE_LIMIT_WINDOW))
    (downloadAttempts db).

(** [Math.min(...times)]. *)
Definition minimum (times : list Z) : Z :=
  match times with
  | [] => 0
  | t :: ts => fold_left Z.min ts t
  end.

(** A session id is used when it is given and not the empty string. *)
Definition session_given (sessionId : option string) : option string :=
  match sessionId with
  | Some s => if String.eqb s "" then None else Some s
  | None => None
  end.

(** Phase 1.  [now] is [Date.now()], [uuid] is [crypto.randomUUID()] and
    [getUrl] is [ctx.storage.getUrl]. *)
Definition getDownloadToken (getUrl : nat -> option string) (db : Db)
    (now : Z) (uuid : string) (fileId : Id) (sessionId : option string)
  : TokenResult * Db :=
  match files db !! fileId with
  | None => (TokenNull, db)
  | Some file =>
      let limited_or_db : Z + Db :=
        match passwordProtection file, session_given sessionId with
        | Some _, Some sid =>
            let recentAttempts := recent_attempts db fileId sid now in
            if Nat.leb MAX_ATTEMPTS (length recentAttempts)
            then
              let oldestAttempt := minimum (map att_attemptTime recentAttempts) in
              inl (ceil_minutes (oldestAttempt + RATE_LIMIT_WINDOW - now))
            else
              inr (mkDb (files db) (downloadTokens db)
                     (downloadAttempts db ++
                        [mkAttemptDoc (next_id db) fileId now sid])
                     (fileHistory db) (S (next_id db)))
        | _, _ => inr db
        end in
      match limited_or_db with
      | inl retryAfter => (RateLimited retryAfter, db)
      | inr db1 =>
          if expired file now then (TokenNull, db1)
          else if limit_reached file then (TokenNull, db1)
          else
            let token := uuid in
            let db2 :=
              mkDb (files db1)
                (downloadTokens db1 ++
                   [mkTokenDoc (next_id db1) fileId token now false
                      (now + TOKEN_TTL)])
                (downloadAttempts db1) (fileHistory db1) (S (next_id db1)) in
            (TokenIssued (getUrl (storageId file)) token TOKEN_TTL, db2)
      end
  end.

Inductive ConfirmError :=
  | INVALID_TOKEN
  | TOKEN_EXPIRED
  | TOKEN_USED
  | FILE_NOT_FOUND
  | LIMIT_REACHED.

Inductive ConfirmResult :=
  | ConfirmFailed (error : ConfirmError)
  | ConfirmSuccess.

(** [.withIndex("by_token", q => q.eq("token", token)).first()]. *)
Definition first_token (db : Db) (token : string) : option TokenDoc :=
  List.find (fun t => String.eqb (tok_token t) token) (downloadTokens db).

(** [ctx.db.delete(tokenRecord._id)]. *)
Definition delete_token (db : Db) (id : Id) : Db :=
  mkDb (files db)
    (List.filter (fun t => negb (Nat.eqb (tok_id t) id)) (downloadTokens db))
    (downloadAttempts db) (fileHistory db) (next_id db).

(** [ctx.db.patch(tokenRecord._id, { used: true })]. *)
Definition mark_used (db : Db) (id : Id) : Db :=
  mkDb (files db)
    (map (fun t =>
            if Nat.eqb (tok_id t) id
            then mkTokenDoc (tok_id t) (tok_fileId t) (tok_token t)
                   (tok_createdAt t) true (tok_expiresAt t)
            else t)
       (downloadTokens db))
    (downloadAttempts db) (fileHistory db) (next_id db).

(** [ctx.db.patch(fileId, { downloads, lastDownloadAt })]. *)
Definition patch_file (db : Db) (fileId : Id) (file : FileDoc)
    (newDownloads now : Z) : Db :=
  mkDb (<[fileId :=
            mkFileDoc (storageId file) (userId file) (publicName file)
              (encryptedMetadata file) (file_iv file) (expiresAt file)
              (maxDownloads file) (Some newDownloads) (Some now)
              (passwordProtection file)]> (files db))
    (downloadTokens db) (downloadAttempts db) (fileHistory db) (next_id db).

(** The first history entry of the file gets the new count. *)
Fixpoint patch_first_history (fileId : Id) (newDownloads : Z)
    (hs : list HistoryDoc) : list HistoryDoc :=
  match hs with
  | [] => []
  | h :: hs' =>
      match hist_fileId h with
      | Some f =>
          if Nat.eqb f fileId
          then mkHistoryDoc (hist_id h) (hist_userId h) (hist_fileId h)
                 (hist_maxDownloads h) (Some newDownloads) :: hs'
          else h :: patch_first_history fileId newDownloads hs'
      | None => h :: patch_first_history fileId newDownloads hs'
      end
  end.

Definition patch_history (db : Db) (fileId : Id) (newDownloads : Z) : Db :=
  mkDb (files db) (downloadTokens db) (downloadAttempts db)
    (patch_first_history fileId newDownloads (fileHistory db)) (next_id db).

(** Phase 2. *)
Definition confirmDownload (db : Db) (now : Z) (token : string)
  : ConfirmResult * Db :=
  match first_token db token with
  | None => (ConfirmFailed INVALID_TOKEN, db)
  | Some tokenRecord =>
      if Z.ltb (tok_expiresAt tokenRecord) now
      then (ConfirmFailed TOKEN_EXPIRED, delete_token db (tok_id tokenRecord))
      else if tok_used tokenRecord
      then (ConfirmFailed TOKEN_USED, db)
      else
        match files db !! tok_fileId tokenRecord with
        | None =>
            (ConfirmFailed FILE_NOT_FOUND,
             delete_token db (tok_id tokenRecord))
        | Some file =>
            if limit_reached file
            then (ConfirmFailed LIMIT_REACHED,
                  delete_token db (tok_id tokenRecord))
            else
              let db1 := mark_used db (tok_id tokenRecord) in
              let newDownloads := (counter file + 1)%Z in
              let db2 := patch_file db1 (tok_fileId tokenRecord) file
                           newDownloads now in
              let db3 := patch_history db2 (tok_fileId tokenRecord)
                           newDownloads in
              (ConfirmSuccess, db3)
        end
  end.

(** The deprecated one-phase [downloadFile]: the same checks as phase 1,
    then the increment at once. *)
Definition downloadFile (getUrl : nat -> option string) (db : Db) (now : Z)
    (fileId : Id) (sessionId : option string)
  : option (Z + option string) * Db :=
  match files db !! fileId with
  | None => (None, db)
  | Some file =>
      let limited_or_db : Z + Db :=
        match passwordProtection file, session_given sessionId with
        | Some _, Some sid =>
            let recentAttempts := recent_attempts db fileId sid now in
            if Nat.leb MAX_ATTEMPTS (length recentAttempts)
            then
              let oldestAttempt := minimum (map att_attemptTime recentAttempts) in
              inl (ceil_minutes (oldestAttempt + RATE_LIMIT_WINDOW - now))
            else
              inr (mkDb (files db) (downloadTokens db)
                     (downloadAttempts db ++
                        [mkAttemptDoc (next_id db) fileId now sid])
                     (fileHistory db) (S (next_id db)))
        | _, _ => inr db
        end in
      match limited_or_db with
      | inl retryAfter => (Some (inl retryAfter), db)
      | inr db1 =>
          if expired file now then (None, db1)
          else if limit_reached file then (None, db1)
          else
            (Some (inr (getUrl (storageId file))),
             patch_file db1 fileId file (counter file + 1) now)
      end
  end.

(** [deleteFile]: only the signed-in owner deletes. *)
Definition deleteFile (db : Db) (authUser : option string) (fileId : Id)
  : result unit * Db :=
  match authUser with
  | None => (Throw (Error "Not authenticated"), db)
  | Some user =>
      match files db !! fileId with
      | None => (Throw (Error "File not found"), db)
      | Some file =>
          if match userId file with
             | Some owner => String.eqb owner user
             | None => false
             end
          then (Ok tt,
                mkDb (delete fileId (files db)) (downloadTokens db)
                  (downloadAttempts db) (fileHistory db) (next_id db))
          else (Throw (Error "Not authorized to delete this file"), db)
      end
  end.

(** The value of a file's download counter in a database ([None] when the
    file is gone). *)
Definition counter_of (db : Db) (fileId : Id) : option Z :=
  counter <$> files db !! fileId.

(** A number of token requests, one after the other. *)
Record TokenRequest := mkTokenRequest {
  req_now : Z;
  req_uuid : string;
  req_fileId : Id;
  req_sessionId : option string
}.

Definition request_tokens (getUrl : nat -> option string)
    (reqs : list TokenRequest) (db : Db) : Db :=
  fold_left
    (fun d r =>
       snd (getDownloadToken getUrl d (req_now r) (req_uuid r)
              (req_fileId r) (req_sessionId r)))
    reqs db.

(** One call of a mutation that creates a file, reads or writes its
    download counter, or deletes it. *)
Inductive Call :=
  | CallSaveFile (authUser : option string) (args : SaveFileArgs)
  | CallGetDownloadToken (now : Z) (uuid : string) (fileId : Id)
      (sessionId : option string)
  | CallConfirmDownload (now : Z) (token : string)
  | CallDownloadFile (now : Z) (fileId : Id) (sessionId : option string)
  | CallDeleteFile (authUser : option string) (fileId : Id).

Definition run_call (getUrl : nat -> option string) (db : Db) (c : Call)
  : Db :=
  match c with
  | CallSaveFile authUser args => snd (saveFile db authUser args)
  | CallGetDownloadToken now uuid fileId sessionId =>
      snd (getDownloadToken getUrl db now uuid fileId sessionId)
  | CallConfirmDownload now token => snd (confirmDownload db now token)
  | CallDownloadFile now fileId sessionId =>
      snd (downloadFile getUrl db now fileId sessionId)
  | CallDeleteFile authUser fileId => snd (deleteFile db authUser fileId)
  end.

(** The databases that calls of these mutations lead to, from the empty
    one. *)
Inductive reachable (getUrl : nat -> option string) : Db -> Prop :=
  | reachable_empty : reachable getUrl empty_db
  | reachable_call db c :
      reachable getUrl db -> reachable getUrl (run_call getUrl db c).

(** The counter of a file is never negative, and where it is not zero the
    count before the last increment had not reached the limit. *)
Definition below_limit (c : Z) (m : option Number) : Prop :=
  (0 <= c)%Z /\
  (c = 0%Z \/ match m with
             | Some m => Number_ge (c - 1) m = false
             | None => True
             end).

Definition within_limits (db : Db) : Prop :=
  forall fileId file,
    files db !! fileId = Some file ->
    below_limit (counter file) (maxDownloads file).

End Convex.

(** ** The download page: [executeDownload] *)

Module DownloadPage.

Inductive Status :=
  | idle
  | decrypting
  | done
  | error.

Record PasswordProtection := mkPasswordProtection {
  pp_encryptedKey : jsstring;
  pp_salt : jsstring;
  pp_iv : jsstring;
  pp_iterations : option Z
}.

Record FileMeta := mkFileMeta {
  fm_publicName : jsstring;
  fm_size : Z;
  fm_encryptedMetadata : jsstring;
  fm_iv : jsstring;
  fm_passwordProtection : option PasswordProtection
}.

(** The component state [executeDownload] reads and sets. *)
Record PageState := mkPageState {
  fileData : option FileMeta;
  status : Status;
  errorMsg : string;
  password : jsstring;
  realFilename : option jsstring;
  rateLimitMsg : option string;
  turnstileToken : option string
}.

(** The reply of [/api/files/download-token], as far as it is read. *)
Record TokenReply := mkTokenReply {
  reply_error : option string;
  reply_message : string;
  reply_url : option string;
  reply_token : option string
}.

(** What the browser and the network answer during one run: the URL
    fragment, the session id, the outcome of each [fetch] ([Throw] for a
    rejected promise) and the outcome of writing the cache entry
    ([sessionStorage.setItem] throws when the storage is full or denied).
    [token_response] is the outcome of the token request as a whole:
    building its body, which reads the session id, the [fetch] and the
    parsing of the reply; it is [Throw] when any of them throws.  Creating
    the object URL and the anchor element of the save is taken not to
    throw. *)
Record Env := mkEnv {
  location_hash : jsstring;
  session_id : string;
  turnstile_response : result bool;
  token_response : result (option TokenReply);
  blob_response : result (bool * bytes);
  confirm_response : result unit;
  cache_response : result unit
}.

(** What a run does besides setting state, in order. *)
Inductive Effect :=
  | FetchTurnstile (token : string)
  | FetchDownloadToken (sessionId : option string)
  | FetchBlob (url : string)
  | SaveAs (filename : jsstring) (content : bytes)
  | CacheFileInfo (filename : jsstring)
  | FetchConfirmDownload (token : string)
  | ConsoleError (e : exn).

Definition setStatus (v : Status) (st : PageState) : PageState :=
  mkPageState (fileData st) v (errorMsg st) (password st) (realFilename st)
    (rateLimitMsg st) (turnstileToken st).
Definition setErrorMsg (v : string) (st : PageState) : PageState :=
  mkPageState (fileData st) (status st) v (password st) (realFilename st)
    (rateLimitMsg st) (turnstileToken st).
Definition setRealFilename (v : option jsstring) (st : PageState) : PageState :=
  mkPageState (fileData st) (status st) (errorMsg st) (password st) v
    (rateLimitMsg st) (turnstileToken st).
Definition setRateLimitMsg (v : option string) (st : PageState) : PageState :=
  mkPageState (fileData st) (status st) (errorMsg st) (password st)
    (realFilename st) v (turnstileToken st).
Definition setTurnstileToken (v : option string) (st : PageState) : PageState :=
  mkPageState (fileData st) (status st) (errorMsg st) (password st)
    (realFilename st) (rateLimitMsg st) v.

(** A string that is there and not empty. *)
Definition truthy_js (s : option jsstring) : option jsstring :=
  match s with
  | Some (c :: r) => Some (c :: r)
  | _ => None
  end.

Definition truthy_str (s : option string) : option string :=
  match s with
  | Some (String c r) => Some (String c r)
  | _ => None
  end.

(** How the [try] block of a run ends: by an exception, by the early
    [return] of the rate-limit branch, or at its last statement. *)
Inductive Completion :=
  | Thrown (e : exn)
  | Returned
  | Finished.

Section Run.
Context `{Platform}.

(** The "Decrypt" step: with the unwrapped key when the file is
    password-protected, with the key of the URL fragment otherwise. *)
Definition decrypt_payload (env : Env) (fd : FileMeta)
    (fileKey : option CryptoKey) (encryptedBlob : bytes) : result bytes :=
  match fm_passwordProtection fd, fileKey with
  | Some _, Some key =>
      let! decoded := atob (fm_iv fd) in
      let iv := Uint8Array_from decoded in
      let buffer := encryptedBlob in
      subtle_decrypt iv key buffer
  | _, _ =>
      let keyString := location_hash env in
      decryptFile encryptedBlob keyString (fm_iv fd)
  end.

(** The part of the [try] block from the token request on.  [fileKey]
    and [decryptedMeta] are what the key acquisition left. *)
Definition download_and_decrypt (env : Env) (fd : FileMeta)
    (closure_realFilename : option jsstring)
    (fileKey : option CryptoKey) (decryptedMeta : option json)
    (st : PageState) (log : list Effect)
  : Completion * PageState * list Effect :=
  let sessionId :=
    match fm_passwordProtection fd with
    | Some _ => Some (session_id env)
    | None => None
    end in
  let log := log ++ [FetchDownloadToken sessionId] in
  match token_response env with
  | Throw e => (Thrown e, st, log)
  | Ok reply =>
      let rate_limited :=
        match reply with
        | Some r =>
            match reply_error r with
            | Some code => String.eqb code "RATE_LIMITED"
            | None => false
            end
        | None => false
        end in
      if rate_limited
      then
        let message :=
          match reply with Some r => reply_message r | None => EmptyString end in
        (Returned,
         setErrorMsg message (setRateLimitMsg (Some message) (setStatus error st)),
         log)
      else
        match reply with
        | None =>
            (Thrown (Error "Download limit reached or file expired."), st, log)
        | Some r =>
            match truthy_str (reply_url r), truthy_str (reply_token r) with
            | Some url, Some downloadToken =>
                let log := log ++ [FetchBlob url] in
                match blob_response env with
                | Throw e => (Thrown e, st, log)
                | Ok (false, _) =>
                    (Thrown (Error "Failed to download file."), st, log)
                | Ok (true, encryptedBlob) =>
                    match decrypt_payload env fd fileKey encryptedBlob with
                    | Throw e => (Thrown e, st, log)
                    | Ok decryptedBlob =>
                        let finalFilename :=
                          match truthy_js closure_realFilename with
                          | Some n => n
                          | None =>
                              match truthy_js
                                      (match decryptedMeta with
                                       | Some m => json_name m
                                       | None => None
                                       end) with
                              | Some n => n
                              | None => fm_publicName fd
                              end
                          end in
                        (* a.download = finalFilename; a.click() *)
                        let log := log ++ [SaveAs finalFilename decryptedBlob] in
                        (* sessionStorage.setItem(cacheKey, ...) *)
                        match cache_response env with
                        | Throw e => (Thrown e, st, log)
                        | Ok _ =>
                            let log := log ++ [CacheFileInfo finalFilename] in
                            let st := setStatus done st in
                            (* try { await fetch(confirm) } catch { } *)
                            let log :=
                              log ++ [FetchConfirmDownload downloadToken] in
                            match confirm_response env with
                            | Ok _ => (Finished, st, log)
                            | Throw _ => (Finished, st, log)
                            end
                        end
                    end
                end
            | _, _ =>
                (Thrown (Error "Download limit reached or file expired."),
                 st, log)
            end
        end
  end.

(** The [try] block of [executeDownload]. *)
Definition executeDownload_try (env : Env) (fd : FileMeta) (st0 : PageState)
  : Completion * PageState * list Effect :=
  let st := setRateLimitMsg None (setStatus decrypting st0) in
  match fm_passwordProtection fd with
  | Some pp =>
      match password st0 with
      | [] => (Thrown (Error "Password required"), st, [])
      | _ :: _ =>
          match truthy_str (turnstileToken st0) with
          | None =>
              (Thrown (Error "Please complete the security verification."),
               st, [])
          | Some verificationToken =>
              let log := [FetchTurnstile verificationToken] in
              match turnstile_response env with
              | Throw e => (Thrown e, st, log)
              | Ok false =>
                  (Thrown (Error "Security verification failed. Please try again."),
                   setTurnstileToken None st, log)
              | Ok true =>
                  match unwrapKeyWithPassword (pp_encryptedKey pp)
                          (password st0) (pp_salt pp) (pp_iv pp)
                          (pp_iterations pp) with
                  | Throw e => (Thrown e, st, log)
                  | Ok fileKey =>
                      (* try { decryptedMeta = ...; if (decryptedMeta)
                         setRealFilename(decryptedMeta.name) } catch { } *)
                      let '(decryptedMeta, st) :=
                        match decryptMetadataWithKey
                                (fm_encryptedMetadata fd) fileKey with
                        | Ok meta =>
                            (Some meta,
                             if json_truthy meta
                             then setRealFilename (json_name meta) st
                             else st)
                        | Throw _ => (None, st)
                        end in
                      download_and_decrypt env fd (realFilename st0)
                        (Some fileKey) decryptedMeta st log
                  end
              end
          end
      end
  | None =>
      match location_hash env with
      | [] => (Thrown (Error "Missing decryption key in URL."), st, [])
      | _ :: _ =>
          download_and_decrypt env fd (realFilename st0) None None st []
      end
  end.

(** The [catch (err)] clause: [console.error(err)],
    [setStatus("error")], [setErrorMsg(err.message)]. *)
Definition catch_clause (r : Completion * PageState * list Effect)
  : PageState * list Effect :=
  match r with
  | (Thrown err, st, log) =>
      (setErrorMsg (exn_message err) (setStatus error st),
       log ++ [ConsoleError err])
  | (_, st, log) => (st, log)
  end.

(** [executeDownload]: the page state and the effects after one run. *)
Definition executeDownload (env : Env) (st0 : PageState)
  : PageState * list Effect :=
  match fileData st0 with
  | None => (st0, [])
  | Some fd => catch_clause (executeDownload_try env fd st0)
  end.

End Run.

(** A file was handed to the user. *)
Definition saved (log : list Effect) : Prop :=
  exists filename content, In (SaveAs filename content) log.

(** The confirmation endpoint was called. *)
Definition confirmed (log : list Effect) : Prop :=
  exists token, In (FetchConfirmDownload token) log.

(** The same page with another encrypted-metadata envelope in its file
    record, and the same answers with another outcome of the confirmation
    call. *)
Definition with_encryptedMetadata (st : PageState) (m : jsstring) : PageState :=
  mkPageState
    (option_map
       (fun fd => mkFileMeta (fm_publicName fd) (fm_size fd) m (fm_iv fd)
                    (fm_passwordProtection fd))
       (fileData st))
    (status st) (errorMsg st) (password st) (realFilename st)
    (rateLimitMsg st) (turnstileToken st).

Definition with_confirm_response (env : Env) (r : result unit) : Env :=
  mkEnv (location_hash env) (session_id env) (turnstile_response env)
    (token_response env) (blob_response env) r (cache_response env).

(** The token endpoint granted a token for the blob at [url]. *)
Definition token_granted (env : Env) (url downloadToken : string) : Prop :=
  exists r,
    token_response env = Ok (Some r) /\
    reply_error r <> Some "RATE_LIMITED"%string /\
    truthy_str (reply_url r) = Some url /\
    truthy_str (reply_token r) = Some downloadToken.

(** The run may start on the password path: a password is typed, the
    human verification was passed and is confirmed by the server. *)
Definition password_path_open (env : Env) (st : PageState) : Prop :=
  password st <> [] /\
  (exists t, truthy_str (turnstileToken st) = Some t) /\
  turnstile_response env = Ok true.

(** What the user is shown of a run's outcome. *)
Definition shown (st : PageState) : Status * string * option string :=
  (status st, errorMsg st, rateLimitMsg st).

End DownloadPage.

(** ** A small platform to run the model on *)

(** An executable stand-in for the browser, used to evaluate the model on
    concrete inputs: a JSON value is its own 8-bit text, the cipher masks
    every byte with one byte of the key and appends a 16-byte tag made of the
    masked IV, the key derivation concatenates its inputs.  It has none of
    the security of the real primitives and all of the laws the proofs
    assume of them. *)
Module Toy.

Definition xor_ascii (a b : ascii) : ascii :=
  match a, b with
  | Ascii a0 a1 a2 a3 a4 a5 a6 a7, Ascii b0 b1 b2 b3 b4 b5 b6 b7 =>
      Ascii (xorb a0 b0) (xorb a1 b1) (xorb a2 b2) (xorb a3 b3)
            (xorb a4 b4) (xorb a5 b5) (xorb a6 b6) (xorb a7 b7)
  end.

Definition key_byte (k : bytes) : ascii := fold_right xor_ascii zero k.

Definition mask (k : bytes) (data : bytes) : bytes :=
  map (xor_ascii (key_byte k)) data.

Definition tag (k nonce : bytes) : bytes :=
  mask k (firstn 16 (nonce ++ repeat zero 16)).

Definition encrypt (k nonce plaintext : bytes) : bytes :=
  mask k plaintext ++ tag k nonce.

Fixpoint bytes_eqb (x y : bytes) : bool :=
  match x, y with
  | [], [] => true
  | a :: x', b :: y' => Ascii.eqb a b && bytes_eqb x' y'
  | _, _ => false
  end.

Definition decrypt (k nonce ciphertext : bytes) : option bytes :=
  if Nat.ltb (length ciphertext) 16 then None
  else
    let n := length ciphertext - 16 in
    if bytes_eqb (skipn n ciphertext) (tag k nonce)
    then Some (mask k (firstn n ciphertext))
    else None.

Definition derive (password salt : bytes) (iterations : Z) : bytes :=
  firstn 32 (ascii_of_N (Z.to_N iterations) :: password ++ salt
             ++ repeat zero 32).

Definition all_usages : list KeyUsage :=
  [usage_encrypt; usage_decrypt; usage_wrapKey; usage_unwrapKey;
   usage_deriveKey; usage_deriveBits].

Definition flag (b : bool) : ascii := if b then "1"%char else "0"%char.

(** The exported key as text: one flag per usage, then the material. *)
Definition export (k : CryptoKey) : bytes :=
  map (fun u => flag (has_usage u (key_usages k))) all_usages
  ++ key_material k.

Definition flagged (flags : bytes) (u : KeyUsage) : bool :=
  existsb (fun p => KeyUsage_eqb (fst p) u && Ascii.eqb (snd p) "1"%char)
    (combine all_usages flags).

Definition import (text : bytes) (extractable : bool)
    (usages : list KeyUsage) : result CryptoKey :=
  let flags := firstn 6 text in
  let material := skipn 6 text in
  match usages with
  | [] => Throw (DOMException SyntaxError)
  | _ =>
      if Nat.ltb (length text) 6
      then Throw (DOMException DataError)
      else if negb (forallb (flagged flags) usages)
      then Throw (DOMException DataError)
      else if negb (Nat.eqb (length material) 16
                    || Nat.eqb (length material) 24
                    || Nat.eqb (length material) 32)
      then Throw (DOMException DataError)
      else Ok (mkCryptoKey AES_GCM extractable usages material)
  end.

Definition message (n : DomErrorName) : string :=
  match n with
  | InvalidCharacterError => "InvalidCharacterError"
  | InvalidAccessError => "InvalidAccessError"
  | OperationError => "OperationError"
  | DataError => "DataError"
  | SyntaxError => "SyntaxError"
  | TypeError => "TypeError"
  | QuotaExceededError => "QuotaExceededError"
  end.

Definition parse (s : jsstring) : option bytes :=
  if forallb (fun c => N.ltb c 256) s then Some (map ascii_of_N s) else None.

Definition platform : Platform := {|
  json := bytes;
  JSON_stringify := fun v => map N_of_ascii v;
  JSON_parse := parse;
  json_truthy := fun v => match v with [] => false | _ => true end;
  json_name := fun v => Some (map N_of_ascii v);
  TextEncoder_encode := fun s => map ascii_of_N s;
  TextDecoder_decode := fun b => map N_of_ascii b;
  aes_gcm_encrypt := encrypt;
  aes_gcm_decrypt := decrypt;
  pbkdf2_hmac_sha256 := derive;
  jwk_export := export;
  jwk_import := import;
  dom_message := message
|}.

(** Concrete inputs: an entropy stream, the key generated from it, a
    plaintext, a metadata value and two passwords. *)
Definition entropy : Entropy :=
  mkEntropy (fun i => ascii_of_nat (7 * i + 3)) 0.

Definition key : CryptoKey :=
  mkCryptoKey AES_GCM true [usage_encrypt; usage_decrypt] (drawn entropy 32).

Definition plaintext : bytes := list_ascii_of_string "attack at dawn".
Definition metadata : bytes := list_ascii_of_string "report.pdf".
Definition correct : jsstring := lit "CorrectHorse1!".
Definition wrong : jsstring := lit "wrong".

End Toy.

(** The stand-in with the one trait of PBKDF2-HMAC-SHA256 that matters to
    password comparison: the password is the HMAC key, and HMAC fills a
    key shorter than its 64-byte block with zero bytes.  A password and the
    same password followed by U+0000, which UTF-8 encodes as one zero byte,
    are the same HMAC key and derive the same wrapping key. *)
Module PaddedToy.

Definition HMAC_BLOCK : nat := 64.

Definition pad_key (password : bytes) : bytes :=
  password ++ repeat zero (HMAC_BLOCK - length password).

Definition derive (password salt : bytes) (iterations : Z) : bytes :=
  firstn 32 (ascii_of_N (Z.to_N iterations) :: salt ++ pad_key password).

Definition platform : Platform := {|
  json := bytes;
  JSON_stringify := fun v => map N_of_ascii v;
  JSON_parse := Toy.parse;
  json_truthy := fun v => match v with [] => false | _ => true end;
  json_name := fun v => Some (map N_of_ascii v);
  TextEncoder_encode := fun s => map ascii_of_N s;
  TextDecoder_decode := fun b => map N_of_ascii b;
  aes_gcm_encrypt := Toy.encrypt;
  aes_gcm_decrypt := Toy.decrypt;
  pbkdf2_hmac_sha256 := derive;
  jwk_export := Toy.export;
  jwk_import := Toy.import;
  dom_message := Toy.message
|}.

(** The password [W + "\u0000"]. *)
Definition with_nul (W : jsstring) : jsstring := W ++ [0%N].

End PaddedToy.

(** ** A concrete password-protected upload and download *)

Module DownloadScenario.
Import DownloadPage.

#[local] Existing Instance Toy.platform.

(** The value a computation returns, [d] if it throws. *)
Definition value_of {A} (d : A) (m : Rand A) (e : Entropy) : A :=
  match fst (m e) with
  | Ok a => a
  | Throw _ => d
  end.

Definition no_file : EncryptedFile := mkEncryptedFile [] [] [] [].
Definition no_wrapping : WrappedKey := mkWrappedKey [] [] [] 0 0.

(** The "encrypting" step of an upload with a password. *)
Definition upload : EncryptedUpload :=
  value_of (mkEncryptedUpload Toy.key no_file [] [] None)
    (handleEncryptAndSend_encrypting Toy.plaintext Toy.metadata Toy.correct)
    Toy.entropy.

Definition uploaded : EncryptedFile := up_file upload.
Definition envelope : jsstring := up_encryptedMetadata upload.

Definition wrapped : WrappedKey :=
  match up_passwordProtection upload with
  | Some w => w
  | None => no_wrapping
  end.

(** The same plaintext encrypted once more under the same key, with the
    next draw of the random source. *)
Definition uploaded_again : EncryptedFile :=
  value_of no_file (encryptFile Toy.plaintext Toy.key) (advance Toy.entropy 44).

(** The same metadata encrypted once more under the same key, with the
    draw after that of the upload's metadata. *)
Definition envelope_again : jsstring :=
  value_of [] (encryptMetadata Toy.metadata Toy.key) (advance Toy.entropy 56).

(** A wrapping of the same key made at the legacy iteration count. *)
Definition legacy_salt : bytes := drawn Toy.entropy 16.
Definition legacy_nonce : bytes := drawn (advance Toy.entropy 16) 12.

Definition legacy_encryptedKey : jsstring :=
  Base64.encode
    (String_fromCharCode
       (aes_gcm_encrypt
          (pbkdf2_hmac_sha256 (TextEncoder_encode Toy.correct) legacy_salt
             LEGACY_ITERATIONS)
          legacy_nonce (key_material Toy.key))).

Definition protection : PasswordProtection :=
  mkPasswordProtection (wk_encryptedKey wrapped) (wk_salt wrapped)
    (wk_iv wrapped) (Some (wk_iterations wrapped)).

(** The file record as stored, and the same with its metadata envelope
    damaged: [!!!] is not Base64. *)
Definition record : FileMeta :=
  mkFileMeta (up_publicName upload) 14 envelope (iv uploaded) (Some protection).

Definition damaged_record : FileMeta :=
  mkFileMeta (up_publicName upload) 14 (lit "!!!") (iv uploaded)
    (Some protection).

Definition page (fd : FileMeta) (typed : jsstring) : PageState :=
  mkPageState (Some fd) idle EmptyString typed None None
    (Some "turnstile-pass"%string).

Definition answers : Env :=
  mkEnv [] "session-1"%string (Ok true)
    (Ok (Some (mkTokenReply None EmptyString
                 (Some "https://storage.example/blob"%string)
                 (Some "token-1"%string))))
    (Ok (true, encryptedBlob uploaded))
    (Ok tt) (Ok tt).

(** The same answers with the session storage full. *)
Definition storage_full : Env :=
  mkEnv (location_hash answers) (session_id answers)
    (turnstile_response answers) (token_response answers)
    (blob_response answers) (confirm_response answers)
    (Throw (DOMException QuotaExceededError)).

(** The "encrypting" step of an upload without a password, and the answers
    to a download by its link, given the outcome of the cache entry's
    write. *)
Definition upload_by_link : EncryptedUpload :=
  value_of (mkEncryptedUpload Toy.key no_file [] [] None)
    (handleEncryptAndSend_encrypting Toy.plaintext Toy.metadata [])
    Toy.entropy.

Definition link_answers (cache : result unit) : Env :=
  mkEnv (keyString (up_file upload_by_link)) (session_id answers)
    (turnstile_response answers) (token_response answers)
    (Ok (true, encryptedBlob (up_file upload_by_link)))
    (confirm_response answers) cache.

Definition unwrapped : CryptoKey :=
  mkCryptoKey AES_GCM true [usage_encrypt; usage_decrypt]
    (key_material Toy.key).

End DownloadScenario.

(** ** Two concrete runs of the two-phase download *)

Module Scenario.
Import Convex.

Definition getUrl (storageId : nat) : option string :=
  Some "https://storage.example/blob"%string.

Definition upload (limit : option Number) : SaveFileArgs :=
  mkSaveFileArgs 7 (lit "File-k3x9q2ab") (lit "bWV0YQ==") (lit "aXY=") None
    limit None.

(** A file without a limit, and five token requests for it. *)
Definition unlimited_db : Db := snd (saveFile empty_db None (upload None)).

Definition five_requests : list TokenRequest :=
  [mkTokenRequest 1000 "t1" 0 None; mkTokenRequest 1001 "t2" 0 None;
   mkTokenRequest 1002 "t3" 0 None; mkTokenRequest 1003 "t4" 0 None;
   mkTokenRequest 1004 "t5" 0 None]%string.

Definition after_requests : Db := request_tokens getUrl five_requests unlimited_db.
Definition after_confirm : Db := snd (confirmDownload after_requests 2000 "t3").
Definition after_second_confirm : Db :=
  snd (confirmDownload after_confirm 2001 "t3").

(** A file limited to one download, two tokens issued for it, and the
    first of them confirmed. *)
Definition limited_calls : list Call :=
  [CallSaveFile None (upload (Some (Number_of_Z 1)));
   CallGetDownloadToken 1000 "token-a" 0 None;
   CallGetDownloadToken 1001 "token-b" 0 None;
   CallConfirmDownload 2000 "token-a"]%string.

Definition limited_db : Db := fold_left (run_call getUrl) limited_calls empty_db.

(** A file saved with the limit [0.5], one token issued for it and
    confirmed. *)
Definition half : Number := Finite (QArith_base.Qmake 1 2).

Definition fractional_calls : list Call :=
  [CallSaveFile None (upload (Some half));
   CallGetDownloadToken 1000 "token-a" 0 None;
   CallConfirmDownload 2000 "token-a"]%string.

Definition fractional_db : Db :=
  fold_left (run_call getUrl) fractional_calls empty_db.

(** A file saved with the limit [-1]. *)
Definition negative_db : Db :=
  run_call getUrl empty_db
    (CallSaveFile None (upload (Some (Number_of_Z (-1))))).

End Scenario.

(** ** Character classes and well-formed Base64 *)

(** A lower-case letter or a digit. *)
Definition lower_alnum (c : N) : bool :=
  ((97 <=? c) && (c <=? 122) || (48 <=? c) && (c <=? 57))%N.

(** A character that needs no escaping in a URL fragment: a letter, a
    digit, [-] or [_]. *)
Definition url_safe (c : N) : bool :=
  ((97 <=? c) && (c <=? 122) || (65 <=? c) && (c <=? 90)
   || (48 <=? c) && (c <=? 57) || (c =? 45) || (c =? 95))%N.

(** The JSON text of an exported key is not the empty string. *)
Definition jwk_text_nonempty (P : Platform) : Prop :=
  forall k, JSON_stringify (jwk_export k) <> [].

(** A string [atob] accepts. *)
Definition base64_ok (s : jsstring) : Prop := exists d, atob s = Ok d.

(** ** [src/utils/passwordGenerator.ts]: [generatePassword] *)

Module PasswordGenerator.


















End PasswordGenerator.

(** ** The password utilities: [derivePasswordKey] *)

(** [derivePasswordKey(password, saltString, iterations =
    CURRENT_ITERATIONS)]: the default is taken only when the argument is
    absent. *)
Definition derivePasswordKey `{Platform} (password saltString : jsstring)
    (iterations : option Z) : result CryptoKey :=
  let iterations :=
    match iterations with Some n => n | None => CURRENT_ITERATIONS end in
  let! passwordKey :=
    subtle_importKey_raw_pbkdf2 (TextEncoder_encode password) false
      [usage_deriveKey] in
  let! decoded := atob saltString in
  let salt := Uint8Array_from decoded in
  subtle_deriveKey_pbkdf2 salt iterations passwordKey true
    [usage_encrypt; usage_decrypt].

(** ** [convex/files.ts]: the queries *)

Module ConvexQueries.
Import Convex.

(** What [getFileMeta] returns of a file, of the fields the model of the
    [files] table keeps. *)
Record FileMetaView := mkFileMetaView {
  view_id : Id;
  view_publicName : jsstring;
  view_encryptedMetadata : jsstring;
  view_iv : jsstring;
  view_expiresAt : option Z;
  view_maxDownloads : option Number;
  view_downloads : option Z;
  view_passwordProtection : option WrappedKey
}.

Definition getFileMeta (db : Db) (now : Z) (fileId : Id)
  : option FileMetaView :=
  match files db !! fileId with
  | None => None
  | Some file =>
      if expired file now then None
      else if limit_reached file then None
      else Some (mkFileMetaView fileId (publicName file)
                   (encryptedMetadata file) (file_iv file) (expiresAt file)
                   (maxDownloads file) (downloads file)
                   (passwordProtection file))
  end.

Inductive ExpiredReason :=
  | download_limit
  | time_expired.

(** What [getUserFiles] returns of a file, of the same fields. *)
Record UserFileView := mkUserFileView {
  uf_id : Id;
  uf_publicName : jsstring;
  uf_expiresAt : option Z;
  uf_maxDownloads : option Number;
  uf_downloads : option Z;
  uf_lastDownloadAt : option Z;
  uf_passwordProtection : bool;
  uf_isExpired : bool;
  uf_expiredReason : option ExpiredReason
}.

Definition user_file_view (now : Z) (id : Id) (f : FileDoc) : UserFileView :=
  let timeExpired := expired f now in
  let downloadLimitReached := limit_reached f in
  let expiredReason :=
    if downloadLimitReached then Some download_limit
    else if timeExpired then Some time_expired
    else None in
  mkUserFileView id (publicName f) (expiresAt f) (maxDownloads f)
    (downloads f) (lastDownloadAt f)
    (match passwordProtection f with Some _ => true | None => false end)
    (timeExpired || downloadLimitReached) expiredReason.

(** The documents of the [files] table in the order of their creation:
    ids are handed out in increasing order. *)
Definition files_in_order (db : Db) : list (Id * FileDoc) :=
  omap (fun id => (fun f => (id, f)) <$> files db !! id) (seq 0 (next_id db)).

Definition owned_by (user : string) (f : FileDoc) : bool :=
  match userId f with
  | Some owner => String.eqb owner user
  | None => false
  end.

Definition getUserFiles (db : Db) (authUser : option string) (now : Z)
  : list UserFileView :=
  match authUser with
  | None => []
  | Some user =>
      map (fun p => user_file_view now (fst p) (snd p))
        (List.filter (fun p => owned_by user (snd p)) (files_in_order db))
  end.

(** The attempts of one session on one file that count at [now] are at
    most [MAX_ATTEMPTS], for every file and session. *)
Definition attempts_bounded (db : Db) (now : Z) : Prop :=
  forall fileId sessionId,
    length (recent_attempts db fileId sessionId now) <= MAX_ATTEMPTS.

(** Requests whose clock never runs backwards, from [now] on. *)
Fixpoint clock_monotone (now : Z) (reqs : list TokenRequest) : Prop :=
  match reqs with
  | [] => True
  | r :: reqs' => (now <= req_now r)%Z /\ clock_monotone (req_now r) reqs'
  end.

Definition last_clock (now : Z) (reqs : list TokenRequest) : Z :=
  fold_left (fun _ r => req_now r) reqs now.

(** Every token document with the string [token] is used. *)
Definition spent (db : Db) (token : string) : Prop :=
  forall t, In t (downloadTokens db) -> tok_token t = token -> tok_used t = true.

(** A call that does not issue a token with the string [token]. *)
Definition issues_other (token : string) (c : Call) : Prop :=
  match c with
  | CallGetDownloadToken _ uuid _ _ => uuid <> token
  | _ => True
  end.

(** A call of the two-phase protocol: anything but the deprecated
    [downloadFile]. *)
Definition two_phase (c : Call) : Prop :=
  match c with
  | CallDownloadFile _ _ _ => False
  | _ => True
  end.

(** Every history entry of a file that still exists shows the file's
    download counter. *)
Definition history_in_sync (db : Db) : Prop :=
  forall h fileId file,
    In h (fileHistory db) -> hist_fileId h = Some fileId ->
    files db !! fileId = Some file ->
    hist_downloads h = Some (counter file).

(** What keeps the history in step: it is in step, every id in use is
    below the next one, and no two history entries are of the same file. *)
Definition history_invariant (db : Db) : Prop :=
  history_in_sync db /\
  (forall id file, files db !! id = Some file -> id < next_id db) /\
  (forall h f, In h (fileHistory db) -> hist_fileId h = Some f ->
               f < next_id db) /\
  NoDup (omap hist_fileId (fileHistory db)).

(** The file with this id was created, and is gone or has reached its
    download limit. *)
Definition exhausted (db : Db) (fileId : Id) : Prop :=
  fileId < next_id db /\
  forall file, files db !! fileId = Some file -> limit_reached file = true.



End ConvexQueries.

(** ** The download page: the countdown and the metadata effect *)

Module DownloadView.
Import DownloadPage.

(** A non-negative integer in a template literal: its decimal digits. *)
Definition Number_toString (n : Z) : jsstring :=
  lit (NilZero.string_of_int (Z.to_int n)).

(** [Number.MAX_SAFE_INTEGER]. *)
Definition MAX_SAFE_INTEGER : Z := 2 ^ 53 - 1.

(** [formatCountdown] on a whole number of milliseconds (the countdown is
    the difference of two millisecond timestamps).  The code computes on
    doubles.  Up to [MAX_SAFE_INTEGER] a double holds [ms] exactly, and the
    floor of each rounded quotient is that of the exact one: a quotient by
    1000, 60 or 24 that is not whole is at least 1/1000 away from the next
    whole number, and the rounding error of a quotient below [2 ^ 44] is at
    most [2 ^ -10]; and a whole number below [10 ^ 21] prints as its decimal
    digits.  Past [MAX_SAFE_INTEGER] the result is not modelled: [None]. *)
Definition formatCountdown (ms : Z) : option jsstring :=
  if (ms <=? 0)%Z then Some (lit "Expired")
  else if (MAX_SAFE_INTEGER <? ms)%Z then None
  else
    let seconds := (ms / 1000)%Z in
    let minutes := (seconds / 60)%Z in
    let hours := (minutes / 60)%Z in
    let days := (hours / 24)%Z in
    if (0 <? days)%Z
    then Some (Number_toString days ++ lit "d "
               ++ Number_toString (hours mod 24) ++ lit "h")
    else if (0 <? hours)%Z
    then Some (Number_toString hours ++ lit "h "
               ++ Number_toString (minutes mod 60) ++ lit "m")
    else if (0 <? minutes)%Z
    then Some (Number_toString minutes ++ lit "m "
               ++ Number_toString (seconds mod 60) ++ lit "s")
    else Some (Number_toString seconds ++ lit "s").

(** The effect that decrypts the metadata when the page has loaded and the
    key is in the URL: [setRealFilename(meta.name)], and
    [setRealFilename(null)] when the decryption rejects or [meta] has no
    properties to read. *)
Definition decryptMetadata_on_load `{Platform} (env : Env) (st : PageState)
  : PageState :=
  match location_hash env, fileData st with
  | _ :: _, Some fd =>
      match fm_encryptedMetadata fd with
      | [] => st
      | _ :: _ =>
          match decryptMetadata (fm_encryptedMetadata fd) (location_hash env) with
          | Ok meta =>
              setRealFilename
                (if json_truthy meta then json_name meta else None) st
          | Throw _ => setRealFilename None st
          end
      end
  | _, _ => st
  end.

(** The name a download is saved under:
    [realFilename || decryptedMeta?.name || fileData.publicName]. *)
Definition saved_name `{Platform} (metadata : json) (publicName : jsstring)
  : jsstring :=
  match truthy_js (json_name metadata) with
  | Some n => n
  | None => publicName
  end.

(** The file record the page gets for an upload, [size] being that of the
    file. *)
Definition record_of (up : EncryptedUpload) (size : Z) : FileMeta :=
  mkFileMeta (up_publicName up) size (up_encryptedMetadata up)
    (iv (up_file up))
    (option_map
       (fun w => mkPasswordProtection (wk_encryptedKey w) (wk_salt w)
                   (wk_iv w) (Some (wk_iterations w)))
       (up_passwordProtection up)).

(** A page that has just loaded its file record. *)
Definition loaded (fd : FileMeta) (typed : jsstring)
    (verification : option string) : PageState :=
  mkPageState (Some fd) idle EmptyString typed None None verification.

(** What a run of [executeDownload] can leave behind: [done] after
    exactly the token request, the fetch of the blob, the save of its
    decryption, the cache entry and the confirmation of the granted token;
    [error] with nothing confirmed and either the rate-limit message and
    nothing saved, or the logged exception's message, where the file was
    saved only if the exception is that of the cache entry's write, thrown
    right after the save; nothing else. *)
Definition run_outcome `{Platform} (env : Env) (fd : FileMeta)
    (out : PageState * list Effect) : Prop :=
  match status (fst out) with
  | done =>
      exists pre sid url token blob content name key,
        snd out = pre ++ [FetchDownloadToken sid; FetchBlob url;
                          SaveAs name content; CacheFileInfo name;
                          FetchConfirmDownload token] /\
        (pre = [] \/ exists t, pre = [FetchTurnstile t]) /\
        token_granted env url token /\
        blob_response env = Ok (true, blob) /\
        decrypt_payload env fd key blob = Ok content /\
        cache_response env = Ok tt
  | error =>
      ~ confirmed (snd out) /\
      (rateLimitMsg (fst out) <> None /\ ~ saved (snd out) \/
       exists e,
         errorMsg (fst out) = exn_message e /\
         In (ConsoleError e) (snd out) /\
         (~ saved (snd out) \/
          cache_response env = Throw e /\
          exists pre sid url token blob content name key,
            snd out = pre ++ [FetchDownloadToken sid; FetchBlob url;
                              SaveAs name content; ConsoleError e] /\
            (pre = [] \/ exists t, pre = [FetchTurnstile t]) /\
            token_granted env url token /\
            blob_response env = Ok (true, blob) /\
            decrypt_payload env fd key blob = Ok content))
  | _ => False
  end.

End DownloadView.

(** ** Concrete inputs for the further properties *)

Module ExtraScenario.
Import Convex ConvexQueries.

(** A password-protected upload of a signed-in user, limited to three
    downloads. *)
Definition wrapping : WrappedKey :=
  mkWrappedKey (lit "d3JhcHBlZA==") (lit "c2FsdHNhbHRzYWx0c2FsdA==")
    (lit "aXZpdml2aXZpdml2") 310000 2.

Definition protected_upload : SaveFileArgs :=
  mkSaveFileArgs 9 (lit "File-p4ssw0rd") (lit "bWV0YQ==") (lit "aXY=") None
    (Some (Number_of_Z 3)) (Some wrapping).

Definition protected_db : Db :=
  snd (saveFile empty_db (Some "alice"%string) protected_upload).

Definition protected_doc : FileDoc :=
  mkFileDoc 9 (Some "alice"%string) (lit "File-p4ssw0rd") (lit "bWV0YQ==")
    (lit "aXY=") None (Some (Number_of_Z 3)) (Some 0%Z) None (Some wrapping).

(** Five token requests of one session within five milliseconds. *)
Definition attempt (now : Z) (uuid : string) : TokenRequest :=
  mkTokenRequest now uuid 0 (Some "session-1"%string).

Definition five_attempts : list TokenRequest :=
  [attempt 1000 "a1"; attempt 1001 "a2"; attempt 1002 "a3";
   attempt 1003 "a4"; attempt 1004 "a5"]%string.

Definition rate_limited_db : Db :=
  request_tokens Scenario.getUrl five_attempts protected_db.

(** A token request and calls that come after its confirmation. *)
Definition later_calls : list Call :=
  [CallGetDownloadToken 2500 "t6" 0 None;
   CallConfirmDownload 2600 "t3"]%string.

(** An upload, a token request and its confirmation. *)
Definition three_calls : list Call :=
  [CallSaveFile (Some "alice"%string) protected_upload;
   CallGetDownloadToken 1000 "t" 0 None;
   CallConfirmDownload 2000 "t"]%string.

End ExtraScenario.

(* ===================================================================== *)
(** * Part II: lemmas and theorems                                        *)
(* ===================================================================== *)

(** ** Base64 *)

Section ListTriples.
Context {A : Type} (P : list A -> Prop).
Hypothesis P0 : P [].
Hypothesis P1 : forall a, P [a].
Hypothesis P2 : forall a b, P [a; b].
Hypothesis P3 : forall a b c l, P l -> P (a :: b :: c :: l).

(** Induction on a list, three elements at a time. *)
Lemma list_ind3 : forall l, P l.
Proof using P0 P1 P2 P3.
  assert (H : forall l, P l /\ (forall a, P (a :: l)) /\ (forall a b, P (a :: b :: l))).
  { induction l as [|x l (IH0 & IH1 & IH2)]; auto. }
  intros l. apply H.
Qed.
End ListTriples.

(** Linear arithmetic with division and remainder by constants. *)
Ltac divlia := zify; Z.to_euclidean_division_equations; lia.

Module Base64Facts.
Import Base64.

Lemma b64_index_char s : is_sextet s -> b64_index (b64_char s) = Some s.
Proof.
  unfold is_sextet. intros Hs.
  rewrite <- (N2Nat.id s). assert (Hn : (N.to_nat s < 64)%nat) by lia.
  clear Hs. revert Hn. generalize (N.to_nat s). intros n Hn.
  do 64 (destruct n as [|n]; [reflexivity|]). lia.
Qed.

Example btoa_Man : btoa (lit "Man") = Ok (lit "TWFu").
Proof. reflexivity. Qed.
Example btoa_Ma : btoa (lit "Ma") = Ok (lit "TWE=").
Proof. reflexivity. Qed.
Example btoa_M : btoa (lit "M") = Ok (lit "TQ==").
Proof. reflexivity. Qed.
Example atob_TQ : atob (lit "TQ==") = Ok (lit "M").
Proof. reflexivity. Qed.
Example atob_TQ_unpadded : atob (lit "TQ") = Ok (lit "M").
Proof. reflexivity. Qed.
Example atob_bad : atob (lit "T") = Throw (DOMException InvalidCharacterError).
Proof. reflexivity. Qed.

Lemma sextets_of_is_sextet bs :
  Forall is_octet bs -> Forall is_sextet (sextets_of bs).
Proof.
  unfold is_octet, is_sextet.
  induction bs as [|a|a b|a b c l IH] using list_ind3; intros H; simpl.
  - constructor.
  - inversion_clear H. repeat (apply Forall_cons; split); try apply Forall_nil; divlia.
  - inversion_clear H as [|? ? ? H']. inversion_clear H'.
    repeat (apply Forall_cons; split); try apply Forall_nil; divlia.
  - inversion_clear H as [|? ? ? H']. inversion_clear H' as [|? ? ? H''].
    inversion_clear H''. repeat (apply Forall_cons; split); auto; divlia.
Qed.

Lemma octets_of_sextets_of bs :
  Forall is_octet bs -> octets_of (sextets_of bs) = bs.
Proof.
  unfold is_octet.
  induction bs as [|a|a b|a b c l IH] using list_ind3; intros H; simpl.
  - reflexivity.
  - f_equal. divlia.
  - inversion_clear H as [|? ? ? H']. inversion_clear H'.
    f_equal; [divlia|]. f_equal. divlia.
  - inversion_clear H as [|? ? ? H']. inversion_clear H' as [|? ? ? H''].
    inversion_clear H''. rewrite IH by assumption.
    f_equal; [divlia|]. f_equal; [divlia|]. f_equal. divlia.
Qed.

(** A property of all sixty-four sextets follows from its check on each. *)
Lemma sextet_forall (f : N -> bool) :
  forallb f (map N.of_nat (seq 0 64)) = true ->
  forall s, is_sextet s -> f s = true.
Proof.
  intros Hall s Hs. rewrite forallb_forall in Hall. apply Hall.
  apply in_map_iff. exists (N.to_nat s). split; [apply N2Nat.id|].
  apply in_seq. unfold is_sextet in Hs. lia.
Qed.

Lemma b64_char_plain s : is_sextet s -> plain_char (b64_char s) = true.
Proof. revert s. apply sextet_forall. vm_compute. reflexivity. Qed.

Lemma indices_b64_char ss :
  Forall is_sextet ss -> indices (map b64_char ss) = Some ss.
Proof.
  induction 1 as [|s ss Hs _ IH]; simpl; [reflexivity|].
  rewrite b64_index_char by assumption. rewrite IH. reflexivity.
Qed.

Lemma length_sextets_of (bs : list N) :
  length (sextets_of bs) = ((4 * length bs + 2) / 3)%nat.
Proof.
  induction bs as [|a|a b|a b c l IH] using list_ind3;
    try reflexivity.
  cbn [sextets_of length]. rewrite IH. divlia.
Qed.

Lemma length_padding n : length (padding n) = ((3 - n mod 3) mod 3)%nat.
Proof. unfold padding. apply repeat_length. Qed.

Lemma length_encode_mod_4 bs : (length (encode bs) mod 4 = 0)%nat.
Proof.
  unfold encode. rewrite length_app, length_map, length_sextets_of, length_padding.
  divlia.
Qed.

Lemma filter_plain body k :
  Forall (fun c => plain_char c = true) body ->
  List.filter (fun c => negb (is_ascii_whitespace c)) (body ++ repeat pad k)
  = body ++ repeat pad k.
Proof.
  intros Hb. induction Hb as [|c body Hc _ IH]; simpl.
  - induction k as [|k IH]; simpl; [reflexivity|]. f_equal. exact IH.
  - unfold plain_char in Hc.
    destruct (is_ascii_whitespace c); simpl in *; [discriminate|].
    f_equal. exact IH.
Qed.

Lemma plain_not_pad c : plain_char c = true -> N.eqb c pad = false.
Proof.
  unfold plain_char. destruct (N.eqb c pad); [|reflexivity].
  rewrite andb_false_r. discriminate.
Qed.

Lemma strip_padding_encoded body k :
  Forall (fun c => plain_char c = true) body -> (k <= 2)%nat ->
  strip_padding (body ++ repeat pad k) = body.
Proof.
  intros Hb Hk. unfold strip_padding. rewrite rev_app_distr.
  assert (Hlast : forall x, In x (rev body) -> N.eqb x pad = false).
  { intros x Hx. apply plain_not_pad.
    rewrite Forall_forall in Hb. apply Hb.
    apply list_elem_of_In, in_rev. exact Hx. }
  destruct k as [|[|[|k]]]; [| | |lia]; simpl.
  - rewrite app_nil_r.
    destruct (rev body) as [|p1 [|p2 r]] eqn:Hr; try reflexivity;
      rewrite (Hlast p1 (or_introl eq_refl)); reflexivity.
  - destruct (rev body) as [|p2 r] eqn:Hr.
    + apply (f_equal (@rev N)) in Hr. rewrite rev_involutive in Hr.
      subst body. reflexivity.
    + simpl. rewrite ?N.eqb_refl, (Hlast p2 (or_introl eq_refl)).
      change (rev (p2 :: r) = body). rewrite <- Hr. apply rev_involutive.
  - rewrite ?N.eqb_refl. apply rev_involutive.
Qed.

Lemma padding_le_2 n : (length (padding n) <= 2)%nat.
Proof. rewrite length_padding. divlia. Qed.

Lemma sextets_of_plain bs :
  Forall is_octet bs ->
  Forall (fun c => plain_char c = true) (map b64_char (sextets_of bs)).
Proof.
  intros Hb. apply Forall_map.
  eapply Forall_impl; [apply sextets_of_is_sextet; exact Hb|].
  intros s Hs. apply b64_char_plain. exact Hs.
Qed.

(** Decoding what [encode] produced gives the octets back. *)
Theorem decode_encode bs : Forall is_octet bs -> decode (encode bs) = Some bs.
Proof.
  intros Hb. unfold decode.
  pose proof (sextets_of_plain bs Hb) as Hplain.
  assert (Hfilter : List.filter (fun c => negb (is_ascii_whitespace c)) (encode bs)
                    = encode bs)
    by (apply filter_plain; exact Hplain).
  assert (Hstrip : strip_padding (encode bs) = map b64_char (sextets_of bs)).
  { apply strip_padding_encoded; [exact Hplain|].
    pose proof (padding_le_2 (length bs)) as Hp.
    rewrite length_padding in Hp. exact Hp. }
  rewrite Hfilter, length_encode_mod_4, Nat.eqb_refl, Hstrip.
  rewrite length_map, length_sextets_of.
  destruct (Nat.eqb _ 1) eqn:E.
  { apply Nat.eqb_eq in E. exfalso. divlia. }
  rewrite indices_b64_char by (apply sextets_of_is_sextet; exact Hb).
  simpl. rewrite octets_of_sextets_of by exact Hb. reflexivity.
Qed.
End Base64Facts.

(** ** Binary strings *)

Lemma fromCharCode_is_octet bs : Forall is_octet (String_fromCharCode bs).
Proof.
  unfold String_fromCharCode. apply Forall_map, Forall_forall.
  intros a _. apply N_ascii_bounded.
Qed.

Lemma Uint8Array_from_fromCharCode bs :
  Uint8Array_from (String_fromCharCode bs) = bs.
Proof.
  unfold Uint8Array_from, String_fromCharCode. rewrite map_map.
  induction bs as [|a bs IH]; simpl; [reflexivity|].
  rewrite ascii_N_embedding, IH. reflexivity.
Qed.

Lemma length_fromCharCode bs : length (String_fromCharCode bs) = length bs.
Proof. apply length_map. Qed.

Lemma btoa_octets s : Forall is_octet s -> btoa s = Ok (Base64.encode s).
Proof.
  intros Hs. unfold btoa.
  replace (forallb _ s) with true; [reflexivity|].
  symmetry. apply forallb_forall. rewrite Forall_forall in Hs.
  intros c Hc. apply N.ltb_lt, Hs, list_elem_of_In, Hc.
Qed.

Lemma atob_encode s : Forall is_octet s -> atob (Base64.encode s) = Ok s.
Proof.
  intros Hs. unfold atob. rewrite Base64Facts.decode_encode by exact Hs.
  reflexivity.
Qed.

Lemma btoa_bytes bs :
  btoa (String_fromCharCode bs) = Ok (Base64.encode (String_fromCharCode bs)).
Proof. apply btoa_octets, fromCharCode_is_octet. Qed.

(** The bytes behind a Base64 string that [btoa] made of bytes. *)
Lemma atob_bytes bs :
  rbind (atob (Base64.encode (String_fromCharCode bs)))
        (fun d => Ok (Uint8Array_from d)) = Ok bs.
Proof.
  rewrite atob_encode by apply fromCharCode_is_octet. simpl.
  rewrite Uint8Array_from_fromCharCode. reflexivity.
Qed.

(** Different bytes have different Base64 strings. *)
Lemma encode_bytes_injective bs1 bs2 :
  Base64.encode (String_fromCharCode bs1) = Base64.encode (String_fromCharCode bs2) ->
  bs1 = bs2.
Proof.
  intros E. pose proof (atob_bytes bs1) as H1. rewrite E, atob_bytes in H1.
  congruence.
Qed.

(** ** The key transport codec *)

Section Transport.
Import Base64 Base64Facts.

Lemma pad_loop_spec s :
  pad_to_multiple_of_4 s = s ++ repeat pad ((4 - length s mod 4) mod 4).
Proof.
  unfold pad_to_multiple_of_4.
  assert (Hm : (length s mod 4 < 4)%nat) by (apply Nat.mod_upper_bound; lia).
  unfold pad_loop.
  destruct (Nat.eqb (length s mod 4) 0) eqn:E0.
  { apply Nat.eqb_eq in E0. rewrite E0. simpl. symmetry. apply app_nil_r. }
  rewrite !length_app. cbn [length].
  destruct (Nat.eqb ((length s + 1) mod 4) 0) eqn:E1.
  { apply Nat.eqb_eq in E1. apply Nat.eqb_neq in E0.
    replace ((4 - length s mod 4) mod 4)%nat with 1%nat by divlia.
    reflexivity. }
  destruct (Nat.eqb ((length s + 1 + 1) mod 4) 0) eqn:E2.
  { apply Nat.eqb_eq in E2. apply Nat.eqb_neq in E0, E1.
    replace ((4 - length s mod 4) mod 4)%nat with 2%nat by divlia.
    rewrite <- app_assoc. reflexivity. }
  apply Nat.eqb_neq in E0, E1, E2.
  replace ((4 - length s mod 4) mod 4)%nat with 3%nat by divlia.
  rewrite <- !app_assoc. reflexivity.
Qed.

(** The loop stops with its condition false: three rounds are enough. *)
Lemma pad_loop_terminates s : (length (pad_to_multiple_of_4 s) mod 4 = 0)%nat.
Proof. rewrite pad_loop_spec, length_app, repeat_length. divlia. Qed.

Lemma drop_while_pad_repeat k s :
  drop_while (fun x => N.eqb x (chr "=")) (repeat pad k ++ s)
  = drop_while (fun x => N.eqb x (chr "=")) s.
Proof. induction k as [|k IH]; simpl; [reflexivity|exact IH]. Qed.

Lemma strip_trailing_equals_padded body k :
  Forall (fun c => N.eqb c pad = false) body ->
  strip_trailing_equals (body ++ repeat pad k) = body.
Proof.
  intros Hb. unfold strip_trailing_equals.
  rewrite rev_app_distr, rev_repeat, drop_while_pad_repeat.
  destruct (rev body) as [|x r] eqn:Hr.
  - apply (f_equal (@rev N)) in Hr. rewrite rev_involutive in Hr.
    subst body. reflexivity.
  - cbn [drop_while]. change (chr "=") with pad.
    replace (N.eqb x pad) with false.
    + rewrite <- Hr. apply rev_involutive.
    + symmetry. rewrite Forall_forall in Hb. apply Hb.
      apply list_elem_of_In, in_rev. rewrite Hr. left. reflexivity.
Qed.

Lemma from_to_safe_char c :
  plain_char c = true ->
  from_safe_char (to_safe_char c) = c /\ N.eqb (to_safe_char c) pad = false.
Proof.
  unfold plain_char, to_safe_char, from_safe_char. intros Hc.
  repeat (apply andb_prop in Hc; destruct Hc as [Hc ?]).
  repeat match goal with
         | H : negb _ = true |- _ => apply negb_true_iff in H
         end.
  destruct (N.eqb c (chr "+")) eqn:E1.
  { apply N.eqb_eq in E1. subst c. vm_compute. auto. }
  destruct (N.eqb c (chr "/")) eqn:E2.
  { apply N.eqb_eq in E2. subst c. vm_compute. auto. }
  cbv zeta. rewrite H1, H0. auto.
Qed.

Lemma replace_to_safe s :
  replace_all "/" "_" (replace_all "+" "-" s) = map to_safe_char s.
Proof. unfold replace_all. rewrite map_map. reflexivity. Qed.

Lemma replace_from_safe s :
  replace_all "_" "/" (replace_all "-" "+" s) = map from_safe_char s.
Proof. unfold replace_all. rewrite map_map. reflexivity. Qed.

Lemma to_safe_char_pad : to_safe_char pad = pad.
Proof. reflexivity. Qed.

(** What [toUrlSafe] makes of a Base64 string: the sextet characters with
    [+] and [/] remapped, the padding gone. *)
Lemma toUrlSafe_encode bs :
  Forall is_octet bs ->
  toUrlSafe (encode bs) = map to_safe_char (map b64_char (sextets_of bs)).
Proof.
  intros Hb. unfold toUrlSafe. rewrite replace_to_safe.
  unfold encode, padding. rewrite map_app.
  replace (map to_safe_char (repeat pad _)) with
    (repeat pad ((3 - length bs mod 3) mod 3)).
  2:{ generalize ((3 - length bs mod 3) mod 3)%nat. intros n.
      induction n as [|n IH]; simpl; [reflexivity|].
      rewrite <- IH. reflexivity. }
  apply strip_trailing_equals_padded.
  apply Forall_map. eapply Forall_impl; [apply sextets_of_plain, Hb|].
  intros c Hc. apply from_to_safe_char, Hc.
Qed.

(** Key transport: the padded standard Base64 text is recovered exactly
    from its URL-safe, unpadded form. *)
Theorem fromUrlSafe_toUrlSafe bs :
  Forall is_octet bs -> fromUrlSafe (toUrlSafe (encode bs)) = encode bs.
Proof.
  intros Hb. rewrite toUrlSafe_encode by exact Hb.
  unfold fromUrlSafe. rewrite replace_from_safe, pad_loop_spec.
  assert (Hback : map from_safe_char (map to_safe_char (map b64_char (sextets_of bs)))
                  = map b64_char (sextets_of bs)).
  { pose proof (sextets_of_plain bs Hb) as Hp.
    induction Hp as [|c l Hc _ IH]; simpl; [reflexivity|].
    rewrite IH. f_equal. apply from_to_safe_char, Hc. }
  rewrite Hback. unfold encode, padding. f_equal. f_equal.
  rewrite length_map, length_sextets_of. divlia.
Qed.

(** The URL-safe form has none of [+], [/] and [=]. *)
Lemma toUrlSafe_alphabet bs c :
  Forall is_octet bs -> In c (toUrlSafe (encode bs)) ->
  c <> chr "+" /\ c <> chr "/" /\ c <> chr "=".
Proof.
  intros Hb Hc. rewrite toUrlSafe_encode in Hc by exact Hb.
  apply in_map_iff in Hc. destruct Hc as (x & <- & Hx).
  apply in_map_iff in Hx. destruct Hx as (s & <- & Hs).
  assert (Hsx : is_sextet s).
  { pose proof (sextets_of_is_sextet bs Hb) as Hall.
    rewrite Forall_forall in Hall. apply Hall, list_elem_of_In, Hs. }
  revert Hsx. clear. intros Hsx.
  assert (Hchk : (fun s => let c := to_safe_char (b64_char s) in
                   negb (N.eqb c (chr "+")) && negb (N.eqb c (chr "/"))
                   && negb (N.eqb c (chr "="))) s = true).
  { revert s Hsx. apply sextet_forall. vm_compute. reflexivity. }
  cbv beta zeta in Hchk.
  repeat (apply andb_prop in Hchk; destruct Hchk as [Hchk ?]).
  repeat match goal with
         | H : negb _ = true |- _ =>
             apply negb_true_iff in H; apply N.eqb_neq in H
         end.
  auto.
Qed.
End Transport.

(** ** Web Crypto wrappers *)

Section WebCryptoFacts.
Context `{P : Platform}.

Lemma has_usage_In u us : In u us -> has_usage u us = true.
Proof.
  intros Hu. unfold has_usage. apply existsb_exists.
  exists u. split; [exact Hu|]. destruct u; reflexivity.
Qed.

Lemma subtle_encrypt_ok K iv p :
  key_algorithm K = AES_GCM -> In usage_encrypt (key_usages K) ->
  subtle_encrypt iv K p = Ok (aes_gcm_encrypt (key_material K) iv p).
Proof.
  intros Ha Hu. unfold subtle_encrypt.
  rewrite Ha, (has_usage_In _ _ Hu). reflexivity.
Qed.

Lemma subtle_decrypt_ok K iv c :
  key_algorithm K = AES_GCM -> In usage_decrypt (key_usages K) ->
  subtle_decrypt iv K c =
  match aes_gcm_decrypt (key_material K) iv c with
  | Some plaintext => Ok plaintext
  | None => Throw (DOMException OperationError)
  end.
Proof.
  intros Ha Hu. unfold subtle_decrypt.
  rewrite Ha, (has_usage_In _ _ Hu). reflexivity.
Qed.

(** An encryption that succeeded is the primitive's output. *)
Lemma subtle_encrypt_inv K iv p c :
  subtle_encrypt iv K p = Ok c -> c = aes_gcm_encrypt (key_material K) iv p.
Proof.
  unfold subtle_encrypt.
  destruct (negb _); [discriminate|]. destruct (negb _); [discriminate|].
  congruence.
Qed.

Lemma aes_key_length_ok_iff data :
  aes_key_length_ok data = true <->
  (length data = 16 \/ length data = 24 \/ length data = 32).
Proof.
  unfold aes_key_length_ok. rewrite !orb_true_iff, !Nat.eqb_eq. tauto.
Qed.

(** A key with the material of [K] and the [decrypt] usage decrypts what
    [K] encrypted. *)
Lemma same_material_decrypts K K' :
  aead_correct P ->
  key_algorithm K' = AES_GCM -> In usage_decrypt (key_usages K') ->
  key_material K' = key_material K ->
  decrypts_what_encrypted K' K.
Proof.
  intros Hc Ha Hu Hm iv p c Henc.
  apply subtle_encrypt_inv in Henc. subst c.
  rewrite subtle_decrypt_ok by assumption. rewrite Hm, Hc. reflexivity.
Qed.

Lemma generateKey_spec e :
  generateKey e =
  (Ok (mkCryptoKey AES_GCM true [usage_encrypt; usage_decrypt] (drawn e 32)),
   advance e 32).
Proof. reflexivity. Qed.

Lemma length_drawn e n : length (drawn e n) = n.
Proof. unfold drawn. rewrite length_map. apply length_seq. Qed.

Lemma freshly_generated_file_key K : freshly_generated K -> file_key K.
Proof.
  intros [e He]. rewrite generateKey_spec in He. simpl in He.
  injection He as <-. unfold file_key.
  cbn [key_algorithm key_extractable key_usages key_material].
  rewrite length_drawn. cbn [In]. intuition.
Qed.
End WebCryptoFacts.

(** ** The cipher module *)

Section CryptoFacts.
Context `{P : Platform}.

Ltac run_rand :=
  unfold rand_bind, rand_lift, rand_ret, getRandomValues; cbv beta iota.

(** The transport string of an extractable AES key. *)
Lemma encodeKeyForTransport_spec K :
  jwk_text_latin1 P ->
  key_algorithm K = AES_GCM -> key_extractable K = true ->
  encodeKeyForTransport K
  = Ok (toUrlSafe (Base64.encode (JSON_stringify (jwk_export K)))).
Proof.
  intros Hl Ha Hx. unfold encodeKeyForTransport, subtle_exportKey_jwk.
  rewrite Hx, Ha. cbn [negb rbind].
  rewrite btoa_octets by apply Hl. reflexivity.
Qed.

(** What [encryptFile] computes when the key allows it. *)
Lemma encryptFile_spec file K e :
  jwk_text_latin1 P -> file_key K ->
  encryptFile file K e =
  (Ok (mkEncryptedFile
         (aes_gcm_encrypt (key_material K) (drawn e 12) file)
         (Base64.encode (String_fromCharCode (drawn e 12)))
         (drawn e 12)
         (toUrlSafe (Base64.encode (JSON_stringify (jwk_export K))))),
   advance e 12).
Proof.
  intros Hl (Ha & Hx & Hue & Hud & Hlen).
  unfold encryptFile, IV_LENGTH. run_rand.
  rewrite subtle_encrypt_ok by assumption.
  rewrite (encodeKeyForTransport_spec K Hl Ha Hx).
  rewrite btoa_bytes. reflexivity.
Qed.

(** What [encryptMetadata] computes when the key allows it. *)
Lemma encryptMetadata_spec M K e :
  key_algorithm K = AES_GCM -> In usage_encrypt (key_usages K) ->
  encryptMetadata M K e =
  (Ok (Base64.encode
         (String_fromCharCode
            (drawn e 12 ++
             aes_gcm_encrypt (key_material K) (drawn e 12)
               (TextEncoder_encode (JSON_stringify M))))),
   advance e 12).
Proof.
  intros Ha Hue. unfold encryptMetadata, IV_LENGTH. run_rand.
  rewrite subtle_encrypt_ok by assumption. rewrite btoa_bytes. reflexivity.
Qed.

(** Only a key that may encrypt gets a result out of [encryptMetadata]. *)
Lemma encryptMetadata_inv M K e s e' :
  encryptMetadata M K e = (Ok s, e') ->
  s = Base64.encode
        (String_fromCharCode
           (drawn e 12 ++
            aes_gcm_encrypt (key_material K) (drawn e 12)
              (TextEncoder_encode (JSON_stringify M))))
  /\ e' = advance e 12.
Proof.
  unfold encryptMetadata, IV_LENGTH. run_rand.
  destruct (subtle_encrypt _ K _) as [c|x] eqn:Henc; [|discriminate].
  apply subtle_encrypt_inv in Henc. subst c.
  rewrite btoa_bytes. intros [= <- <-]. split; reflexivity.
Qed.

(** The key string of [encryptFile] imports as a decryption key with the
    material of the key it was made from. *)
Lemma decodeKeyFromTransport_transport K :
  jwk_text_latin1 P -> json_roundtrip P -> jwk_roundtrip P -> file_key K ->
  decodeKeyFromTransport (toUrlSafe (Base64.encode (JSON_stringify (jwk_export K))))
  = Ok (mkCryptoKey AES_GCM true [usage_decrypt] (key_material K)).
Proof.
  intros Hl Hj Hw (Ha & Hx & Hue & Hud & Hlen).
  unfold decodeKeyFromTransport.
  rewrite fromUrlSafe_toUrlSafe by apply Hl.
  rewrite atob_encode by apply Hl. cbn [rbind].
  unfold JSON_parse_or_throw. rewrite Hj. cbn [rbind].
  unfold subtle_importKey_jwk. apply Hw; try assumption.
  - apply aes_key_length_ok_iff, Hlen.
  - discriminate.
  - intros u [<-|[]]. exact Hud.
Qed.

(** The two metadata decryptions split the decoded envelope after its
    first twelve bytes. *)
Lemma decryptMetadataWithKey_split combined K :
  decryptMetadataWithKey (Base64.encode (String_fromCharCode combined)) K =
  rbind (subtle_decrypt (firstn 12 combined) K (skipn 12 combined))
        (fun decrypted => JSON_parse_or_throw (TextDecoder_decode decrypted)).
Proof.
  unfold decryptMetadataWithKey, IV_LENGTH.
  rewrite atob_encode by apply fromCharCode_is_octet. cbn [rbind].
  rewrite Uint8Array_from_fromCharCode. reflexivity.
Qed.

Lemma decryptMetadata_split combined keyString :
  decryptMetadata (Base64.encode (String_fromCharCode combined)) keyString =
  rbind (decodeKeyFromTransport keyString) (fun key =>
  rbind (subtle_decrypt (firstn 12 combined) key (skipn 12 combined))
        (fun decrypted => JSON_parse_or_throw (TextDecoder_decode decrypted))).
Proof.
  unfold decryptMetadata, IV_LENGTH.
  destruct (decodeKeyFromTransport keyString) as [key|x]; [|reflexivity].
  cbn [rbind].
  rewrite atob_encode by apply fromCharCode_is_octet. cbn [rbind].
  rewrite Uint8Array_from_fromCharCode. reflexivity.
Qed.

Lemma split_iv_ciphertext (iv ct : bytes) :
  length iv = 12 -> firstn 12 (iv ++ ct) = iv /\ skipn 12 (iv ++ ct) = ct.
Proof.
  intros Hl. split.
  - rewrite <- Hl. rewrite firstn_app, Nat.sub_diag, firstn_all. simpl.
    apply app_nil_r.
  - rewrite <- Hl. rewrite skipn_app, Nat.sub_diag, skipn_all. reflexivity.
Qed.

(** Decrypting a metadata envelope with a key of the same material. *)
Lemma decrypt_envelope M iv K K' :
  aead_correct P -> utf8_roundtrip P -> json_roundtrip P ->
  length iv = 12 ->
  key_algorithm K' = AES_GCM -> In usage_decrypt (key_usages K') ->
  key_material K' = key_material K ->
  rbind (subtle_decrypt iv K'
           (aes_gcm_encrypt (key_material K) iv
              (TextEncoder_encode (JSON_stringify M))))
        (fun decrypted => JSON_parse_or_throw (TextDecoder_decode decrypted))
  = Ok M.
Proof.
  intros Hc Hu Hj Hl Ha Hud Hm.
  rewrite subtle_decrypt_ok by assumption. rewrite Hm, Hc. cbn [rbind].
  unfold JSON_parse_or_throw. rewrite Hu, Hj. reflexivity.
Qed.

End CryptoFacts.

(** ** Round trips and the wire format *)

Section CipherTheorems.
Context `{P : Platform}.

(** C1 (payload round trip through key transport).  For every plaintext
    and every freshly generated key, [encryptFile] succeeds, and
    [decryptFile] applied to its ciphertext, its URL-safe key string and its
    Base64 IV string returns the plaintext; the key imported from the key
    string decrypts whatever the generated key encrypted. *)
Theorem C1_payload_round_trip :
  aead_correct P -> jwk_text_latin1 P -> json_roundtrip P -> jwk_roundtrip P ->
  forall (file : bytes) (K : CryptoKey) (e : Entropy),
    freshly_generated K ->
    exists r e',
      encryptFile file K e = (Ok r, e') /\
      decryptFile (encryptedBlob r) (keyString r) (iv r) = Ok file /\
      encodeKeyForTransport K = Ok (keyString r) /\
      exists K',
        decodeKeyFromTransport (keyString r) = Ok K' /\ decrypts_what_encrypted K' K.
Proof.
  intros Hc Hl Hj Hw file K e HK.
  apply freshly_generated_file_key in HK.
  eexists _, _. split; [apply encryptFile_spec; assumption|].
  cbn [encryptedBlob keyString iv].
  pose proof (decodeKeyFromTransport_transport K Hl Hj Hw HK) as Himp.
  split; [|split; [apply encodeKeyForTransport_spec; solve [assumption|apply HK]|]].
  - unfold decryptFile. rewrite Himp. cbn [rbind].
    rewrite atob_encode by apply fromCharCode_is_octet. cbn [rbind].
    rewrite Uint8Array_from_fromCharCode.
    rewrite subtle_decrypt_ok by (cbn; auto).
    cbn [key_material]. rewrite Hc. reflexivity.
  - eexists. split; [exact Himp|].
    apply same_material_decrypts; cbn; auto.
Qed.

(** C2 (metadata round trip).  For every JSON value [M] and every file
    key [K], [encryptMetadata] succeeds and both [decryptMetadataWithKey]
    with [K] and [decryptMetadata] with the key string that [encryptFile]
    made of [K] return [M]. *)
Theorem C2_metadata_round_trip :
  aead_correct P -> utf8_roundtrip P -> json_roundtrip P ->
  jwk_text_latin1 P -> jwk_roundtrip P ->
  forall (M : json) (K : CryptoKey) (e : Entropy),
    file_key K ->
    exists s e',
      encryptMetadata M K e = (Ok s, e') /\
      decryptMetadataWithKey s K = Ok M /\
      forall file e0 r e1,
        encryptFile file K e0 = (Ok r, e1) ->
        decryptMetadata s (keyString r) = Ok M.
Proof.
  intros Hc Hu Hj Hl Hw M K e HK.
  pose proof HK as (Ha & Hx & Hue & Hud & Hlen).
  eexists _, _. split; [apply encryptMetadata_spec; assumption|].
  pose proof (split_iv_ciphertext (drawn e 12)
                (aes_gcm_encrypt (key_material K) (drawn e 12)
                   (TextEncoder_encode (JSON_stringify M)))
                (length_drawn e 12)) as [Hiv Hct].
  split.
  - rewrite decryptMetadataWithKey_split, Hiv, Hct.
    apply decrypt_envelope; auto using length_drawn.
  - intros file e0 r e1 Hr.
    rewrite (encryptFile_spec file K e0 Hl HK) in Hr.
    injection Hr as <- _. cbn [keyString].
    rewrite decryptMetadata_split.
    rewrite (decodeKeyFromTransport_transport K Hl Hj Hw HK). cbn [rbind].
    rewrite Hiv, Hct.
    apply decrypt_envelope; cbn; auto using length_drawn.
Qed.

(** C8 (metadata envelope wire format).  The string [encryptMetadata]
    returns is the Base64 encoding of a 12-byte IV followed by the AES-GCM
    output, which is the serialized metadata's length plus a 16-byte tag;
    [decryptMetadataWithKey] and [decryptMetadata] hand the first twelve
    bytes of the decoded input to the cipher as the IV and the rest as the
    ciphertext, so for an envelope [Base64(IV ++ ciphertext)] exactly the IV
    and the ciphertext it was made of. *)
Theorem C8_metadata_wire_format :
  aead_tag_16 P ->
  (forall M K e s e',
      encryptMetadata M K e = (Ok s, e') ->
      exists nonce ct,
        s = Base64.encode (String_fromCharCode (nonce ++ ct)) /\
        length nonce = 12 /\
        ct = aes_gcm_encrypt (key_material K) nonce
               (TextEncoder_encode (JSON_stringify M)) /\
        length ct = length (TextEncoder_encode (JSON_stringify M)) + 16) /\
  (forall combined K,
      decryptMetadataWithKey (Base64.encode (String_fromCharCode combined)) K =
      rbind (subtle_decrypt (firstn 12 combined) K (skipn 12 combined))
        (fun d => JSON_parse_or_throw (TextDecoder_decode d))) /\
  (forall combined keyString,
      decryptMetadata (Base64.encode (String_fromCharCode combined)) keyString =
      rbind (decodeKeyFromTransport keyString) (fun key =>
      rbind (subtle_decrypt (firstn 12 combined) key (skipn 12 combined))
        (fun d => JSON_parse_or_throw (TextDecoder_decode d)))) /\
  (forall nonce ct : bytes, length nonce = 12 ->
      firstn 12 (nonce ++ ct) = nonce /\ skipn 12 (nonce ++ ct) = ct) /\
  (forall s K decoded,
      atob s = Ok decoded ->
      decryptMetadataWithKey s K =
      rbind (subtle_decrypt (firstn 12 (Uint8Array_from decoded)) K
               (skipn 12 (Uint8Array_from decoded)))
        (fun d => JSON_parse_or_throw (TextDecoder_decode d))) /\
  (forall s keyString key decoded,
      decodeKeyFromTransport keyString = Ok key ->
      atob s = Ok decoded ->
      decryptMetadata s keyString =
      rbind (subtle_decrypt (firstn 12 (Uint8Array_from decoded)) key
               (skipn 12 (Uint8Array_from decoded)))
        (fun d => JSON_parse_or_throw (TextDecoder_decode d))).
Proof.
  intros Ht.
  split; [|split; [|split; [|split; [|split]]]];
    [| | | | intros s K decoded Hd; unfold decryptMetadataWithKey;
             rewrite Hd; reflexivity
           | intros s keyString key decoded Hk Hd; unfold decryptMetadata;
             rewrite Hk, Hd; reflexivity ].
  all: repeat split.
  - intros M K e s e' Hs. apply encryptMetadata_inv in Hs as [-> _].
    eexists _, _. split; [reflexivity|].
    split; [apply length_drawn|]. split; [reflexivity|]. apply Ht.
  - apply decryptMetadataWithKey_split.
  - apply decryptMetadata_split.
  - apply split_iv_ciphertext; assumption.
  - apply split_iv_ciphertext; assumption.
Qed.

End CipherTheorems.

(** ** Password key wrapping *)

Section PasswordFacts.
Context `{P : Platform}.

Ltac run_rand :=
  unfold rand_bind, rand_lift, rand_ret, getRandomValues; cbv beta iota.

Lemma derivePasswordKey_Simple_ok password salt n :
  valid_iterations n ->
  derivePasswordKey_Simple password salt n =
  Ok (mkCryptoKey AES_GCM false [usage_encrypt; usage_decrypt]
        (pbkdf2_hmac_sha256 (TextEncoder_encode password) salt n)).
Proof.
  intros [Hlo Hhi]. unfold derivePasswordKey_Simple.
  cbn [subtle_importKey_raw_pbkdf2 forallb pbkdf2_usage_ok andb negb rbind].
  unfold subtle_deriveKey_pbkdf2.
  replace (n <? 0)%Z with false by (symmetry; apply Z.ltb_ge; lia).
  replace (4294967295 <? n)%Z with false by (symmetry; apply Z.ltb_ge; lia).
  replace (n =? 0)%Z with false by (symmetry; apply Z.eqb_neq; lia).
  reflexivity.
Qed.

Lemma valid_CURRENT_ITERATIONS : valid_iterations CURRENT_ITERATIONS.
Proof. unfold valid_iterations, CURRENT_ITERATIONS. lia. Qed.

Lemma valid_LEGACY_ITERATIONS : valid_iterations LEGACY_ITERATIONS.
Proof. unfold valid_iterations, LEGACY_ITERATIONS. lia. Qed.

(** What [wrapKeyWithPassword] computes for an extractable AES key. *)
Lemma wrapKeyWithPassword_spec K W e :
  key_algorithm K = AES_GCM -> key_extractable K = true ->
  let salt := drawn e 16 in
  let nonce := drawn (advance e 16) 12 in
  wrapKeyWithPassword K W e =
  (Ok (mkWrappedKey
         (Base64.encode
            (String_fromCharCode
               (aes_gcm_encrypt
                  (pbkdf2_hmac_sha256 (TextEncoder_encode W) salt
                     CURRENT_ITERATIONS)
                  nonce (key_material K))))
         (Base64.encode (String_fromCharCode salt))
         (Base64.encode (String_fromCharCode nonce))
         CURRENT_ITERATIONS 2),
   advance (advance e 16) 12).
Proof.
  intros Ha Hx salt nonce. unfold wrapKeyWithPassword. run_rand.
  rewrite btoa_bytes.
  rewrite derivePasswordKey_Simple_ok by apply valid_CURRENT_ITERATIONS.
  unfold subtle_exportKey_raw. rewrite Hx, Ha. cbn [negb].
  rewrite subtle_encrypt_ok by (cbn; auto).
  rewrite !btoa_bytes. reflexivity.
Qed.

(** A wrapping that was returned came from an extractable AES key. *)
Lemma wrapKeyWithPassword_inv K W e w e' :
  wrapKeyWithPassword K W e = (Ok w, e') ->
  key_algorithm K = AES_GCM /\ key_extractable K = true /\
  w = mkWrappedKey
        (Base64.encode
           (String_fromCharCode
              (aes_gcm_encrypt
                 (pbkdf2_hmac_sha256 (TextEncoder_encode W) (drawn e 16)
                    CURRENT_ITERATIONS)
                 (drawn (advance e 16) 12) (key_material K))))
        (Base64.encode (String_fromCharCode (drawn e 16)))
        (Base64.encode (String_fromCharCode (drawn (advance e 16) 12)))
        CURRENT_ITERATIONS 2.
Proof.
  intros Hw.
  assert (Hk : key_algorithm K = AES_GCM /\ key_extractable K = true).
  { revert Hw. unfold wrapKeyWithPassword. run_rand. rewrite btoa_bytes.
    rewrite derivePasswordKey_Simple_ok by apply valid_CURRENT_ITERATIONS.
    unfold subtle_exportKey_raw.
    destruct (key_extractable K); cbn [negb]; [|discriminate].
    destruct (key_algorithm K); [auto|discriminate]. }
  destruct Hk as [Ha Hx]. split; [exact Ha|]. split; [exact Hx|].
  pose proof (wrapKeyWithPassword_spec K W e Ha Hx) as Hs. cbv zeta in Hs.
  congruence.
Qed.

(** What [unwrapKeyWithPassword] computes on well-formed Base64 fields. *)
Lemma unwrapKeyWithPassword_spec (ek salt nonce : bytes) W its :
  valid_iterations (number_or its LEGACY_ITERATIONS) ->
  unwrapKeyWithPassword (Base64.encode (String_fromCharCode ek)) W
    (Base64.encode (String_fromCharCode salt))
    (Base64.encode (String_fromCharCode nonce)) its =
  match aes_gcm_decrypt
          (pbkdf2_hmac_sha256 (TextEncoder_encode W) salt
             (number_or its LEGACY_ITERATIONS)) nonce ek with
  | Some raw =>
      if aes_key_length_ok raw
      then Ok (mkCryptoKey AES_GCM true [usage_encrypt; usage_decrypt] raw)
      else Throw (Error "Incorrect Password")
  | None => Throw (Error "Incorrect Password")
  end.
Proof.
  intros Hn. unfold unwrapKeyWithPassword.
  rewrite !atob_encode by apply fromCharCode_is_octet. cbn [rbind].
  rewrite !Uint8Array_from_fromCharCode.
  rewrite derivePasswordKey_Simple_ok by exact Hn. cbn [rbind].
  rewrite subtle_decrypt_ok by (cbn; auto). cbn [key_material].
  destruct (aes_gcm_decrypt _ nonce ek) as [raw|]; [|reflexivity].
  cbn [rbind]. unfold subtle_importKey_raw_aes.
  cbn [forallb aes_usage_ok andb negb].
  destruct (aes_key_length_ok raw); reflexivity.
Qed.

Lemma number_or_some n d : n <> 0%Z -> number_or (Some n) d = n.
Proof.
  intros Hn. unfold number_or.
  destruct (Z.eqb_spec n 0); [contradiction|reflexivity].
Qed.

(** Unwrapping a wrapping with its password at its iteration count. *)
Lemma unwrap_wrapping_of K W n ek salt nonce its :
  aead_correct P ->
  (length (key_material K) = 16 \/ length (key_material K) = 24
   \/ length (key_material K) = 32) ->
  wrapping_of K W n ek salt nonce ->
  valid_iterations n ->
  number_or its LEGACY_ITERATIONS = n ->
  unwrapKeyWithPassword ek W salt nonce its =
  Ok (mkCryptoKey AES_GCM true [usage_encrypt; usage_decrypt] (key_material K)).
Proof.
  intros Hc Hlen (sb & ib & _ & _ & -> & -> & ->) Hn Hits.
  rewrite unwrapKeyWithPassword_spec by (rewrite Hits; exact Hn).
  rewrite Hits, Hc.
  apply aes_key_length_ok_iff in Hlen. rewrite Hlen. reflexivity.
Qed.

Lemma wrapKeyWithPassword_wrapping_of K W e w e' :
  wrapKeyWithPassword K W e = (Ok w, e') ->
  wk_iterations w = CURRENT_ITERATIONS /\
  wrapping_of K W (wk_iterations w) (wk_encryptedKey w) (wk_salt w) (wk_iv w).
Proof.
  intros Hw. pose proof (wrapKeyWithPassword_inv _ _ _ _ _ Hw) as (Ha & Hx & ->).
  cbn [wk_iterations wk_encryptedKey wk_salt wk_iv].
  split; [reflexivity|].
  exists (drawn e 16), (drawn (advance e 16) 12).
  rewrite !length_drawn. auto.
Qed.

End PasswordFacts.

Section PasswordTheorems.
Context `{P : Platform}.

(** C3 (password wrap round trip).  For every file key [K] and password
    [W], [wrapKeyWithPassword] succeeds and [unwrapKeyWithPassword] on the
    [encryptedKey], [salt], [iv] and [iterations] of its record with the
    same password returns a key holding the material of [K], which decrypts
    whatever [K] encrypted. *)
Theorem C3_password_wrap_round_trip :
  aead_correct P ->
  forall (K : CryptoKey) (W : jsstring) (e : Entropy),
    file_key K ->
    exists w e' K',
      wrapKeyWithPassword K W e = (Ok w, e') /\
      unwrapKeyWithPassword (wk_encryptedKey w) W (wk_salt w) (wk_iv w)
        (Some (wk_iterations w)) = Ok K' /\
      key_material K' = key_material K /\
      file_key K' /\
      decrypts_what_encrypted K' K.
Proof.
  intros Hc K W e HK. pose proof HK as (Ha & Hx & Hue & Hud & Hlen).
  pose proof (wrapKeyWithPassword_spec K W e Ha Hx) as Hw. cbv zeta in Hw.
  eexists _, _, _. split; [exact Hw|].
  apply wrapKeyWithPassword_wrapping_of in Hw as [Hit Hwr].
  split.
  - apply (unwrap_wrapping_of K W _ _ _ _ _ Hc Hlen Hwr).
    + rewrite Hit. apply valid_CURRENT_ITERATIONS.
    + rewrite Hit. reflexivity.
  - split; [reflexivity|]. split.
    + unfold file_key. cbn. intuition.
    + apply same_material_decrypts; cbn; auto.
Qed.

(** C4 (wrong-password rejection), amended.  Take a wrapping made with
    [W1] and try it with [W2].  If the AES-GCM authentication of the wrapped
    key under the key derived from [W2] fails, the result is the error
    [Incorrect Password]; a key is returned only when that authentication
    passed, and then it holds the authenticated bytes; whichever of the
    password, the salt or the IV is replaced, the only error that comes out
    is that same [Incorrect Password].  Nothing compares passwords: when the
    authentication passes on bytes of a key's length the key is returned,
    and a password [W2] that derives the wrapping key of [W1] unwraps what
    [W1] wrapped. *)
Theorem C4_wrong_password_rejected :
  forall (K : CryptoKey) (W1 W2 : jsstring) (e : Entropy) w e',
    wrapKeyWithPassword K W1 e = (Ok w, e') ->
    let attempt :=
      unwrapKeyWithPassword (wk_encryptedKey w) W2 (wk_salt w) (wk_iv w)
        (Some (wk_iterations w)) in
    let authentication :=
      aes_gcm_decrypt
        (pbkdf2_hmac_sha256 (TextEncoder_encode W2) (drawn e 16)
           (wk_iterations w))
        (drawn (advance e 16) 12)
        (aes_gcm_encrypt
           (pbkdf2_hmac_sha256 (TextEncoder_encode W1) (drawn e 16)
              CURRENT_ITERATIONS)
           (drawn (advance e 16) 12) (key_material K)) in
    (authentication = None -> attempt = Throw (Error "Incorrect Password")) /\
    (forall K', attempt = Ok K' ->
                exists raw, authentication = Some raw /\ key_material K' = raw) /\
    (forall x, attempt = Throw x -> x = Error "Incorrect Password") /\
    (forall (W' : jsstring) (salt' iv' : bytes) x,
        unwrapKeyWithPassword (wk_encryptedKey w) W'
          (Base64.encode (String_fromCharCode salt'))
          (Base64.encode (String_fromCharCode iv'))
          (Some (wk_iterations w)) = Throw x ->
        x = Error "Incorrect Password") /\
    (forall raw,
        authentication = Some raw -> aes_key_length_ok raw = true ->
        attempt
        = Ok (mkCryptoKey AES_GCM true [usage_encrypt; usage_decrypt] raw)) /\
    (aead_correct P -> file_key K ->
     pbkdf2_hmac_sha256 (TextEncoder_encode W2) (drawn e 16) (wk_iterations w)
     = pbkdf2_hmac_sha256 (TextEncoder_encode W1) (drawn e 16)
         (wk_iterations w) ->
     exists K', attempt = Ok K' /\ key_material K' = key_material K).
Proof.
  intros K W1 W2 e w e' Hw attempt authentication.
  pose proof (wrapKeyWithPassword_inv _ _ _ _ _ Hw) as (Ha & Hx & ->).
  assert (Hv : valid_iterations (number_or (Some CURRENT_ITERATIONS) LEGACY_ITERATIONS))
    by (vm_compute; split; [reflexivity|discriminate]).
  assert (Hn : number_or (Some CURRENT_ITERATIONS) LEGACY_ITERATIONS
               = CURRENT_ITERATIONS) by reflexivity.
  subst attempt authentication.
  cbn [wk_iterations wk_encryptedKey wk_salt wk_iv].
  rewrite unwrapKeyWithPassword_spec by exact Hv. rewrite Hn.
  repeat split.
  - intros ->. reflexivity.
  - intros K'. destruct (aes_gcm_decrypt _ _ _) as [raw|]; [|discriminate].
    destruct (aes_key_length_ok raw); [|discriminate].
    intros [= <-]. exists raw. auto.
  - intros x. destruct (aes_gcm_decrypt _ _ _) as [raw|].
    + destruct (aes_key_length_ok raw); [discriminate|]. congruence.
    + congruence.
  - intros W' salt' iv' x.
    rewrite unwrapKeyWithPassword_spec by exact Hv.
    destruct (aes_gcm_decrypt _ _ _) as [raw|].
    + destruct (aes_key_length_ok raw); [discriminate|]. congruence.
    + congruence.
  - intros raw -> ->. reflexivity.
  - intros Hc (_ & _ & _ & _ & Hlen) ->. rewrite Hc.
    assert (Hok : aes_key_length_ok (key_material K) = true)
      by (unfold aes_key_length_ok; destruct Hlen as [->|[->| ->]];
          reflexivity).
    rewrite Hok. eexists. split; reflexivity.
Qed.

(** C7 (iteration-count backward compatibility).  [wrapKeyWithPassword]
    returns a record for every extractable AES key, and the record holds
    310000, the count its derivation ran with.  [unwrapKeyWithPassword]
    derives with the count it is given (any non-zero one) and with 100000
    when it is given none: so a wrapping made at any valid count [n] unwraps
    to the wrapped key when [n] is supplied, and a wrapping made at the
    legacy count unwraps both when 100000 is supplied and when nothing
    is. *)
Theorem C7_iteration_compatibility :
  aead_correct P ->
  (forall K W e,
      key_algorithm K = AES_GCM -> key_extractable K = true ->
      exists w e',
        wrapKeyWithPassword K W e = (Ok w, e') /\
        wk_iterations w = 310000%Z /\
        wrapping_of K W (wk_iterations w) (wk_encryptedKey w) (wk_salt w)
          (wk_iv w)) /\
  (forall K W e w e',
      wrapKeyWithPassword K W e = (Ok w, e') ->
      wk_iterations w = 310000%Z /\
      wrapping_of K W (wk_iterations w) (wk_encryptedKey w) (wk_salt w)
        (wk_iv w)) /\
  (forall n, n <> 0%Z -> number_or (Some n) LEGACY_ITERATIONS = n) /\
  number_or None LEGACY_ITERATIONS = 100000%Z /\
  (forall (ek salt nonce : bytes) W its,
      valid_iterations (number_or its LEGACY_ITERATIONS) ->
      unwrapKeyWithPassword (Base64.encode (String_fromCharCode ek)) W
        (Base64.encode (String_fromCharCode salt))
        (Base64.encode (String_fromCharCode nonce)) its
      = match aes_gcm_decrypt
                (pbkdf2_hmac_sha256 (TextEncoder_encode W) salt
                   (number_or its LEGACY_ITERATIONS)) nonce ek with
        | Some raw =>
            if aes_key_length_ok raw
            then Ok (mkCryptoKey AES_GCM true [usage_encrypt; usage_decrypt]
                       raw)
            else Throw (Error "Incorrect Password")
        | None => Throw (Error "Incorrect Password")
        end) /\
  (forall K W n ek salt nonce,
      file_key K -> valid_iterations n ->
      wrapping_of K W n ek salt nonce ->
      exists K',
        unwrapKeyWithPassword ek W salt nonce (Some n) = Ok K' /\
        key_material K' = key_material K) /\
  (forall K W ek salt nonce,
      file_key K ->
      wrapping_of K W 100000%Z ek salt nonce ->
      exists K',
        unwrapKeyWithPassword ek W salt nonce (Some 100000%Z) = Ok K' /\
        unwrapKeyWithPassword ek W salt nonce None = Ok K' /\
        key_material K' = key_material K).
Proof.
  intros Hc. split; [|split; [|split; [|split; [|split; [|split]]]]].
  - intros K W e Ha Hx.
    pose proof (wrapKeyWithPassword_spec K W e Ha Hx) as Hw. cbv zeta in Hw.
    eexists _, _. split; [exact Hw|].
    apply wrapKeyWithPassword_wrapping_of in Hw. exact Hw.
  - intros K W e w e' Hw. apply wrapKeyWithPassword_wrapping_of in Hw.
    exact Hw.
  - intros n Hn. apply number_or_some, Hn.
  - reflexivity.
  - intros ek salt nonce W its Hv. apply unwrapKeyWithPassword_spec, Hv.
  - intros K W n ek salt nonce (_ & _ & _ & _ & Hlen) Hn Hwr.
    eexists. split.
    + apply (unwrap_wrapping_of K W n); auto.
      apply number_or_some. destruct Hn. lia.
    + reflexivity.
  - intros K W ek salt nonce (_ & _ & _ & _ & Hlen) Hwr.
    eexists. split; [|split].
    + apply (unwrap_wrapping_of K W 100000); auto.
      apply valid_LEGACY_ITERATIONS.
    + apply (unwrap_wrapping_of K W 100000); auto.
      apply valid_LEGACY_ITERATIONS.
    + reflexivity.
Qed.

End PasswordTheorems.

(** C4, as stated, fails: two distinct passwords can both unwrap.  Where
    the key derivation pads a short HMAC key with zero bytes, as
    PBKDF2-HMAC-SHA256 does, the wrapping made with a password unwraps with
    that password followed by U+0000, and the key that comes back is the
    wrapped one. *)
Lemma C4_counterexample :
  let W1 := Toy.correct in
  let W2 := PaddedToy.with_nul Toy.correct in
  W1 <> W2 /\
  exists w e' K',
    wrapKeyWithPassword (H := PaddedToy.platform) Toy.key W1 Toy.entropy
    = (Ok w, e') /\
    unwrapKeyWithPassword (H := PaddedToy.platform) (wk_encryptedKey w) W2
      (wk_salt w) (wk_iv w) (Some (wk_iterations w))
    = Ok K' /\
    key_material K' = key_material Toy.key.
Proof.
  split; [vm_compute; discriminate|].
  eexists _, _, _. split; [vm_compute; reflexivity|].
  split; vm_compute; reflexivity.
Qed.


(** ** The upload *)

Section UploadFacts.
Context `{P : Platform}.

Lemma rand_bind_ok {A B} (m : Rand A) (k : A -> Rand B) e a e' :
  m e = (Ok a, e') -> rand_bind m k e = k a e'.
Proof. intros Hm. unfold rand_bind. rewrite Hm. reflexivity. Qed.

(** The "encrypting" step succeeds: it generates the key from the first 32
    random bytes, encrypts the file with the next 12 as IV and the metadata
    with the 12 after those. *)
Lemma handleEncryptAndSend_encrypting_spec file M password e :
  jwk_text_latin1 P ->
  exists up e',
    handleEncryptAndSend_encrypting file M password e = (Ok up, e') /\
    up_key up
    = mkCryptoKey AES_GCM true [usage_encrypt; usage_decrypt] (drawn e 32) /\
    up_file up
    = mkEncryptedFile
        (aes_gcm_encrypt (drawn e 32) (drawn (advance e 32) 12) file)
        (Base64.encode (String_fromCharCode (drawn (advance e 32) 12)))
        (drawn (advance e 32) 12)
        (toUrlSafe (Base64.encode (JSON_stringify (jwk_export (up_key up))))) /\
    up_encryptedMetadata up
    = Base64.encode
        (String_fromCharCode
           (drawn (advance (advance e 32) 12) 12 ++
            aes_gcm_encrypt (drawn e 32) (drawn (advance (advance e 32) 12) 12)
              (TextEncoder_encode (JSON_stringify M)))).
Proof.
  intros Hl.
  set (K := mkCryptoKey AES_GCM true [usage_encrypt; usage_decrypt] (drawn e 32)).
  assert (HK : file_key K).
  { apply freshly_generated_file_key. exists e. reflexivity. }
  unfold handleEncryptAndSend_encrypting.
  rewrite (rand_bind_ok _ _ _ _ _ (generateKey_spec e)).
  rewrite (rand_bind_ok _ _ _ _ _ (encryptFile_spec file K (advance e 32) Hl HK)).
  rewrite (rand_bind_ok _ _ _ _ _
             (encryptMetadata_spec M K (advance (advance e 32) 12)
                eq_refl (or_introl eq_refl))).
  unfold generatePublicLabel at 1.
  unfold rand_bind at 1 2. unfold getRandomValues at 1. unfold rand_ret at 1.
  cbv beta iota.
  destruct password as [|c w].
  - unfold rand_bind, rand_ret. eexists _, _.
    split; [reflexivity|]. cbn [up_key up_file up_encryptedMetadata].
    repeat split; reflexivity.
  - rewrite (rand_bind_ok _ _ _ _ _
               (rand_bind_ok _ _ _ _ _
                  (wrapKeyWithPassword_spec K (c :: w) _ eq_refl eq_refl))).
    unfold rand_ret. eexists _, _.
    split; [reflexivity|]. cbn [up_key up_file up_encryptedMetadata].
    repeat split; reflexivity.
Qed.

End UploadFacts.

Section UploadTheorems.
Context `{P : Platform}.

(** C5 (IV non-reuse).  In an upload the file IV and the metadata IV are
    two separate draws of twelve bytes from the random source, one after the
    other, and each is the IV its encryption runs with: the stored
    ciphertext is the file under the file IV, the metadata envelope is the
    metadata IV followed by the metadata under that IV.  Every call of
    [encryptFile] and of [encryptMetadata] takes its IV from the next twelve
    bytes of the source, encrypts with it and leaves the source advanced
    past them; and two encryptions of the same plaintext under the same key
    whose draws differ have different IVs and different ciphertexts, for
    the file and for the metadata, whose envelopes differ as well. *)
Theorem C5_iv_fresh_per_call :
  aead_iv_injective P -> jwk_text_latin1 P ->
  forall (file : bytes) (M : json) (K : CryptoKey),
    file_key K ->
    (forall password e, exists up e',
        handleEncryptAndSend_encrypting file M password e = (Ok up, e') /\
        let fileIv := map (ent_stream e) (seq (ent_pos e + 32) 12) in
        let metaIv := map (ent_stream e) (seq (ent_pos e + 32 + 12) 12) in
        ivBytes (up_file up) = fileIv /\
        iv (up_file up) = Base64.encode (String_fromCharCode fileIv) /\
        encryptedBlob (up_file up)
        = aes_gcm_encrypt (key_material (up_key up)) fileIv file /\
        up_encryptedMetadata up
        = Base64.encode
            (String_fromCharCode
               (metaIv ++ aes_gcm_encrypt (key_material (up_key up)) metaIv
                            (TextEncoder_encode (JSON_stringify M)))) /\
        rbind (atob (up_encryptedMetadata up))
          (fun d => Ok (firstn 12 (Uint8Array_from d)))
        = Ok metaIv) /\
    (forall e, exists r s,
        encryptFile file K e = (Ok r, advance e 12) /\
        ivBytes r = drawn e 12 /\
        iv r = Base64.encode (String_fromCharCode (drawn e 12)) /\
        encryptedBlob r = aes_gcm_encrypt (key_material K) (drawn e 12) file /\
        encryptMetadata M K e = (Ok s, advance e 12) /\
        s = Base64.encode
              (String_fromCharCode
                 (drawn e 12 ++
                  aes_gcm_encrypt (key_material K) (drawn e 12)
                    (TextEncoder_encode (JSON_stringify M)))) /\
        rbind (atob s) (fun d => Ok (firstn 12 (Uint8Array_from d)))
        = Ok (drawn e 12)) /\
    (forall e1 e2 r1 r2 e1' e2',
        encryptFile file K e1 = (Ok r1, e1') ->
        encryptFile file K e2 = (Ok r2, e2') ->
        drawn e1 12 <> drawn e2 12 ->
        iv r1 <> iv r2 /\ ivBytes r1 <> ivBytes r2 /\
        encryptedBlob r1 <> encryptedBlob r2) /\
    (forall e1 e2 s1 s2 e1' e2',
        encryptMetadata M K e1 = (Ok s1, e1') ->
        encryptMetadata M K e2 = (Ok s2, e2') ->
        drawn e1 12 <> drawn e2 12 ->
        let data := TextEncoder_encode (JSON_stringify M) in
        let c1 := aes_gcm_encrypt (key_material K) (drawn e1 12) data in
        let c2 := aes_gcm_encrypt (key_material K) (drawn e2 12) data in
        s1 = Base64.encode (String_fromCharCode (drawn e1 12 ++ c1)) /\
        s2 = Base64.encode (String_fromCharCode (drawn e2 12 ++ c2)) /\
        c1 <> c2 /\ s1 <> s2).
Proof.
  intros Hinj Hl file M K HK.
  pose proof HK as (Ha & Hx & Hue & Hud & Hlen).
  split; [|split; [|split]].
  - intros password e.
    destruct (handleEncryptAndSend_encrypting_spec file M password e Hl)
      as (up & e' & Hup & Hk & Hf & Hm).
    exists up, e'. split; [exact Hup|]. cbv zeta.
    rewrite Hf, Hm. cbn [ivBytes iv encryptedBlob]. rewrite Hk.
    cbn [key_material].
    split; [reflexivity|]. split; [reflexivity|]. split; [reflexivity|].
    split; [reflexivity|].
    rewrite atob_encode by apply fromCharCode_is_octet. cbn [rbind].
    rewrite Uint8Array_from_fromCharCode.
    f_equal; apply split_iv_ciphertext, length_drawn.
  - intros e. eexists _, _.
    split; [apply encryptFile_spec; assumption|].
    cbn [ivBytes iv encryptedBlob].
    split; [reflexivity|]. split; [reflexivity|]. split; [reflexivity|].
    split; [apply encryptMetadata_spec; assumption|].
    split; [reflexivity|].
    rewrite atob_encode by apply fromCharCode_is_octet. cbn [rbind].
    rewrite Uint8Array_from_fromCharCode.
    f_equal; apply split_iv_ciphertext, length_drawn.
  - intros e1 e2 r1 r2 e1' e2' H1 H2 Hd.
    rewrite (encryptFile_spec file K e1 Hl HK) in H1.
    rewrite (encryptFile_spec file K e2 Hl HK) in H2.
    injection H1 as <- _. injection H2 as <- _.
    cbn [iv ivBytes encryptedBlob]. split; [|split].
    + intros E. apply Hd, encode_bytes_injective, E.
    + exact Hd.
    + intros E. apply Hd. eapply Hinj; [| |exact E]; apply length_drawn.
  - intros e1 e2 s1 s2 e1' e2' H1 H2 Hd data c1 c2.
    apply encryptMetadata_inv in H1 as [-> _].
    apply encryptMetadata_inv in H2 as [-> _].
    split; [reflexivity|]. split; [reflexivity|]. split.
    { intros E. apply Hd. eapply Hinj; [| |exact E]; apply length_drawn. }
    intros E. apply encode_bytes_injective in E.
    apply Hd.
    assert (Hf : forall (a b c d : bytes), length a = length c ->
                   a ++ b = c ++ d -> a = c).
    { intros a b c d Hlen' Happ.
      apply (f_equal (firstn (length a))) in Happ.
      rewrite firstn_app, Nat.sub_diag, firstn_all in Happ.
      rewrite Hlen', firstn_app, Nat.sub_diag, firstn_all in Happ.
      simpl in Happ. rewrite !app_nil_r in Happ. exact Happ. }
    eapply Hf; [|exact E]. rewrite !length_drawn. reflexivity.
Qed.

End UploadTheorems.

(** ** The two-phase download *)

Module ConvexFacts.
Import Convex.

Lemma number_or_zero n : number_or (Some n) 0 = n.
Proof. unfold number_or. destruct (Z.eqb_spec n 0); congruence. Qed.

Section WithStorage.
Variable getUrl : nat -> option string.

(** Phase 1 leaves the [files] table as it was. *)
Lemma getDownloadToken_files db now uuid fileId sessionId :
  files (snd (getDownloadToken getUrl db now uuid fileId sessionId))
  = files db.
Proof.
  unfold getDownloadToken.
  destruct (files db !! fileId) as [file|]; [|reflexivity].
  destruct (passwordProtection file), (session_given sessionId);
    try destruct (Nat.leb _ _);
    destruct (expired file now); try reflexivity;
    destruct (limit_reached file); reflexivity.
Qed.

Lemma request_tokens_files reqs db :
  files (request_tokens getUrl reqs db) = files db.
Proof.
  unfold request_tokens. revert db.
  induction reqs as [|r reqs IH]; intros db; simpl; [reflexivity|].
  rewrite IH. apply getDownloadToken_files.
Qed.
End WithStorage.

Lemma find_map_preserved {A} (f : A -> bool) (g : A -> A) l :
  (forall x, f (g x) = f x) ->
  List.find f (map g l) = g <$> List.find f l.
Proof.
  intros Hfg. induction l as [|x l IH]; simpl; [reflexivity|].
  rewrite Hfg. destruct (f x); [reflexivity|exact IH].
Qed.

Lemma first_token_mark_used db token rec :
  first_token db token = Some rec ->
  first_token (mark_used db (tok_id rec)) token =
  Some (mkTokenDoc (tok_id rec) (tok_fileId rec) (tok_token rec)
          (tok_createdAt rec) true (tok_expiresAt rec)).
Proof.
  unfold first_token, mark_used. cbn [downloadTokens]. intros Hf.
  rewrite find_map_preserved.
  - rewrite Hf. simpl. rewrite Nat.eqb_refl. reflexivity.
  - intros t. destruct (Nat.eqb (tok_id t) (tok_id rec)); reflexivity.
Qed.

(** What a confirmation does with a token that is there, unexpired and
    unused, for a file that is there and below its limit. *)
Lemma confirmDownload_success db now token rec file :
  first_token db token = Some rec ->
  (now <= tok_expiresAt rec)%Z ->
  tok_used rec = false ->
  files db !! tok_fileId rec = Some file ->
  limit_reached file = false ->
  confirmDownload db now token =
  (ConfirmSuccess,
   patch_history
     (patch_file (mark_used db (tok_id rec)) (tok_fileId rec) file
        (counter file + 1) now)
     (tok_fileId rec) (counter file + 1)).
Proof.
  intros Hf Hexp Hused Hfile Hlim. unfold confirmDownload.
  rewrite Hf.
  replace (Z.ltb (tok_expiresAt rec) now) with false
    by (symmetry; apply Z.ltb_ge; lia).
  rewrite Hused, Hfile, Hlim. reflexivity.
Qed.

(** A confirmation changes at most the file of its token, and what it
    writes there is the old counter plus one under the same limit. *)
Lemma confirmDownload_files db now token :
  files (snd (confirmDownload db now token)) = files db \/
  exists rec file,
    first_token db token = Some rec /\
    files db !! tok_fileId rec = Some file /\
    limit_reached file = false /\
    files (snd (confirmDownload db now token)) =
    <[tok_fileId rec :=
        mkFileDoc (storageId file) (userId file) (publicName file)
          (encryptedMetadata file) (file_iv file) (expiresAt file)
          (maxDownloads file) (Some (counter file + 1)%Z) (Some now)
          (passwordProtection file)]> (files db).
Proof.
  unfold confirmDownload.
  destruct (first_token db token) as [rec|] eqn:Hf; [|left; reflexivity].
  destruct (Z.ltb _ now); [left; reflexivity|].
  destruct (tok_used rec); [left; reflexivity|].
  destruct (files db !! tok_fileId rec) as [file|] eqn:Hfile;
    [|left; reflexivity].
  destruct (limit_reached file) eqn:Hlim; [left; reflexivity|].
  right. exists rec, file. auto.
Qed.

(** A count that has not reached a finite limit is below the limit rounded
    up; a count that has reached it is not. *)
Lemma Number_ge_false_ceil c q :
  Number_ge c (Finite q) = false -> (c + 1 <= Math_ceil q)%Z.
Proof.
  destruct q as [n d].
  unfold Number_ge, QArith_base.Qle_bool, QArith_base.inject_Z, Math_ceil.
  cbn [QArith_base.Qnum QArith_base.Qden].
  rewrite Z.leb_gt. intros H.
  Z.to_euclidean_division_equations. nia.
Qed.

Lemma Number_ge_false_int c q n :
  QArith_base.Qeq q (QArith_base.inject_Z n) ->
  Number_ge c (Finite q) = false -> (c + 1 <= n)%Z.
Proof.
  destruct q as [m d].
  unfold Number_ge, QArith_base.Qle_bool, QArith_base.Qeq, QArith_base.inject_Z.
  cbn [QArith_base.Qnum QArith_base.Qden].
  rewrite Z.leb_gt. intros Heq H. nia.
Qed.

(** One more download of a file whose limit is not reached. *)
Lemma below_limit_succ file :
  (0 <= counter file)%Z -> limit_reached file = false ->
  below_limit (counter file + 1) (maxDownloads file).
Proof.
  intros Hc Hlim. split; [lia|]. right.
  unfold limit_reached in Hlim.
  destruct (maxDownloads file) as [m|]; [|exact I].
  replace (counter file + 1 - 1)%Z with (counter file) by lia. exact Hlim.
Qed.

Lemma below_limit_zero m : below_limit 0 m.
Proof. split; [lia|left; reflexivity]. Qed.

Lemma within_limits_confirmDownload db now token :
  within_limits db -> within_limits (snd (confirmDownload db now token)).
Proof.
  intros Hw fileId f.
  destruct (confirmDownload_files db now token) as [->|Hc]; [apply Hw|].
  destruct Hc as (rec & file & _ & Hfile & Hlim & ->).
  intros Hlook.
  destruct (decide (tok_fileId rec = fileId)) as [<-|Hne].
  - rewrite lookup_insert_eq in Hlook. injection Hlook as <-.
    unfold counter at 1. cbn [downloads maxDownloads].
    rewrite number_or_zero.
    apply below_limit_succ; [|exact Hlim]. apply (Hw _ _ Hfile).
  - rewrite lookup_insert_ne in Hlook by exact Hne.
    exact (Hw _ _ Hlook).
Qed.

Lemma within_limits_saveFile db authUser args :
  within_limits db -> within_limits (snd (saveFile db authUser args)).
Proof.
  intros Hw fileId f. unfold saveFile.
  destruct authUser; cbn [snd files]; intros Hlook.
  all: destruct (decide (next_id db = fileId)) as [<-|Hne];
    [ rewrite lookup_insert_eq in Hlook; injection Hlook as <-;
      unfold counter; cbn [downloads]; rewrite number_or_zero;
      apply below_limit_zero
    | rewrite lookup_insert_ne in Hlook by exact Hne;
      exact (Hw _ _ Hlook) ].
Qed.

Lemma within_limits_empty : within_limits empty_db.
Proof. intros fileId f Hlook. cbn in Hlook. rewrite lookup_empty in Hlook. discriminate. Qed.

Lemma within_limits_patch_file db fileId file now :
  within_limits db ->
  files db !! fileId = Some file ->
  limit_reached file = false ->
  within_limits (patch_file db fileId file (counter file + 1) now).
Proof.
  intros Hw Hfile Hlim fileId' f. unfold patch_file. cbn [files].
  destruct (decide (fileId = fileId')) as [<-|Hne].
  - rewrite lookup_insert_eq. intros [= <-].
    unfold counter at 1. cbn [downloads maxDownloads].
    rewrite number_or_zero.
    apply below_limit_succ; [|exact Hlim]. apply (Hw _ _ Hfile).
  - rewrite lookup_insert_ne by exact Hne. apply Hw.
Qed.

Lemma within_limits_add_attempt db a :
  within_limits db ->
  within_limits (mkDb (files db) (downloadTokens db) (downloadAttempts db ++ [a])
                   (fileHistory db) (S (next_id db))).
Proof. intros Hw. exact Hw. Qed.

Lemma within_limits_downloadFile getUrl db now fileId sessionId :
  within_limits db ->
  within_limits (snd (downloadFile getUrl db now fileId sessionId)).
Proof.
  intros Hw. unfold downloadFile.
  destruct (files db !! fileId) as [file|] eqn:Hfile; [|exact Hw].
  destruct (passwordProtection file), (session_given sessionId);
    try destruct (Nat.leb _ _); cbn [snd]; try exact Hw;
    destruct (expired file now); cbn [snd]; try exact Hw;
    destruct (limit_reached file) eqn:Hlim; cbn [snd]; try exact Hw;
    apply within_limits_patch_file; auto.
Qed.

Lemma within_limits_deleteFile db authUser fileId :
  within_limits db -> within_limits (snd (deleteFile db authUser fileId)).
Proof.
  intros Hw. unfold deleteFile.
  destruct authUser as [user|]; [|exact Hw].
  destruct (files db !! fileId) as [file|]; [|exact Hw].
  destruct (match userId file with Some _ => _ | None => _ end); [|exact Hw].
  intros fileId' f. cbn [snd files]. intros Hlook.
  apply lookup_delete_Some in Hlook as [_ Hlook]. exact (Hw _ _ Hlook).
Qed.

Lemma within_limits_run_call getUrl db c :
  within_limits db -> within_limits (run_call getUrl db c).
Proof.
  intros Hw.
  destruct c as [authUser args|now uuid fileId sessionId|now token
                |now fileId sessionId|authUser fileId];
    cbn [run_call].
  - apply within_limits_saveFile, Hw.
  - intros fileId' f. rewrite getDownloadToken_files. apply Hw.
  - apply within_limits_confirmDownload, Hw.
  - apply within_limits_downloadFile, Hw.
  - apply within_limits_deleteFile, Hw.
Qed.

Lemma reachable_within_limits getUrl db :
  reachable getUrl db -> within_limits db.
Proof.
  induction 1 as [|db c _ IH].
  - apply within_limits_empty.
  - apply within_limits_run_call, IH.
Qed.

(** No token of the given document id is left after its deletion. *)
Lemma delete_token_gone db id t :
  In t (downloadTokens (delete_token db id)) -> tok_id t <> id.
Proof.
  unfold delete_token. cbn [downloadTokens]. intros Hin.
  apply filter_In in Hin as [_ Hne].
  apply negb_true_iff, Nat.eqb_neq in Hne. exact Hne.
Qed.

End ConvexFacts.

Module ConvexTheorems.
Import Convex ConvexFacts.

Lemma reachable_calls getUrl calls db :
  reachable getUrl db -> reachable getUrl (fold_left (run_call getUrl) calls db).
Proof.
  revert db. induction calls as [|c calls IH]; intros db Hr; simpl.
  - exact Hr.
  - apply IH. constructor. exact Hr.
Qed.

(** Scenario C of the specification, on a file without a limit: five
    token requests leave the counter at 0, one confirmation makes it 1, a
    second confirmation of the same token is refused as used and the
    counter stays 1. *)
Example scenario_C :
  counter_of Scenario.unlimited_db 0 = Some 0%Z /\
  counter_of Scenario.after_requests 0 = Some 0%Z /\
  length (downloadTokens Scenario.after_requests) = 5 /\
  fst (confirmDownload Scenario.after_requests 2000 "t3") = ConfirmSuccess /\
  counter_of Scenario.after_confirm 0 = Some 1%Z /\
  fst (confirmDownload Scenario.after_confirm 2001 "t3")
  = ConfirmFailed TOKEN_USED /\
  counter_of Scenario.after_second_confirm 0 = Some 1%Z.
Proof. vm_compute. repeat split; reflexivity. Qed.

(** C6, as stated, fails: in a database reached by calls of the
    mutations, the token [token-b] is there, unexpired and unused, and its
    first confirmation does not increment the counter, because the file's
    limit was reached by the confirmation of [token-a].  And in scenario C, a
    second confirmation of [t3] that comes after the token's five minutes is
    refused as expired, not as used. *)
Lemma C6_counterexample :
  reachable Scenario.getUrl Scenario.limited_db /\
  first_token Scenario.limited_db "token-b"
  = Some (mkTokenDoc 2 0 "token-b" 1001 false 301001) /\
  (2001 <= 301001)%Z /\
  counter_of Scenario.limited_db 0 = Some 1%Z /\
  fst (confirmDownload Scenario.limited_db 2001 "token-b")
  = ConfirmFailed LIMIT_REACHED /\
  counter_of (snd (confirmDownload Scenario.limited_db 2001 "token-b")) 0
  = Some 1%Z /\
  fst (confirmDownload Scenario.after_confirm 301003 "t3")
  = ConfirmFailed TOKEN_EXPIRED.
Proof.
  split.
  - apply reachable_calls. constructor.
  - vm_compute. repeat split; try reflexivity. discriminate.
Qed.

(** C6, amended (two-phase counter guard).  A token request never changes
    the [files] table, so no number of them moves a download counter.  A
    confirmation with a token that is there, unexpired and unused, for a
    file that is still there and below its limit, succeeds, adds exactly
    one to that file's counter and leaves the other files alone; and any
    later confirmation with the same token, made before the token expires,
    is refused as [TOKEN_USED] and changes nothing. *)
Theorem C6_two_phase_counter_guard (getUrl : nat -> option string) :
  (forall db now uuid fileId sessionId,
      files (snd (getDownloadToken getUrl db now uuid fileId sessionId))
      = files db) /\
  (forall reqs db fileId,
      counter_of (request_tokens getUrl reqs db) fileId = counter_of db fileId) /\
  (forall db now token rec file,
      first_token db token = Some rec ->
      (now <= tok_expiresAt rec)%Z ->
      tok_used rec = false ->
      files db !! tok_fileId rec = Some file ->
      limit_reached file = false ->
      exists db',
        confirmDownload db now token = (ConfirmSuccess, db') /\
        counter_of db' (tok_fileId rec) = Some (counter file + 1)%Z /\
        (forall other, other <> tok_fileId rec ->
                       files db' !! other = files db !! other) /\
        (forall now', (now' <= tok_expiresAt rec)%Z ->
                      confirmDownload db' now' token
                      = (ConfirmFailed TOKEN_USED, db'))).
Proof.
  split; [|split].
  - apply getDownloadToken_files.
  - intros reqs db fileId. unfold counter_of.
    rewrite request_tokens_files. reflexivity.
  - intros db now token rec file Hf Hexp Hused Hfile Hlim.
    eexists. split; [apply confirmDownload_success; eassumption|].
    split; [|split].
    + unfold counter_of, patch_history, patch_file. cbn [files].
      rewrite lookup_insert_eq. cbn [fmap option_fmap option_map].
      unfold counter at 1. cbn [downloads].
      rewrite number_or_zero. reflexivity.
    + intros other Hne. unfold patch_history, patch_file. cbn [files].
      rewrite lookup_insert_ne by congruence. reflexivity.
    + intros now' Hexp'. unfold confirmDownload.
      replace (first_token _ token) with
        (Some (mkTokenDoc (tok_id rec) (tok_fileId rec) (tok_token rec)
                 (tok_createdAt rec) true (tok_expiresAt rec))).
      * cbn [tok_expiresAt tok_used].
        replace (Z.ltb (tok_expiresAt rec) now') with false
          by (symmetry; apply Z.ltb_ge; lia).
        reflexivity.
      * symmetry. apply (first_token_mark_used db token rec Hf).
Qed.

(** C10, as stated, fails: [saveFile] takes any number as the limit.  In a
    database reached by calls of the mutations, the file saved with the
    limit [0.5] has the counter 1 after the one confirmation that the limit
    lets through, and the file saved with the limit [-1] starts with the
    counter 0, above its limit. *)
Lemma C10_counterexample :
  reachable Scenario.getUrl Scenario.fractional_db /\
  fst (confirmDownload
         (fold_left (run_call Scenario.getUrl)
            (firstn 2 Scenario.fractional_calls) empty_db) 2000 "token-a")
  = ConfirmSuccess /\
  (exists file,
      files Scenario.fractional_db !! 0 = Some file /\
      maxDownloads file = Some (Finite (QArith_base.Qmake 1 2)) /\
      counter file = 1%Z /\
      QArith_base.Qlt (QArith_base.Qmake 1 2)
        (QArith_base.inject_Z (counter file))) /\
  reachable Scenario.getUrl Scenario.negative_db /\
  (exists file,
      files Scenario.negative_db !! 0 = Some file /\
      maxDownloads file = Some (Finite (QArith_base.inject_Z (-1))) /\
      counter file = 0%Z /\
      QArith_base.Qlt (QArith_base.inject_Z (-1))
        (QArith_base.inject_Z (counter file))).
Proof.
  split; [apply reachable_calls; constructor|].
  split; [vm_compute; reflexivity|].
  split.
  { eexists. split; [vm_compute; reflexivity|].
    split; [reflexivity|]. split; [reflexivity|]. vm_compute. reflexivity. }
  split; [constructor; constructor|].
  eexists. split; [vm_compute; reflexivity|].
  split; [reflexivity|]. split; [reflexivity|]. vm_compute. reflexivity.
Qed.

(** C10 (download-limit invariant), amended.  In every database that calls
    of [saveFile], [getDownloadToken], [confirmDownload], the deprecated
    [downloadFile] and [deleteFile] lead to, the counter of a file is at
    least 0, it is at most a limit that is an integer not below zero, and
    under any finite limit it is at most the larger of 0 and the limit
    rounded up.  [confirmDownload] preserves this from any database: it
    keeps the limit of every file and either keeps its counter or adds one
    to it, the latter only where the limit was not reached.  When the file
    of an unexpired, unused token has already reached its limit,
    [confirmDownload] answers [LIMIT_REACHED], deletes the token and leaves
    the [files] table, hence the counter, unchanged. *)
Theorem C10_download_limit_invariant (getUrl : nat -> option string) :
  (forall db fileId file q n,
      reachable getUrl db ->
      files db !! fileId = Some file ->
      maxDownloads file = Some (Finite q) ->
      QArith_base.Qeq q (QArith_base.inject_Z n) -> (0 <= n)%Z ->
      (0 <= counter file <= n)%Z) /\
  (forall db fileId file q,
      reachable getUrl db ->
      files db !! fileId = Some file ->
      maxDownloads file = Some (Finite q) ->
      (0 <= counter file <= Z.max 0 (Math_ceil q))%Z) /\
  (forall db now token,
      within_limits db -> within_limits (snd (confirmDownload db now token))) /\
  (forall db now token fileId file file',
      files db !! fileId = Some file ->
      files (snd (confirmDownload db now token)) !! fileId = Some file' ->
      maxDownloads file' = maxDownloads file /\
      (counter file' = counter file \/
       (counter file' = counter file + 1)%Z /\ limit_reached file = false)) /\
  (forall db now token rec file,
      first_token db token = Some rec ->
      (now <= tok_expiresAt rec)%Z ->
      tok_used rec = false ->
      files db !! tok_fileId rec = Some file ->
      limit_reached file = true ->
      exists db',
        confirmDownload db now token = (ConfirmFailed LIMIT_REACHED, db') /\
        files db' = files db /\
        counter_of db' (tok_fileId rec) = Some (counter file) /\
        (forall t, In t (downloadTokens db') -> tok_id t <> tok_id rec)).
Proof.
  split; [|split; [|split; [|split]]].
  - intros db fileId file q n Hr Hlook Hmax Hq Hn.
    destruct (reachable_within_limits getUrl db Hr _ _ Hlook) as [H0 Hc].
    split; [exact H0|]. destruct Hc as [->|Hc]; [exact Hn|].
    rewrite Hmax in Hc. apply (Number_ge_false_int _ _ n Hq) in Hc. lia.
  - intros db fileId file q Hr Hlook Hmax.
    destruct (reachable_within_limits getUrl db Hr _ _ Hlook) as [H0 Hc].
    split; [exact H0|]. destruct Hc as [->|Hc]; [apply Z.le_max_l|].
    rewrite Hmax in Hc. apply Number_ge_false_ceil in Hc. lia.
  - apply within_limits_confirmDownload.
  - intros db now token fileId file file' Hlook.
    destruct (confirmDownload_files db now token) as [->|Hc].
    { rewrite Hlook. intros [= <-]. split; [reflexivity|left; reflexivity]. }
    destruct Hc as (rec & f & _ & Hf & Hlim & ->).
    destruct (decide (tok_fileId rec = fileId)) as [<-|Hne].
    + rewrite lookup_insert_eq. intros [= <-].
      rewrite Hlook in Hf. injection Hf as <-.
      cbn [maxDownloads]. split; [reflexivity|]. right.
      split; [|exact Hlim].
      unfold counter at 1. cbn [downloads]. apply number_or_zero.
    + rewrite lookup_insert_ne by exact Hne. rewrite Hlook.
      intros [= <-]. split; [reflexivity|left; reflexivity].
  - intros db now token rec file Hf Hexp Hused Hfile Hlim.
    exists (delete_token db (tok_id rec)). split; [|split; [|split]].
    + unfold confirmDownload. rewrite Hf.
      replace (Z.ltb (tok_expiresAt rec) now) with false
        by (symmetry; apply Z.ltb_ge; lia).
      rewrite Hused, Hfile, Hlim. reflexivity.
    + reflexivity.
    + unfold counter_of, delete_token. cbn [files]. rewrite Hfile. reflexivity.
    + apply delete_token_gone.
Qed.

End ConvexTheorems.

(** ** The small platform satisfies the laws *)

Module ToyFacts.
Import Toy.

Lemma xor_ascii_involutive a b : xor_ascii a (xor_ascii a b) = b.
Proof.
  destruct a as [a0 a1 a2 a3 a4 a5 a6 a7], b as [b0 b1 b2 b3 b4 b5 b6 b7].
  simpl. rewrite <- !xorb_assoc, !xorb_nilpotent, !xorb_false_l. reflexivity.
Qed.

Lemma mask_involutive k data : mask k (mask k data) = data.
Proof.
  unfold mask. rewrite map_map.
  induction data as [|a data IH]; simpl; [reflexivity|].
  rewrite xor_ascii_involutive, IH. reflexivity.
Qed.

Lemma mask_injective k x y : mask k x = mask k y -> x = y.
Proof.
  intros E. apply (f_equal (mask k)) in E.
  rewrite !mask_involutive in E. exact E.
Qed.

Lemma length_mask k data : length (mask k data) = length data.
Proof. apply length_map. Qed.

Lemma length_tag k nonce : length (tag k nonce) = 16.
Proof.
  unfold tag. rewrite length_mask, length_firstn, length_app, repeat_length.
  lia.
Qed.

Lemma bytes_eqb_refl x : bytes_eqb x x = true.
Proof.
  induction x as [|a x IH]; simpl; [reflexivity|].
  rewrite Ascii.eqb_refl, IH. reflexivity.
Qed.

Lemma aead_correct : aead_correct platform.
Proof.
  intros k nonce p. cbn [aes_gcm_decrypt aes_gcm_encrypt platform].
  unfold decrypt, encrypt.
  rewrite length_app, length_mask, length_tag.
  replace (Nat.ltb (length p + 16) 16) with false
    by (symmetry; apply Nat.ltb_ge; lia).
  rewrite drop_app_length' by (rewrite length_mask; lia).
  rewrite take_app_length' by (rewrite length_mask; lia).
  rewrite bytes_eqb_refl, mask_involutive. reflexivity.
Qed.

Lemma aead_tag_16 : aead_tag_16 platform.
Proof.
  intros k nonce p. cbn [aes_gcm_encrypt platform]. unfold encrypt.
  rewrite length_app, length_mask, length_tag. reflexivity.
Qed.

Lemma aead_iv_injective : aead_iv_injective platform.
Proof.
  intros k n1 n2 p H1 H2. cbn [aes_gcm_encrypt platform]. unfold encrypt.
  intros E. apply app_inv_head in E. unfold tag in E.
  apply mask_injective in E.
  assert (Hpad : forall n : bytes, length n = 12 ->
            firstn 16 (n ++ repeat zero 16) = n ++ repeat zero 4).
  { intros n Hn. rewrite firstn_app, Hn, firstn_all2 by lia. reflexivity. }
  rewrite (Hpad n1 H1), (Hpad n2 H2) in E.
  apply app_inv_tail in E. exact E.
Qed.

Lemma json_roundtrip : json_roundtrip platform.
Proof.
  intros v. cbn [JSON_parse JSON_stringify platform]. unfold parse.
  replace (forallb _ _) with true.
  - f_equal. rewrite map_map.
    induction v as [|a v IH]; simpl; [reflexivity|].
    rewrite ascii_N_embedding, IH. reflexivity.
  - symmetry. apply forallb_forall. intros c Hc.
    apply in_map_iff in Hc as (a & <- & _). apply N.ltb_lt, N_ascii_bounded.
Qed.

Lemma utf8_roundtrip : utf8_roundtrip platform.
Proof.
  intros v. cbn [TextDecoder_decode TextEncoder_encode JSON_stringify platform].
  rewrite !map_map. apply map_ext. intros a.
  rewrite ascii_N_embedding. reflexivity.
Qed.

Lemma jwk_text_latin1 : jwk_text_latin1 platform.
Proof.
  intros k. cbn [JSON_stringify jwk_export platform].
  apply (fromCharCode_is_octet (export k)).
Qed.

Lemma flagged_export k u :
  In u (key_usages k) ->
  flagged (map (fun u => flag (has_usage u (key_usages k))) all_usages) u = true.
Proof.
  intros Hu. apply has_usage_In in Hu.
  destruct u; unfold flagged, all_usages; cbn [map combine existsb fst snd];
    rewrite Hu; reflexivity.
Qed.

Lemma jwk_roundtrip : jwk_roundtrip platform.
Proof.
  intros k ext us Ha Hx Hlen Hne Hsub.
  cbn [jwk_import jwk_export platform]. unfold import.
  destruct us as [|u0 us']; [contradiction|].
  set (us := u0 :: us') in *.
  assert (H6 : length (map (fun u => flag (has_usage u (key_usages k))) all_usages) = 6)
    by reflexivity.
  unfold export.
  rewrite length_app, H6.
  replace (Nat.ltb (6 + length (key_material k)) 6) with false
    by (symmetry; apply Nat.ltb_ge; lia).
  rewrite take_app_length', drop_app_length' by (symmetry; exact H6).
  replace (forallb _ us) with true.
  2:{ symmetry. apply forallb_forall. intros u Hu.
      apply flagged_export, Hsub, Hu. }
  cbn [negb]. unfold aes_key_length_ok in Hlen. rewrite Hlen. reflexivity.
Qed.

Lemma key_generated : freshly_generated (H := platform) key.
Proof. exists entropy. reflexivity. Qed.

Lemma key_file_key : file_key key.
Proof. exact (freshly_generated_file_key (P := platform) key key_generated). Qed.

End ToyFacts.

(** The padded stand-in has the cipher and the encodings of the small
    platform, hence their laws, and derives one key from a short password
    and from that password followed by U+0000. *)
Module PaddedToyFacts.
Import PaddedToy.

Lemma padded_platform_lawful :
  aead_correct platform /\ aead_tag_16 platform /\
  aead_iv_injective platform /\ json_roundtrip platform /\
  utf8_roundtrip platform /\ jwk_text_latin1 platform /\
  jwk_roundtrip platform.
Proof.
  split; [exact ToyFacts.aead_correct|].
  split; [exact ToyFacts.aead_tag_16|].
  split; [exact ToyFacts.aead_iv_injective|].
  split; [exact ToyFacts.json_roundtrip|].
  split; [exact ToyFacts.utf8_roundtrip|].
  split; [exact ToyFacts.jwk_text_latin1|].
  exact ToyFacts.jwk_roundtrip.
Qed.

Lemma pad_key_zero password :
  length password < HMAC_BLOCK ->
  pad_key (password ++ [zero]) = pad_key password.
Proof.
  intros Hlen. unfold pad_key. rewrite length_app. cbn [length].
  replace (HMAC_BLOCK - length password)
    with (S (HMAC_BLOCK - (length password + 1))) by lia.
  rewrite <- app_assoc. reflexivity.
Qed.

Lemma with_nul_same_key (W : jsstring) salt iterations :
  length W < HMAC_BLOCK ->
  pbkdf2_hmac_sha256 (Platform := platform)
    (TextEncoder_encode (Platform := platform) (with_nul W)) salt iterations
  = pbkdf2_hmac_sha256 (Platform := platform)
      (TextEncoder_encode (Platform := platform) W) salt iterations.
Proof.
  intros Hlen. cbn [pbkdf2_hmac_sha256 TextEncoder_encode platform].
  unfold derive, with_nul. rewrite map_app. cbn [map].
  change (ascii_of_N 0) with zero.
  rewrite pad_key_zero by (rewrite length_map; exact Hlen). reflexivity.
Qed.

End PaddedToyFacts.

(** ** The download orchestration *)

Module DownloadFacts.
Import DownloadPage.

Section WithPlatform.
Context `{P : Platform}.

Ltac break_run :=
  repeat match goal with
         | |- context [match ?x with _ => _ end] =>
             lazymatch x with
             | context [match _ with _ => _ end] => fail
             | _ => destruct x eqn:?
             end
         | |- context [if ?x then _ else _] =>
             lazymatch x with
             | context [match _ with _ => _ end] => fail
             | _ => destruct x eqn:?
             end
         end.

(** From the token request on, how the run completes and what it shows
    depend neither on the decrypted metadata nor on the file record's
    metadata envelope, nor on the real filename in the state. *)
Lemma download_and_decrypt_shown env fd fd' crn fileKey meta1 meta2 st1 st2
      log1 log2 :
  shown st1 = shown st2 ->
  fm_publicName fd' = fm_publicName fd ->
  fm_iv fd' = fm_iv fd ->
  fm_passwordProtection fd' = fm_passwordProtection fd ->
  let r1 := download_and_decrypt env fd' crn fileKey meta1 st1 log1 in
  let r2 := download_and_decrypt env fd crn fileKey meta2 st2 log2 in
  fst (fst r1) = fst (fst r2) /\ shown (snd (fst r1)) = shown (snd (fst r2)).
Proof.
  intros Hs Hn Hi Hp r1 r2. subst r1 r2.
  unfold download_and_decrypt, decrypt_payload. rewrite Hn, Hi, Hp.
  unfold shown in *. injection Hs as Hst Herr Hrl.
  break_run; cbn [fst snd]; unfold setErrorMsg, setRateLimitMsg, setStatus;
    cbn [status errorMsg rateLimitMsg]; split; congruence.
Qed.

(** The same of the whole [try] block. *)
Lemma executeDownload_try_shown env fd fd' st st' :
  fm_publicName fd' = fm_publicName fd ->
  fm_iv fd' = fm_iv fd ->
  fm_passwordProtection fd' = fm_passwordProtection fd ->
  password st' = password st ->
  turnstileToken st' = turnstileToken st ->
  realFilename st' = realFilename st ->
  errorMsg st' = errorMsg st ->
  let r1 := executeDownload_try env fd' st' in
  let r2 := executeDownload_try env fd st in
  fst (fst r1) = fst (fst r2) /\ shown (snd (fst r1)) = shown (snd (fst r2)).
Proof.
  intros Hn Hi Hp Hpw Hts Hrf Herr r1 r2. subst r1 r2.
  unfold executeDownload_try.
  rewrite Hp, Hpw, Hts, Hrf.
  assert (Hs0 : shown (setRateLimitMsg None (setStatus decrypting st'))
                = shown (setRateLimitMsg None (setStatus decrypting st)))
    by (unfold shown; cbn; congruence).
  set (s1 := setRateLimitMsg None (setStatus decrypting st')) in *.
  set (s2 := setRateLimitMsg None (setStatus decrypting st)) in *.
  clearbody s1 s2.
  assert (Hbase : forall c : Completion,
             fst (fst (c, s1, @nil Effect)) = fst (fst (c, s2, @nil Effect)) /\
             shown (snd (fst (c, s1, @nil Effect)))
             = shown (snd (fst (c, s2, @nil Effect))))
    by (intros c; split; [reflexivity|exact Hs0]).
  destruct (fm_passwordProtection fd) as [pp|] eqn:Hpp.
  - destruct (password st); [apply Hbase|].
    destruct (truthy_str (turnstileToken st)); [|apply Hbase].
    destruct (turnstile_response env) as [[|]|];
      try (split; [reflexivity|exact Hs0]).
    destruct (unwrapKeyWithPassword _ _ _ _ _) as [fileKey|];
      [|split; [reflexivity|exact Hs0]].
    rewrite <- Hpp in Hp.
    destruct (decryptMetadataWithKey (fm_encryptedMetadata fd') fileKey) as [m1|],
             (decryptMetadataWithKey (fm_encryptedMetadata fd) fileKey) as [m2|];
      try destruct (json_truthy m1); try destruct (json_truthy m2);
      apply download_and_decrypt_shown; auto.
  - destruct (location_hash env); [apply Hbase|].
    rewrite <- Hpp in Hp.
    apply download_and_decrypt_shown; auto.
Qed.

Lemma shown_catch_clause r1 r2 :
  fst (fst r1) = fst (fst r2) ->
  shown (snd (fst r1)) = shown (snd (fst r2)) ->
  shown (fst (catch_clause r1)) = shown (fst (catch_clause r2)).
Proof.
  destruct r1 as [[c1 s1] l1], r2 as [[c2 s2] l2]. cbn [fst snd].
  intros <- Hs. unfold shown in *. injection Hs as Hst Herr Hrl.
  destruct c1; cbn [catch_clause fst]; unfold setErrorMsg, setStatus;
    cbn [status errorMsg rateLimitMsg]; congruence.
Qed.

Lemma shown_setRealFilename v st : shown (setRealFilename v st) = shown st.
Proof. reflexivity. Qed.

(** What a run shows does not depend on the metadata envelope. *)
Lemma executeDownload_metadata_irrelevant env st m :
  shown (fst (executeDownload env (with_encryptedMetadata st m)))
  = shown (fst (executeDownload env st)).
Proof.
  unfold executeDownload, with_encryptedMetadata. cbn [fileData].
  destruct (fileData st) as [fd|]; [|reflexivity].
  cbn [option_map].
  set (fd' := mkFileMeta _ _ _ _ _).
  set (st' := mkPageState _ _ _ _ _ _ _).
  destruct (executeDownload_try_shown env fd fd' st st') as [H1 H2];
    try reflexivity.
  apply shown_catch_clause; assumption.
Qed.

Lemma not_rate_limited r :
  reply_error r <> Some "RATE_LIMITED"%string ->
  match reply_error r with
  | Some code => String.eqb code "RATE_LIMITED"
  | None => false
  end = false.
Proof.
  intros Hr. destruct (reply_error r) as [code|]; [|reflexivity].
  destruct (String.eqb_spec code "RATE_LIMITED"); [|reflexivity].
  subst code. contradiction.
Qed.

(** When the token is granted and the blob fetched, a failure of the
    file decryption ends the [try] block with that exception, before
    anything is saved or confirmed. *)
Lemma download_and_decrypt_failure env fd crn fileKey meta st log url tok
      blob e :
  token_granted env url tok ->
  blob_response env = Ok (true, blob) ->
  decrypt_payload env fd fileKey blob = Throw e ->
  exists sid,
    download_and_decrypt env fd crn fileKey meta st log
    = (Thrown e, st, (log ++ [FetchDownloadToken sid]) ++ [FetchBlob url]).
Proof.
  intros (r & Hr & Hnr & Hu & Ht) Hb Hd. eexists.
  unfold download_and_decrypt.
  rewrite Hr, (not_rate_limited r Hnr), Hu, Ht, Hb, Hd. reflexivity.
Qed.

Lemma not_saved_prefix (log : list Effect) sid url e :
  ~ saved log -> ~ confirmed log ->
  ~ saved (((log ++ [FetchDownloadToken sid]) ++ [FetchBlob url])
           ++ [ConsoleError e])
  /\ ~ confirmed (((log ++ [FetchDownloadToken sid]) ++ [FetchBlob url])
                   ++ [ConsoleError e]).
Proof.
  intros Hs Hc. split.
  - intros (f & c & Hin). apply Hs. exists f, c.
    rewrite !in_app_iff in Hin. cbn [In] in Hin.
    intuition discriminate.
  - intros (t & Hin). apply Hc. exists t.
    rewrite !in_app_iff in Hin. cbn [In] in Hin.
    intuition discriminate.
Qed.

(** A failure of the password unwrap is what the run reports. *)
Lemma executeDownload_unwrap_failure env st fd pp e :
  fileData st = Some fd ->
  fm_passwordProtection fd = Some pp ->
  password_path_open env st ->
  unwrapKeyWithPassword (pp_encryptedKey pp) (password st) (pp_salt pp)
    (pp_iv pp) (pp_iterations pp) = Throw e ->
  let out := executeDownload env st in
  status (fst out) = error /\ errorMsg (fst out) = exn_message e /\
  In (ConsoleError e) (snd out) /\ ~ saved (snd out) /\ ~ confirmed (snd out).
Proof.
  intros Hfd Hpp (Hpw & (t & Ht) & Hv) Hu out. subst out.
  unfold executeDownload. rewrite Hfd. unfold executeDownload_try.
  rewrite Hpp, Ht, Hv, Hu.
  destruct (password st); [contradiction|].
  cbn. repeat split; auto.
  - intros (f & c & [Hin|[Hin|[]]]); discriminate.
  - intros (k & [Hin|[Hin|[]]]); discriminate.
Qed.

(** A failure of the file decryption on the password path is what the
    run reports, whatever became of the metadata. *)
Lemma executeDownload_decrypt_failure_password env st fd pp key url tok
      blob e :
  fileData st = Some fd ->
  fm_passwordProtection fd = Some pp ->
  password_path_open env st ->
  unwrapKeyWithPassword (pp_encryptedKey pp) (password st) (pp_salt pp)
    (pp_iv pp) (pp_iterations pp) = Ok key ->
  token_granted env url tok ->
  blob_response env = Ok (true, blob) ->
  decrypt_payload env fd (Some key) blob = Throw e ->
  let out := executeDownload env st in
  status (fst out) = error /\ errorMsg (fst out) = exn_message e /\
  In (ConsoleError e) (snd out) /\ ~ saved (snd out) /\ ~ confirmed (snd out).
Proof.
  intros Hfd Hpp (Hpw & (t & Ht) & Hv) Hu Hg Hb Hd out. subst out.
  unfold executeDownload. rewrite Hfd. unfold executeDownload_try.
  rewrite Hpp, Ht, Hv, Hu.
  destruct (password st) as [|c0 w]; [contradiction|].
  destruct (decryptMetadataWithKey _ key) as [meta|];
    [destruct (json_truthy meta)|];
    match goal with
    | |- context [download_and_decrypt env fd ?crn (Some key) ?meta ?s ?l] =>
        destruct (download_and_decrypt_failure env fd crn (Some key) meta s l
                    url tok blob e Hg Hb Hd) as [sid' Hrun']
    end;
    rewrite Hrun'; cbn [catch_clause fst snd];
    (split; [reflexivity|]); (split; [reflexivity|]);
    (split; [apply in_app_iff; right; left; reflexivity|]);
    apply (not_saved_prefix [FetchTurnstile t]);
    [ intros (f & c & [Hin|[]]); discriminate
    | intros (k & [Hin|[]]); discriminate
    | intros (f & c & [Hin|[]]); discriminate
    | intros (k & [Hin|[]]); discriminate
    | intros (f & c & [Hin|[]]); discriminate
    | intros (k & [Hin|[]]); discriminate ].
Qed.

(** A failure of the key import or of the file decryption on the
    URL-fragment path is what the run reports. *)
Lemma executeDownload_decrypt_failure_fragment env st fd url tok blob e :
  fileData st = Some fd ->
  fm_passwordProtection fd = None ->
  location_hash env <> [] ->
  token_granted env url tok ->
  blob_response env = Ok (true, blob) ->
  decryptFile blob (location_hash env) (fm_iv fd) = Throw e ->
  let out := executeDownload env st in
  status (fst out) = error /\ errorMsg (fst out) = exn_message e /\
  In (ConsoleError e) (snd out) /\ ~ saved (snd out) /\ ~ confirmed (snd out).
Proof.
  intros Hfd Hpp Hh Hg Hb Hd out. subst out.
  unfold executeDownload. rewrite Hfd. unfold executeDownload_try.
  rewrite Hpp. destruct (location_hash env) as [|c0 h] eqn:Hhash;
    [contradiction|].
  assert (Hd' : decrypt_payload env fd None blob = Throw e).
  { unfold decrypt_payload. rewrite Hpp, Hhash. exact Hd. }
  match goal with
  | |- context [download_and_decrypt env fd ?crn None ?meta ?s ?l] =>
      destruct (download_and_decrypt_failure env fd crn None meta s l
                  url tok blob e Hg Hb Hd') as [sid Hrun]
  end.
  rewrite Hrun. cbn [catch_clause fst snd].
  split; [reflexivity|]. split; [reflexivity|].
  split; [apply in_app_iff; right; left; reflexivity|].
  apply (not_saved_prefix []).
  - intros (f & c & []).
  - intros (k & []).
Qed.

(** The outcome of the confirmation call changes nothing of a run. *)
Lemma executeDownload_confirm_irrelevant env st r :
  executeDownload (with_confirm_response env r) st = executeDownload env st.
Proof.
  unfold executeDownload. destruct (fileData st) as [fd|]; [|reflexivity].
  f_equal. unfold executeDownload_try, download_and_decrypt, decrypt_payload,
    with_confirm_response.
  cbn [location_hash session_id turnstile_response token_response
       blob_response confirm_response cache_response].
  break_run; reflexivity.
Qed.

End WithPlatform.
End DownloadFacts.

Module DownloadTheorems.
Import DownloadPage DownloadFacts.

(** Scenario B of the specification on the small platform: with the
    correct password the file is saved under its real name and the download
    confirmed; with a wrong one the run reports [Incorrect Password] and
    nothing is fetched, saved or confirmed. *)
Example scenario_B :
  executeDownload (H := Toy.platform) DownloadScenario.answers
    (DownloadScenario.page DownloadScenario.record Toy.correct)
  = (mkPageState (Some DownloadScenario.record) done EmptyString Toy.correct
       (Some (lit "report.pdf")) None (Some "turnstile-pass"%string),
     [FetchTurnstile "turnstile-pass";
      FetchDownloadToken (Some "session-1"%string);
      FetchBlob "https://storage.example/blob";
      SaveAs (lit "report.pdf") Toy.plaintext;
      CacheFileInfo (lit "report.pdf");
      FetchConfirmDownload "token-1"]) /\
  executeDownload (H := Toy.platform) DownloadScenario.answers
    (DownloadScenario.page DownloadScenario.record Toy.wrong)
  = (mkPageState (Some DownloadScenario.record) error "Incorrect Password"
       Toy.wrong None None (Some "turnstile-pass"%string),
     [FetchTurnstile "turnstile-pass";
      ConsoleError (Error "Incorrect Password")]).
Proof. vm_compute. split; reflexivity. Qed.

(** C9, as stated, fails: with the correct password, the key unwraps and
    the file decrypts, the decryption of the (damaged) metadata envelope
    throws, and the run ends in status [done] with no error message and no
    error logged: the metadata failure is swallowed. *)
Lemma C9_counterexample :
  let out :=
    executeDownload (H := Toy.platform) DownloadScenario.answers
      (DownloadScenario.page DownloadScenario.damaged_record Toy.correct) in
  unwrapKeyWithPassword (H := Toy.platform)
    (pp_encryptedKey DownloadScenario.protection)
    Toy.correct (pp_salt DownloadScenario.protection)
    (pp_iv DownloadScenario.protection)
    (pp_iterations DownloadScenario.protection)
  = Ok DownloadScenario.unwrapped /\
  decryptMetadataWithKey (H := Toy.platform)
    (fm_encryptedMetadata DownloadScenario.damaged_record)
    DownloadScenario.unwrapped
  = Throw (DOMException InvalidCharacterError) /\
  status (fst out) = done /\
  errorMsg (fst out) = EmptyString /\
  snd out =
  [FetchTurnstile "turnstile-pass";
   FetchDownloadToken (Some "session-1"%string);
   FetchBlob "https://storage.example/blob";
   SaveAs (up_publicName DownloadScenario.upload) Toy.plaintext;
   CacheFileInfo (up_publicName DownloadScenario.upload);
   FetchConfirmDownload "token-1"].
Proof. vm_compute. repeat split; reflexivity. Qed.

(** C9, amended (error propagation).  A failure of the password unwrap,
    and a failure of the file decryption on the password path or of the key
    import and file decryption on the URL-fragment path, end the run in
    status [error] with the message of that exception, logged, and nothing
    saved or confirmed.  What the run shows does not depend on the metadata
    envelope, so a failure of the metadata decryption is silent; and
    nothing of the run depends on the outcome of the confirmation call. *)
Theorem C9_error_propagation `{P : Platform} :
  (forall env st fd pp e,
      fileData st = Some fd ->
      fm_passwordProtection fd = Some pp ->
      password_path_open env st ->
      unwrapKeyWithPassword (pp_encryptedKey pp) (password st) (pp_salt pp)
        (pp_iv pp) (pp_iterations pp) = Throw e ->
      let out := executeDownload env st in
      status (fst out) = error /\ errorMsg (fst out) = exn_message e /\
      In (ConsoleError e) (snd out) /\ ~ saved (snd out) /\
      ~ confirmed (snd out)) /\
  (forall env st fd pp key url tok blob e,
      fileData st = Some fd ->
      fm_passwordProtection fd = Some pp ->
      password_path_open env st ->
      unwrapKeyWithPassword (pp_encryptedKey pp) (password st) (pp_salt pp)
        (pp_iv pp) (pp_iterations pp) = Ok key ->
      token_granted env url tok ->
      blob_response env = Ok (true, blob) ->
      decrypt_payload env fd (Some key) blob = Throw e ->
      let out := executeDownload env st in
      status (fst out) = error /\ errorMsg (fst out) = exn_message e /\
      In (ConsoleError e) (snd out) /\ ~ saved (snd out) /\
      ~ confirmed (snd out)) /\
  (forall env st fd url tok blob e,
      fileData st = Some fd ->
      fm_passwordProtection fd = None ->
      location_hash env <> [] ->
      token_granted env url tok ->
      blob_response env = Ok (true, blob) ->
      decryptFile blob (location_hash env) (fm_iv fd) = Throw e ->
      let out := executeDownload env st in
      status (fst out) = error /\ errorMsg (fst out) = exn_message e /\
      In (ConsoleError e) (snd out) /\ ~ saved (snd out) /\
      ~ confirmed (snd out)) /\
  (forall env st m,
      shown (fst (executeDownload env (with_encryptedMetadata st m)))
      = shown (fst (executeDownload env st))) /\
  (forall env st r,
      executeDownload (with_confirm_response env r) st
      = executeDownload env st).
Proof.
  split; [|split; [|split; [|split]]].
  - apply executeDownload_unwrap_failure.
  - apply executeDownload_decrypt_failure_password.
  - apply executeDownload_decrypt_failure_fragment.
  - apply executeDownload_metadata_irrelevant.
  - apply executeDownload_confirm_irrelevant.
Qed.

End DownloadTheorems.

(** ** The theorems at concrete inputs *)

Module Witnesses.
Import Convex DownloadPage.

Section OnToy.
#[local] Existing Instance Toy.platform.

Lemma upload_file :
  encryptFile Toy.plaintext Toy.key (advance Toy.entropy 32)
  = (Ok DownloadScenario.uploaded, advance (advance Toy.entropy 32) 12).
Proof. vm_compute. reflexivity. Qed.

Lemma upload_file_again :
  encryptFile Toy.plaintext Toy.key (advance Toy.entropy 44)
  = (Ok DownloadScenario.uploaded_again, advance (advance Toy.entropy 44) 12).
Proof. vm_compute. reflexivity. Qed.

Lemma upload_metadata :
  encryptMetadata Toy.metadata Toy.key (advance Toy.entropy 44)
  = (Ok DownloadScenario.envelope, advance (advance Toy.entropy 44) 12).
Proof. vm_compute. reflexivity. Qed.

Lemma upload_wrapping :
  wrapKeyWithPassword Toy.key Toy.correct (advance Toy.entropy 64)
  = (Ok DownloadScenario.wrapped,
     advance (advance (advance Toy.entropy 64) 16) 12).
Proof. vm_compute. reflexivity. Qed.

Lemma returned_eq {A} (a b : A) (e e' : Entropy) :
  (Ok a, e) = (Ok b, e') -> a = b.
Proof. intros H. congruence. Qed.

(** C1 on the concrete upload: the stored ciphertext decrypts, with the key
    string and IV string of the upload, to the plaintext. *)
Lemma C1_witness :
  freshly_generated Toy.key /\
  decryptFile (encryptedBlob DownloadScenario.uploaded)
    (keyString DownloadScenario.uploaded) (iv DownloadScenario.uploaded)
  = Ok Toy.plaintext.
Proof.
  split; [exact ToyFacts.key_generated|].
  destruct (C1_payload_round_trip ToyFacts.aead_correct ToyFacts.jwk_text_latin1
              ToyFacts.json_roundtrip ToyFacts.jwk_roundtrip Toy.plaintext
              Toy.key (advance Toy.entropy 32) ToyFacts.key_generated)
    as (r & e' & Hr & Hd & _).
  rewrite upload_file in Hr. apply returned_eq in Hr. subst r. exact Hd.
Defined.

(** C2 on the concrete upload: the metadata envelope decrypts to the
    metadata, with the key and with its transport string. *)
Lemma C2_witness :
  file_key Toy.key /\
  decryptMetadataWithKey DownloadScenario.envelope Toy.key = Ok Toy.metadata /\
  decryptMetadata DownloadScenario.envelope (keyString DownloadScenario.uploaded)
  = Ok Toy.metadata.
Proof.
  split; [exact ToyFacts.key_file_key|].
  destruct (C2_metadata_round_trip ToyFacts.aead_correct ToyFacts.utf8_roundtrip
              ToyFacts.json_roundtrip ToyFacts.jwk_text_latin1
              ToyFacts.jwk_roundtrip Toy.metadata Toy.key
              (advance Toy.entropy 44) ToyFacts.key_file_key)
    as (s & e' & Hs & Hk & Hstr).
  rewrite upload_metadata in Hs. apply returned_eq in Hs. subst s.
  split; [exact Hk|]. exact (Hstr _ _ _ _ upload_file).
Defined.

(** C3 on the concrete upload: the wrapping unwraps with its password. *)
Lemma C3_witness :
  file_key Toy.key /\
  exists K',
    unwrapKeyWithPassword (wk_encryptedKey DownloadScenario.wrapped) Toy.correct
      (wk_salt DownloadScenario.wrapped) (wk_iv DownloadScenario.wrapped)
      (Some (wk_iterations DownloadScenario.wrapped))
    = Ok K' /\
    key_material K' = key_material Toy.key /\
    decrypts_what_encrypted K' Toy.key.
Proof.
  split; [exact ToyFacts.key_file_key|].
  destruct (C3_password_wrap_round_trip ToyFacts.aead_correct Toy.key
              Toy.correct (advance Toy.entropy 64) ToyFacts.key_file_key)
    as (w & e' & K' & Hw & Hu & Hm & _ & Hdec).
  rewrite upload_wrapping in Hw. apply returned_eq in Hw. subst w.
  exists K'. auto.
Defined.

(** C4 on the concrete upload: the wrapping tried with another password is
    refused. *)
Lemma C4_witness :
  Toy.correct <> Toy.wrong /\
  unwrapKeyWithPassword (wk_encryptedKey DownloadScenario.wrapped) Toy.wrong
    (wk_salt DownloadScenario.wrapped) (wk_iv DownloadScenario.wrapped)
    (Some (wk_iterations DownloadScenario.wrapped))
  = Throw (Error "Incorrect Password").
Proof.
  split; [discriminate|].
  destruct (C4_wrong_password_rejected Toy.key Toy.correct Toy.wrong
              (advance Toy.entropy 64) DownloadScenario.wrapped _
              upload_wrapping) as [Hreject _].
  apply Hreject. vm_compute. reflexivity.
Defined.

Lemma upload_metadata_again :
  encryptMetadata Toy.metadata Toy.key (advance Toy.entropy 56)
  = (Ok DownloadScenario.envelope_again, advance (advance Toy.entropy 56) 12).
Proof. vm_compute. reflexivity. Qed.

(** C5 on two encryptions of the concrete plaintext and two of the concrete
    metadata under the concrete key: the draws differ, and so do the IV
    strings, the ciphertexts and the metadata envelopes, which hold the
    metadata encrypted under the drawn IVs. *)
Lemma C5_witness :
  file_key Toy.key /\
  drawn (advance Toy.entropy 32) 12 <> drawn (advance Toy.entropy 44) 12 /\
  iv DownloadScenario.uploaded <> iv DownloadScenario.uploaded_again /\
  encryptedBlob DownloadScenario.uploaded
  <> encryptedBlob DownloadScenario.uploaded_again /\
  drawn (advance Toy.entropy 44) 12 <> drawn (advance Toy.entropy 56) 12 /\
  DownloadScenario.envelope
  = Base64.encode
      (String_fromCharCode
         (drawn (advance Toy.entropy 44) 12 ++
          aes_gcm_encrypt (key_material Toy.key)
            (drawn (advance Toy.entropy 44) 12)
            (TextEncoder_encode (JSON_stringify Toy.metadata)))) /\
  DownloadScenario.envelope_again
  = Base64.encode
      (String_fromCharCode
         (drawn (advance Toy.entropy 56) 12 ++
          aes_gcm_encrypt (key_material Toy.key)
            (drawn (advance Toy.entropy 56) 12)
            (TextEncoder_encode (JSON_stringify Toy.metadata)))) /\
  aes_gcm_encrypt (key_material Toy.key) (drawn (advance Toy.entropy 44) 12)
    (TextEncoder_encode (JSON_stringify Toy.metadata))
  <> aes_gcm_encrypt (key_material Toy.key)
       (drawn (advance Toy.entropy 56) 12)
       (TextEncoder_encode (JSON_stringify Toy.metadata)) /\
  DownloadScenario.envelope <> DownloadScenario.envelope_again.
Proof.
  split; [exact ToyFacts.key_file_key|].
  assert (Hd : drawn (advance Toy.entropy 32) 12 <> drawn (advance Toy.entropy 44) 12)
    by (vm_compute; discriminate).
  assert (Hd' : drawn (advance Toy.entropy 44) 12
                <> drawn (advance Toy.entropy 56) 12)
    by (vm_compute; discriminate).
  split; [exact Hd|].
  destruct (C5_iv_fresh_per_call ToyFacts.aead_iv_injective
              ToyFacts.jwk_text_latin1 Toy.plaintext Toy.metadata Toy.key
              ToyFacts.key_file_key) as (_ & _ & Htwice & Hmeta).
  destruct (Htwice _ _ _ _ _ _ upload_file upload_file_again Hd)
    as (Hiv & _ & Hblob).
  destruct (Hmeta _ _ _ _ _ _ upload_metadata upload_metadata_again Hd')
    as (Hs1 & Hs2 & Hct & Henv).
  auto 10.
Defined.

Lemma legacy_wrapping :
  wrapping_of Toy.key Toy.correct 100000 DownloadScenario.legacy_encryptedKey
    (Base64.encode (String_fromCharCode DownloadScenario.legacy_salt))
    (Base64.encode (String_fromCharCode DownloadScenario.legacy_nonce)).
Proof.
  exists DownloadScenario.legacy_salt, DownloadScenario.legacy_nonce.
  repeat split; reflexivity.
Qed.

(** C7 on the concrete key: its wrapping is made, records 310000 and
    unwraps with the recorded count; and a wrapping of it made at the legacy
    count unwraps with 100000 supplied and with nothing supplied. *)
Lemma C7_witness :
  (exists w e' K',
      wrapKeyWithPassword Toy.key Toy.correct (advance Toy.entropy 64)
      = (Ok w, e') /\
      wk_iterations w = 310000%Z /\
      unwrapKeyWithPassword (wk_encryptedKey w) Toy.correct (wk_salt w)
        (wk_iv w) (Some (wk_iterations w))
      = Ok K' /\
      key_material K' = key_material Toy.key) /\
  valid_iterations 100000 /\
  exists K',
    unwrapKeyWithPassword DownloadScenario.legacy_encryptedKey Toy.correct
      (Base64.encode (String_fromCharCode DownloadScenario.legacy_salt))
      (Base64.encode (String_fromCharCode DownloadScenario.legacy_nonce))
      (Some 100000%Z)
    = Ok K' /\
    unwrapKeyWithPassword DownloadScenario.legacy_encryptedKey Toy.correct
      (Base64.encode (String_fromCharCode DownloadScenario.legacy_salt))
      (Base64.encode (String_fromCharCode DownloadScenario.legacy_nonce))
      None
    = Ok K' /\
    key_material K' = key_material Toy.key.
Proof.
  assert (Hv : valid_iterations 100000) by (unfold valid_iterations; lia).
  destruct (C7_iteration_compatibility ToyFacts.aead_correct)
    as (Hwrap & _ & _ & _ & _ & Hany & Hlegacy).
  split; [|split; [exact Hv|]].
  - destruct (Hwrap Toy.key Toy.correct (advance Toy.entropy 64) eq_refl
                eq_refl) as (w & e' & Hw & Hit & Hwr).
    assert (Hvw : valid_iterations (wk_iterations w))
      by (rewrite Hit; unfold valid_iterations; lia).
    destruct (Hany Toy.key Toy.correct (wk_iterations w) _ _ _
                ToyFacts.key_file_key Hvw Hwr) as (K' & Hu & Hm).
    exists w, e', K'. auto.
  - exact (Hlegacy Toy.key Toy.correct _ _ _ ToyFacts.key_file_key
             legacy_wrapping).
Defined.

(** C8 on the metadata envelope of the concrete upload. *)
Lemma C8_witness :
  fst (encryptMetadata Toy.metadata Toy.key (advance Toy.entropy 44))
  = Ok (Base64.encode
          (String_fromCharCode
             (drawn (advance Toy.entropy 44) 12 ++
              Toy.encrypt (key_material Toy.key)
                (drawn (advance Toy.entropy 44) 12) Toy.metadata))) /\
  length (drawn (advance Toy.entropy 44) 12) = 12 /\
  length (Toy.encrypt (key_material Toy.key)
            (drawn (advance Toy.entropy 44) 12) Toy.metadata)
  = length Toy.metadata + 16.
Proof.
  destruct (C8_metadata_wire_format ToyFacts.aead_tag_16) as (Hfmt & _).
  destruct (Hfmt Toy.metadata Toy.key (advance Toy.entropy 44) _ _
              upload_metadata)
    as (nonce & ct & Hs & Hn & Hct & Hl).
  split; [reflexivity|]. split; [reflexivity|]. reflexivity.
Defined.

(** C9 on the concrete download with a wrong password. *)
Lemma C9_witness :
  let out := executeDownload DownloadScenario.answers
               (DownloadScenario.page DownloadScenario.record Toy.wrong) in
  status (fst out) = error /\
  errorMsg (fst out) = "Incorrect Password"%string /\
  ~ saved (snd out) /\ ~ confirmed (snd out).
Proof.
  destruct (DownloadTheorems.C9_error_propagation (P := Toy.platform))
    as (Hunwrap & _).
  destruct (Hunwrap DownloadScenario.answers
              (DownloadScenario.page DownloadScenario.record Toy.wrong)
              DownloadScenario.record DownloadScenario.protection
              (Error "Incorrect Password") eq_refl eq_refl)
    as (Hs & Hm & _ & Hsv & Hc).
  - split; [discriminate|]. split; [|reflexivity].
    exists "turnstile-pass"%string. reflexivity.
  - vm_compute. reflexivity.
  - auto.
Defined.

End OnToy.

(** C6 on scenario C: the confirmation of [t3] and its repetition. *)
Lemma C6_witness :
  confirmDownload Scenario.after_requests 2000 "t3"
  = (ConfirmSuccess, Scenario.after_confirm) /\
  counter_of Scenario.after_requests 0 = Some 0%Z /\
  counter_of Scenario.after_confirm 0 = Some 1%Z /\
  confirmDownload Scenario.after_confirm 2001 "t3"
  = (ConfirmFailed TOKEN_USED, Scenario.after_confirm).
Proof.
  destruct (ConvexTheorems.C6_two_phase_counter_guard Scenario.getUrl)
    as (_ & _ & Hconfirm).
  destruct (Hconfirm Scenario.after_requests 2000%Z "t3"%string
              (mkTokenDoc 3 0 "t3" 1002 false 301002)
              (mkFileDoc 7 None (lit "File-k3x9q2ab") (lit "bWV0YQ==")
                 (lit "aXY=") None None (Some 0%Z) None None))
    as (db' & Hrun & Hcount & _ & Hagain).
  - vm_compute. reflexivity.
  - vm_compute. discriminate.
  - reflexivity.
  - vm_compute. reflexivity.
  - reflexivity.
  - assert (Hdb : db' = Scenario.after_confirm)
      by (unfold Scenario.after_confirm; rewrite Hrun; reflexivity).
    subst db'. split; [exact Hrun|]. split; [vm_compute; reflexivity|].
    split; [exact Hcount|]. apply Hagain. vm_compute. discriminate.
Defined.

(** C10 on the file limited to one download: its counter is within the
    limit, and the confirmation of the second token is refused. *)
Lemma C10_witness :
  (forall file,
      files Scenario.limited_db !! 0 = Some file ->
      maxDownloads file = Some (Number_of_Z 1) ->
      (0 <= counter file <= 1)%Z) /\
  fst (confirmDownload Scenario.limited_db 2001 "token-b")
  = ConfirmFailed LIMIT_REACHED /\
  counter_of Scenario.limited_db 0 = Some 1%Z /\
  counter_of (snd (confirmDownload Scenario.limited_db 2001 "token-b")) 0
  = Some 1%Z /\
  ~ In 2 (map tok_id
            (downloadTokens
               (snd (confirmDownload Scenario.limited_db 2001 "token-b")))).
Proof.
  destruct (ConvexTheorems.C10_download_limit_invariant Scenario.getUrl)
    as (Hint & _ & _ & _ & Hguard).
  split.
  { intros file Hlook Hmax.
    apply (Hint Scenario.limited_db 0 file (QArith_base.inject_Z 1) 1%Z).
    - apply ConvexTheorems.reachable_calls. constructor.
    - exact Hlook.
    - exact Hmax.
    - reflexivity.
    - lia. }
  destruct (Hguard Scenario.limited_db 2001%Z "token-b"%string
              (mkTokenDoc 2 0 "token-b" 1001 false 301001)
              (mkFileDoc 7 None (lit "File-k3x9q2ab") (lit "bWV0YQ==")
                 (lit "aXY=") None (Some (Number_of_Z 1)) (Some 1%Z)
                 (Some 2000%Z) None))
    as (db' & Hrun & _ & Hcount & Hgone).
  - vm_compute. reflexivity.
  - vm_compute. discriminate.
  - reflexivity.
  - vm_compute. reflexivity.
  - vm_compute. reflexivity.
  - rewrite Hrun. cbn [fst snd]. split; [reflexivity|].
    split; [vm_compute; reflexivity|]. split; [exact Hcount|].
    intros Hin. apply in_map_iff in Hin as (t & Hid & Ht).
    exact (Hgone t Ht Hid).
Defined.

End Witnesses.

(* ===================================================================== *)
(** * Part III: further properties of the modelled code                   *)
(* ===================================================================== *)

(** ** The public label and the outputs of [encryptFile] *)

Module LabelFacts.
Import Base64 Base64Facts.

Lemma label_char_lower_alnum k :
  lower_alnum (nth (k mod length label_chars) label_chars 0%N) = true.
Proof.
  assert (Hk : k mod length label_chars < 36).
  { change (length label_chars) with 36. apply Nat.mod_upper_bound. lia. }
  assert (Hall : forallb (fun i => lower_alnum (nth i label_chars 0%N))
                   (seq 0 36) = true) by (vm_compute; reflexivity).
  rewrite forallb_forall in Hall. apply Hall, in_seq. lia.
Qed.

Lemma safe_char_url_safe s :
  is_sextet s -> url_safe (to_safe_char (b64_char s)) = true.
Proof.
  revert s. apply (sextet_forall (fun s => url_safe (to_safe_char (b64_char s)))).
  vm_compute. reflexivity.
Qed.

Lemma length_encode (bs : list N) :
  length (encode bs) = 4 * ((length bs + 2) / 3).
Proof.
  unfold encode. rewrite length_app, length_map, length_sextets_of,
    length_padding. divlia.
Qed.

(** X1 (format of the public label).
    The label is [File-] and eight lower-case letters or digits, whatever
    the random source gives, and eight bytes of it are used. *)
Theorem generatePublicLabel_format (e : Entropy) :
  exists suffix,
    generatePublicLabel e = (Ok (lit "File-" ++ suffix), advance e 8) /\
    length suffix = 8 /\
    Forall (fun c => lower_alnum c = true) suffix.
Proof.
  eexists. split; [reflexivity|]. split.
  - rewrite length_map. apply length_drawn.
  - apply Forall_map, Forall_forall. intros b _. apply label_char_lower_alnum.
Qed.

Section WithPlatform.
Context `{P : Platform}.

(** X2 (the key string is URL-safe).
    The key string [encryptFile] returns can go into a URL fragment as it
    is: letters, digits, [-] and [_] only, no padding; its length is that
    of the unpadded Base64 of the key's JSON text. *)
Theorem encryptFile_keyString_url_safe (file : bytes) (K : CryptoKey)
    (e : Entropy) :
  jwk_text_latin1 P -> file_key K ->
  exists out,
    encryptFile file K e = (Ok out, advance e 12) /\
    Forall (fun c => url_safe c = true) (keyString out) /\
    length (keyString out)
    = (4 * length (JSON_stringify (jwk_export K)) + 2) / 3.
Proof.
  intros Hl HK. eexists. split; [apply encryptFile_spec; assumption|].
  cbn [keyString]. rewrite toUrlSafe_encode by apply Hl. split.
  - rewrite Forall_map, Forall_map. eapply Forall_impl.
    + apply sextets_of_is_sextet, Hl.
    + intros s Hs. apply safe_char_url_safe, Hs.
  - rewrite !length_map. apply length_sextets_of.
Qed.

(** X3 (sizes of what [encryptFile] returns).
    The ciphertext [encryptFile] returns is sixteen bytes longer than the
    file; the IV is twelve bytes, and the IV string is their sixteen
    characters of Base64, which [atob] turns back into them. *)
Theorem encryptFile_sizes (file : bytes) (K : CryptoKey) (e : Entropy) :
  jwk_text_latin1 P -> aead_tag_16 P -> file_key K ->
  exists out,
    encryptFile file K e = (Ok out, advance e 12) /\
    length (encryptedBlob out) = length file + 16 /\
    length (ivBytes out) = 12 /\
    length (iv out) = 16 /\
    rbind (atob (iv out)) (fun d => Ok (Uint8Array_from d)) = Ok (ivBytes out).
Proof.
  intros Hl Ht HK. eexists. split; [apply encryptFile_spec; assumption|].
  cbn [encryptedBlob ivBytes iv]. split; [apply Ht|].
  split; [apply length_drawn|]. split.
  - rewrite length_encode, length_fromCharCode, length_drawn. reflexivity.
  - apply atob_bytes.
Qed.

End WithPlatform.
End LabelFacts.

(** ** [generatePassword] *)

Module PasswordGeneratorFacts.
Import PasswordGenerator.

Lemma drawn_app e a b :
  drawn e (a + b) = drawn e a ++ drawn (advance e a) b.
Proof. unfold drawn, advance. cbn [ent_stream ent_pos]. rewrite seq_app, map_app. reflexivity. Qed.













End PasswordGeneratorFacts.

(** ** The password utilities *)

Section PasswordExtras.
Context `{P : Platform}.

Lemma atob_throws s x :
  atob s = Throw x -> x = DOMException InvalidCharacterError.
Proof. unfold atob. destruct (Base64.decode s); congruence. Qed.

Lemma not_base64_ok s x : atob s = Throw x -> ~ base64_ok s.
Proof. intros Hs [d Hd]. congruence. Qed.

(** X5 (the outcomes of an unwrap).
    With an iteration count that [deriveKey] accepts (or none, or zero,
    which fall back to the legacy count), [unwrapKeyWithPassword] ends in
    one of three ways: a file key for both directions; an
    [InvalidCharacterError], exactly when one of the three strings is not
    Base64; or [Incorrect Password]. *)
Theorem unwrapKeyWithPassword_outcomes (encryptedKeyStr password saltStr
    ivStr : jsstring) (iterations : option Z) :
  valid_iterations (number_or iterations LEGACY_ITERATIONS) ->
  match unwrapKeyWithPassword encryptedKeyStr password saltStr ivStr
          iterations with
  | Ok K =>
      file_key K /\ key_usages K = [usage_encrypt; usage_decrypt] /\
      base64_ok saltStr /\ base64_ok ivStr /\ base64_ok encryptedKeyStr
  | Throw x =>
      (x = DOMException InvalidCharacterError /\
       ~ (base64_ok saltStr /\ base64_ok ivStr /\ base64_ok encryptedKeyStr))
      \/ (x = Error "Incorrect Password" /\
          base64_ok saltStr /\ base64_ok ivStr /\ base64_ok encryptedKeyStr)
  end.
Proof using Type.
  intros Hn. unfold unwrapKeyWithPassword.
  destruct (atob saltStr) as [s|x] eqn:Hs; cbn [rbind].
  2:{ left. split; [eapply atob_throws, Hs|].
      intros (H1 & _). eapply not_base64_ok; eauto. }
  destruct (atob ivStr) as [i|x] eqn:Hi; cbn [rbind].
  2:{ left. split; [eapply atob_throws, Hi|].
      intros (_ & H1 & _). eapply not_base64_ok; eauto. }
  destruct (atob encryptedKeyStr) as [k|x] eqn:Hk; cbn [rbind].
  2:{ left. split; [eapply atob_throws, Hk|].
      intros (_ & _ & H1). eapply not_base64_ok; eauto. }
  assert (Hok : base64_ok saltStr /\ base64_ok ivStr /\ base64_ok encryptedKeyStr)
    by (repeat split; eexists; eassumption).
  rewrite derivePasswordKey_Simple_ok by exact Hn. cbn [rbind].
  rewrite subtle_decrypt_ok by (cbn; auto). cbn [key_material].
  destruct (aes_gcm_decrypt _ _ _) as [raw|]; cbn [rbind try_catch_throw];
    [|right; tauto].
  unfold subtle_importKey_raw_aes. cbn [forallb aes_usage_ok andb negb].
  destruct (aes_key_length_ok raw) eqn:Hlen; cbn [negb try_catch_throw];
    [|right; tauto].
  split; [|tauto]. unfold file_key.
  cbn [key_algorithm key_extractable key_usages key_material In].
  apply aes_key_length_ok_iff in Hlen. tauto.
Qed.

(** X6 (format of the wrapping record).
    [wrapKeyWithPassword] succeeds for every file key and every password,
    the empty one too, on 28 bytes of the random source.  The record says
    310000 iterations and version 2; the salt is 24 characters of Base64,
    the IV 16, and the wrapped key those of the key's bytes and the 16-byte
    tag. *)
Theorem wrapKeyWithPassword_format (fileKey : CryptoKey) (password : jsstring)
    (e : Entropy) :
  aead_tag_16 P -> file_key fileKey ->
  exists w,
    wrapKeyWithPassword fileKey password e
    = (Ok w, advance (advance e 16) 12) /\
    wk_iterations w = 310000%Z /\ wk_version w = 2%Z /\
    length (wk_salt w) = 24 /\ length (wk_iv w) = 16 /\
    length (wk_encryptedKey w)
    = 4 * ((length (key_material fileKey) + 18) / 3) /\
    (length (key_material fileKey) = 32 -> length (wk_encryptedKey w) = 64).
Proof using Type.
  intros Ht (Ha & Hx & _). eexists.
  split; [apply wrapKeyWithPassword_spec; assumption|].
  cbn [wk_iterations wk_version wk_salt wk_iv wk_encryptedKey].
  rewrite !LabelFacts.length_encode, !length_fromCharCode, !length_drawn, Ht.
  repeat split; try reflexivity.
  - f_equal. f_equal. lia.
  - intros ->. reflexivity.
Qed.

(** X7 ([derivePasswordKey] fits the wrapping).
    The exported [derivePasswordKey], given the salt string and the
    iteration count of a wrapping (or no count), derives the key that
    wrapped it: it decrypts the wrapped key to the raw bytes of the file
    key.  Unlike the key the wrap and unwrap functions derive, it is
    extractable. *)
Theorem derivePasswordKey_matches_wrapping (fileKey : CryptoKey)
    (password : jsstring) (e e' : Entropy) (w : WrappedKey)
    (iterations : option Z) :
  aead_correct P ->
  wrapKeyWithPassword fileKey password e = (Ok w, e') ->
  iterations = None \/ iterations = Some (wk_iterations w) ->
  exists passwordKey ivDecoded encryptedKeyDecoded,
    derivePasswordKey password (wk_salt w) iterations = Ok passwordKey /\
    key_extractable passwordKey = true /\
    atob (wk_iv w) = Ok ivDecoded /\
    atob (wk_encryptedKey w) = Ok encryptedKeyDecoded /\
    subtle_decrypt (Uint8Array_from ivDecoded) passwordKey
      (Uint8Array_from encryptedKeyDecoded)
    = Ok (key_material fileKey).
Proof using Type.
  intros Hc Hw Hits.
  apply wrapKeyWithPassword_inv in Hw. destruct Hw as (Ha & Hx & ->).
  cbn [wk_salt wk_iv wk_encryptedKey wk_iterations] in *.
  assert (Hd : derivePasswordKey password
                 (Base64.encode (String_fromCharCode (drawn e 16))) iterations
               = Ok (mkCryptoKey AES_GCM true [usage_encrypt; usage_decrypt]
                       (pbkdf2_hmac_sha256 (TextEncoder_encode password)
                          (drawn e 16) CURRENT_ITERATIONS))).
  { unfold derivePasswordKey.
    cbn [subtle_importKey_raw_pbkdf2 forallb pbkdf2_usage_ok andb negb rbind].
    rewrite atob_encode by apply fromCharCode_is_octet. cbn [rbind].
    rewrite Uint8Array_from_fromCharCode.
    destruct Hits as [-> | ->]; reflexivity. }
  eexists _, _, _. split; [exact Hd|]. split; [reflexivity|].
  split; [apply atob_encode, fromCharCode_is_octet|].
  split; [apply atob_encode, fromCharCode_is_octet|].
  rewrite !Uint8Array_from_fromCharCode.
  rewrite subtle_decrypt_ok by (cbn; auto). cbn [key_material].
  rewrite Hc. reflexivity.
Qed.

End PasswordExtras.

(** ** [convex/files.ts]: availability, rate limiting and tokens *)

Module ConvexExtras.
Import Convex ConvexQueries ConvexFacts.

Lemma expired_later f now now' :
  (now <= now')%Z -> expired f now = true -> expired f now' = true.
Proof.
  unfold expired. destruct (expiresAt f) as [t|]; [|discriminate].
  intros Hle H. apply andb_prop in H as [H0 Hlt]. rewrite H0. cbn [andb].
  apply Z.ltb_lt in Hlt. apply Z.ltb_lt. lia.
Qed.

(** What phase 1 answers for a file that is there, in terms of the rate
    limiter's verdict. *)
Lemma getDownloadToken_not_limited getUrl db now uuid fileId sessionId file :
  files db !! fileId = Some file ->
  (forall retry,
     fst (getDownloadToken getUrl db now uuid fileId sessionId)
     <> RateLimited retry) ->
  fst (getDownloadToken getUrl db now uuid fileId sessionId)
  = if expired file now || limit_reached file then TokenNull
    else TokenIssued (getUrl (storageId file)) uuid TOKEN_TTL.
Proof.
  intros Hf. unfold getDownloadToken. rewrite Hf.
  destruct (passwordProtection file), (session_given sessionId);
    try destruct (Nat.leb _ _); cbn [fst];
    try (intros Hn; exfalso; eapply Hn; reflexivity);
    intros _; destruct (expired file now), (limit_reached file); reflexivity.
Qed.

(** X8 (availability).
    The download page and phase 1 agree on whether a file is available:
    when [getFileMeta] shows no file, no token is issued then or later;
    when it shows one, a token request at that time is granted unless the
    rate limiter refuses it. *)
Theorem getFileMeta_agrees_with_getDownloadToken
    (getUrl : nat -> option string) (db : Db) (now now' : Z) (uuid : string)
    (fileId : Id) (sessionId : option string) :
  (now <= now')%Z ->
  match getFileMeta db now fileId with
  | None =>
      forall url token ttl,
        fst (getDownloadToken getUrl db now' uuid fileId sessionId)
        <> TokenIssued url token ttl
  | Some v =>
      view_id v = fileId /\
      ((exists url,
          fst (getDownloadToken getUrl db now uuid fileId sessionId)
          = TokenIssued url uuid TOKEN_TTL)
       \/ (exists retry,
             fst (getDownloadToken getUrl db now uuid fileId sessionId)
             = RateLimited retry))
  end.
Proof.
  intros Hle. unfold getFileMeta.
  destruct (files db !! fileId) as [file|] eqn:Hf.
  2:{ intros url token ttl. unfold getDownloadToken. rewrite Hf. discriminate. }
  destruct (expired file now) eqn:He.
  { intros url token ttl. pose proof (expired_later _ _ _ Hle He) as He'.
    unfold getDownloadToken. rewrite Hf, He'.
    destruct (passwordProtection file), (session_given sessionId);
      try destruct (Nat.leb _ _); discriminate. }
  destruct (limit_reached file) eqn:Hl.
  { intros url token ttl. unfold getDownloadToken. rewrite Hf, Hl.
    destruct (passwordProtection file), (session_given sessionId);
      try destruct (Nat.leb _ _); destruct (expired file now'); discriminate. }
  split; [reflexivity|].
  unfold getDownloadToken. rewrite Hf, He, Hl.
  destruct (passwordProtection file), (session_given sessionId);
    try destruct (Nat.leb _ _); cbn [fst]; eauto.
Qed.

Lemma In_files_in_order db id f :
  In (id, f) (files_in_order db) -> files db !! id = Some f.
Proof.
  unfold files_in_order. intros Hin. apply list_elem_of_In in Hin.
  apply list_elem_of_omap in Hin. destruct Hin as (i & _ & Hi).
  destruct (files db !! i) as [g|] eqn:Hg; [|discriminate].
  cbn in Hi. injection Hi as <- <-. exact Hg.
Qed.

(** X9 (the dashboard's expiry flag).
    Every entry of the dashboard list is a file of the signed-in user, and
    its [isExpired] flag says exactly that the download page would show no
    file; a reason is given exactly when the flag is set, and it is the
    download limit whenever the limit is reached, expired or not. *)
Theorem getUserFiles_isExpired (db : Db) (user : string) (now : Z)
    (v : UserFileView) :
  In v (getUserFiles db (Some user) now) ->
  exists file,
    files db !! uf_id v = Some file /\ userId file = Some user /\
    (uf_isExpired v = true <-> getFileMeta db now (uf_id v) = None) /\
    (uf_isExpired v = true <-> uf_expiredReason v <> None) /\
    (limit_reached file = true -> uf_expiredReason v = Some download_limit).
Proof.
  unfold getUserFiles. intros Hin. apply in_map_iff in Hin.
  destruct Hin as ([id f] & <- & Hin). apply filter_In in Hin as [Hin Hown].
  apply In_files_in_order in Hin. cbn [fst snd] in *.
  exists f. unfold user_file_view. cbn [uf_id uf_isExpired uf_expiredReason].
  split; [exact Hin|]. split.
  { unfold owned_by in Hown. destruct (userId f) as [o|]; [|discriminate].
    apply String.eqb_eq in Hown. congruence. }
  unfold getFileMeta. rewrite Hin.
  destruct (expired f now), (limit_reached f); cbn [orb];
    repeat split; intros; try congruence; try discriminate.
Qed.

(** ** The rate limiter *)

Lemma fold_min_le ts : forall t, (fold_left Z.min ts t <= t)%Z.
Proof.
  induction ts as [|x ts IH]; intros t; cbn [fold_left]; [lia|].
  specialize (IH (Z.min t x)). lia.
Qed.

Lemma fold_min_In ts : forall t,
  fold_left Z.min ts t = t \/ In (fold_left Z.min ts t) ts.
Proof.
  induction ts as [|x ts IH]; intros t; cbn [fold_left]; [auto|].
  destruct (IH (Z.min t x)) as [H|H].
  - rewrite H. destruct (Z.min_spec t x) as [[_ ->]|[_ ->]]; [auto|].
    right. left. reflexivity.
  - right. right. exact H.
Qed.

Lemma minimum_In ts : ts <> [] -> In (minimum ts) ts.
Proof.
  destruct ts as [|t ts]; [contradiction|]. intros _. unfold minimum.
  destruct (fold_min_In ts t) as [-> | H]; [left; reflexivity|right; exact H].
Qed.

Lemma ceil_minutes_bounds x :
  (0 < x <= RATE_LIMIT_WINDOW)%Z -> (1 <= ceil_minutes x <= 15)%Z.
Proof. unfold ceil_minutes, RATE_LIMIT_WINDOW. intros Hx. divlia. Qed.

(** X10 (what a rate-limit refusal says).
    A refusal by the rate limiter changes nothing in the database and
    tells the client to come back in 1 to 15 minutes, when no attempt on
    record is in the future.  It is given only for a password-protected
    file, to a request with a session id that has five attempts on record
    in the last 15 minutes. *)
Theorem rate_limited_retry_bounds (getUrl : nat -> option string) (db : Db)
    (now : Z) (uuid : string) (fileId : Id) (sessionId : option string)
    (retry : Z) :
  (forall a, In a (downloadAttempts db) -> (att_attemptTime a <= now)%Z) ->
  fst (getDownloadToken getUrl db now uuid fileId sessionId)
  = RateLimited retry ->
  (1 <= retry <= 15)%Z /\
  snd (getDownloadToken getUrl db now uuid fileId sessionId) = db /\
  exists file wrapping sid,
    files db !! fileId = Some file /\
    passwordProtection file = Some wrapping /\
    session_given sessionId = Some sid /\
    MAX_ATTEMPTS <= length (recent_attempts db fileId sid now).
Proof.
  intros Hpast. unfold getDownloadToken.
  destruct (files db !! fileId) as [file|] eqn:Hf; [|discriminate].
  destruct (passwordProtection file) as [w|] eqn:Hw,
           (session_given sessionId) as [sid|] eqn:Hs;
    try (destruct (expired file now), (limit_reached file); discriminate).
  destruct (Nat.leb_spec MAX_ATTEMPTS (length (recent_attempts db fileId sid now)))
    as [Hmany|Hfew];
    [|destruct (expired file now), (limit_reached file); discriminate].
  cbn [fst snd]. intros [= <-]. split; [|split; [reflexivity|]].
  2:{ exists file, w, sid. auto. }
  apply ceil_minutes_bounds.
  set (recent := recent_attempts db fileId sid now) in *.
  assert (Hne : map att_attemptTime recent <> []).
  { destruct recent; [cbn in Hmany; unfold MAX_ATTEMPTS in Hmany; lia|discriminate]. }
  apply minimum_In in Hne. apply in_map_iff in Hne.
  destruct Hne as (a & Ha & Hin). rewrite <- Ha.
  unfold recent, recent_attempts in Hin. apply filter_In in Hin as [Hin Hp].
  apply andb_prop in Hp as [_ Hgt]. rewrite Z.gtb_ltb in Hgt.
  apply Z.ltb_lt in Hgt. specialize (Hpast a Hin). lia.
Qed.

Lemma length_filter_le {A} (p q : A -> bool) l :
  (forall x, p x = true -> q x = true) ->
  length (List.filter p l) <= length (List.filter q l).
Proof.
  intros Hpq. induction l as [|x l IH]; cbn [List.filter]; [lia|].
  destruct (p x) eqn:Hp.
  - rewrite (Hpq x Hp). cbn [length]. lia.
  - destruct (q x); cbn [length]; lia.
Qed.

Lemma attempts_bounded_later db now now' :
  (now <= now')%Z -> attempts_bounded db now -> attempts_bounded db now'.
Proof.
  intros Hle Hb fileId sid. etransitivity; [|apply (Hb fileId sid)].
  unfold recent_attempts. apply length_filter_le. intros a Ha.
  apply andb_prop in Ha as [Ha Hgt]. rewrite Ha. cbn [andb].
  rewrite Z.gtb_ltb in *. apply Z.ltb_lt in Hgt. apply Z.ltb_lt. lia.
Qed.

Lemma attempts_bounded_same db db' now :
  downloadAttempts db' = downloadAttempts db ->
  attempts_bounded db now -> attempts_bounded db' now.
Proof.
  intros Heq Hb fileId sid. unfold recent_attempts. rewrite Heq. apply Hb.
Qed.

(** A token request keeps the bound, at the time of the request. *)
Lemma attempts_bounded_getDownloadToken getUrl db now uuid fileId sessionId :
  attempts_bounded db now ->
  attempts_bounded
    (snd (getDownloadToken getUrl db now uuid fileId sessionId)) now.
Proof.
  intros Hb. unfold getDownloadToken.
  destruct (files db !! fileId) as [file|]; [|exact Hb].
  destruct (passwordProtection file) as [w|], (session_given sessionId) as [sid|];
    try (destruct (expired file now), (limit_reached file); cbn [snd];
         (exact Hb || (eapply attempts_bounded_same; [|exact Hb]; reflexivity))).
  destruct (Nat.leb_spec MAX_ATTEMPTS (length (recent_attempts db fileId sid now)))
    as [Hmany|Hfew]; [exact Hb|].
  assert (Hlogged : attempts_bounded
            (mkDb (files db) (downloadTokens db)
               (downloadAttempts db ++ [mkAttemptDoc (next_id db) fileId now sid])
               (fileHistory db) (S (next_id db))) now).
  { intros f s. unfold recent_attempts. cbn [downloadAttempts].
    rewrite List.filter_app, length_app. cbn [List.filter att_fileId att_sessionId].
    destruct (Nat.eqb_spec fileId f) as [<-|Hf]; cbn [andb].
    - destruct (String.eqb_spec sid s) as [<-|Hs]; cbn [andb].
      + fold (recent_attempts db fileId sid now).
        destruct (Z.gtb _ _); cbn [length]; lia.
      + cbn [length]. specialize (Hb fileId s). unfold recent_attempts in Hb. lia.
    - cbn [length]. specialize (Hb f s). unfold recent_attempts in Hb. lia. }
  destruct (expired file now), (limit_reached file); cbn [snd];
    try exact Hlogged;
    (eapply attempts_bounded_same; [|exact Hlogged]; reflexivity).
Qed.

(** X11 (the rate limit holds).
    However many token requests come in, with whatever session ids, no
    session ever has more than five attempts on one file on record within
    the 15 minutes before the last request, as long as the server's clock
    does not run backwards. *)
Theorem rate_limit_invariant (getUrl : nat -> option string)
    (reqs : list TokenRequest) (db : Db) (now : Z) :
  attempts_bounded db now -> clock_monotone now reqs ->
  attempts_bounded (request_tokens getUrl reqs db) (last_clock now reqs).
Proof.
  unfold request_tokens, last_clock. revert db now.
  induction reqs as [|r reqs IH]; intros db now Hb Hm; cbn [fold_left];
    [exact Hb|].
  destruct Hm as [Hle Hm]. apply IH; [|exact Hm].
  apply attempts_bounded_getDownloadToken.
  eapply attempts_bounded_later; eassumption.
Qed.

(** X12 (no session id, no rate limit).
    A request that gives no session id, or an empty one, and any request
    for a file without password protection, is never refused by the rate
    limiter and leaves no attempt on record, whatever the history. *)
Theorem no_session_no_rate_limit (getUrl : nat -> option string) (db : Db)
    (now : Z) (uuid : string) (fileId : Id) (sessionId : option string) :
  session_given sessionId = None \/
  (forall file, files db !! fileId = Some file -> passwordProtection file = None) ->
  (forall retry,
     fst (getDownloadToken getUrl db now uuid fileId sessionId)
     <> RateLimited retry) /\
  downloadAttempts (snd (getDownloadToken getUrl db now uuid fileId sessionId))
  = downloadAttempts db.
Proof.
  intros Hno. unfold getDownloadToken.
  destruct (files db !! fileId) as [file|] eqn:Hf; [|split; [discriminate|reflexivity]].
  assert (Hcase : passwordProtection file = None \/ session_given sessionId = None).
  { destruct Hno as [Hs|Hp]; [right; exact Hs|left; apply Hp; reflexivity]. }
  destruct (passwordProtection file) as [w|], (session_given sessionId) as [sid|];
    try (destruct Hcase; discriminate);
    destruct (expired file now), (limit_reached file); cbn [fst snd];
    split; (discriminate || reflexivity).
Qed.

End ConvexExtras.

(** ** [convex/files.ts]: the life of a token *)

Module TokenExtras.
Import Convex ConvexQueries ConvexFacts.

Lemma find_app_none {A} (f : A -> bool) l1 l2 :
  List.find f l1 = None -> List.find f (l1 ++ l2) = List.find f l2.
Proof.
  induction l1 as [|x l1 IH]; cbn [List.find app]; [reflexivity|].
  destruct (f x); [discriminate|exact IH].
Qed.

Lemma find_none_forall {A} (f : A -> bool) l :
  (forall x, In x l -> f x = false) -> List.find f l = None.
Proof.
  intros Hall. induction l as [|x l IH]; cbn [List.find]; [reflexivity|].
  rewrite (Hall x) by (left; reflexivity). apply IH.
  intros y Hy. apply Hall. right. exact Hy.
Qed.

(** What phase 1 does when it issues a token. *)
Lemma getDownloadToken_issued getUrl db now uuid fileId sessionId url token
      ttl db' :
  getDownloadToken getUrl db now uuid fileId sessionId
  = (TokenIssued url token ttl, db') ->
  exists file id,
    files db !! fileId = Some file /\
    expired file now = false /\ limit_reached file = false /\
    token = uuid /\ ttl = TOKEN_TTL /\ url = getUrl (storageId file) /\
    files db' = files db /\ fileHistory db' = fileHistory db /\
    downloadTokens db'
    = downloadTokens db
      ++ [mkTokenDoc id fileId uuid now false (now + TOKEN_TTL)].
Proof.
  unfold getDownloadToken.
  destruct (files db !! fileId) as [file|] eqn:Hf; [|discriminate].
  destruct (passwordProtection file), (session_given sessionId);
    try destruct (Nat.leb _ _); try discriminate;
    destruct (expired file now) eqn:He; try discriminate;
    destruct (limit_reached file) eqn:Hl; try discriminate;
    intros [= <- <- <- <-]; eexists file, _; cbn [files fileHistory downloadTokens];
    repeat split; (assumption || reflexivity).
Qed.

(** X13 (a token lives five minutes).
    A token just issued under a string no other token has is good for
    exactly five minutes: a confirmation up to then counts one download of
    its file; a later one is refused as expired, removes the token and
    leaves the counter alone. *)
Theorem issued_token_lifetime (getUrl : nat -> option string) (db db' : Db)
    (now now' : Z) (uuid token : string) (fileId : Id)
    (sessionId : option string) (url : option string) (ttl : Z) :
  getDownloadToken getUrl db now uuid fileId sessionId
  = (TokenIssued url token ttl, db') ->
  (forall t, In t (downloadTokens db) -> tok_token t <> uuid) ->
  token = uuid /\ ttl = (5 * 60 * 1000)%Z /\
  exists file,
    files db !! fileId = Some file /\
    if (now' <=? now + ttl)%Z
    then
      fst (confirmDownload db' now' token) = ConfirmSuccess /\
      counter_of (snd (confirmDownload db' now' token)) fileId
      = Some (counter file + 1)%Z
    else
      fst (confirmDownload db' now' token) = ConfirmFailed TOKEN_EXPIRED /\
      counter_of (snd (confirmDownload db' now' token)) fileId
      = Some (counter file) /\
      first_token (snd (confirmDownload db' now' token)) token = None.
Proof.
  intros Hget Hfresh.
  apply getDownloadToken_issued in Hget.
  destruct Hget as (file & id & Hf & Hexp & Hlim & -> & -> & -> & Hfiles & _ & Htok).
  split; [reflexivity|]. split; [reflexivity|].
  exists file. split; [exact Hf|].
  set (rec := mkTokenDoc id fileId uuid now false (now + TOKEN_TTL)) in *.
  assert (Hold : forall t, In t (downloadTokens db) ->
                   String.eqb (tok_token t) uuid = false).
  { intros t Ht. apply String.eqb_neq, Hfresh, Ht. }
  assert (Hfirst : first_token db' uuid = Some rec).
  { unfold first_token. rewrite Htok.
    rewrite find_app_none by (apply find_none_forall, Hold).
    cbn [List.find rec tok_token]. rewrite String.eqb_refl. reflexivity. }
  destruct (Z.leb_spec now' (now + TOKEN_TTL)) as [Hin|Hout].
  - rewrite (confirmDownload_success db' now' uuid rec file Hfirst);
      try reflexivity; try assumption.
    2:{ cbn [rec tok_fileId]. rewrite Hfiles. exact Hf. }
    cbn [fst snd]. split; [reflexivity|].
    unfold counter_of, patch_history, patch_file. cbn [files rec tok_fileId].
    rewrite lookup_insert_eq. cbn [fmap option_fmap option_map].
    unfold counter at 1. cbn [downloads]. rewrite number_or_zero. reflexivity.
  - unfold confirmDownload. rewrite Hfirst. cbn [rec tok_expiresAt].
    replace (Z.ltb (now + TOKEN_TTL) now') with true
      by (symmetry; apply Z.ltb_lt; lia).
    cbn [fst snd]. split; [reflexivity|]. split.
    + unfold counter_of, delete_token. cbn [files]. rewrite Hfiles, Hf.
      reflexivity.
    + unfold first_token, delete_token. cbn [downloadTokens tok_id].
      apply find_none_forall. intros t Ht. apply filter_In in Ht as [Ht Hid].
      rewrite Htok in Ht. apply in_app_iff in Ht as [Ht|[<-|[]]].
      * apply Hold, Ht.
      * cbn [tok_id] in Hid. rewrite Nat.eqb_refl in Hid. discriminate.
Qed.

(** ** A spent token stays spent *)

Lemma first_token_In db token rec :
  first_token db token = Some rec ->
  In rec (downloadTokens db) /\ tok_token rec = token.
Proof.
  unfold first_token. intros Hf. apply find_some in Hf as [Hin Heq].
  apply String.eqb_eq in Heq. auto.
Qed.

(** Under [spent], no confirmation of the token succeeds. *)
Lemma spent_confirm_fails db now token :
  spent db token -> fst (confirmDownload db now token) <> ConfirmSuccess.
Proof.
  intros Hs. unfold confirmDownload.
  destruct (first_token db token) as [rec|] eqn:Hf; [|discriminate].
  destruct (first_token_In _ _ _ Hf) as [Hin Heq].
  rewrite (Hs rec Hin Heq). destruct (Z.ltb _ now); discriminate.
Qed.

Lemma spent_same db db' token :
  downloadTokens db' = downloadTokens db -> spent db token -> spent db' token.
Proof. intros Heq Hs t. rewrite Heq. apply Hs. Qed.

Lemma spent_delete_token db id token :
  spent db token -> spent (delete_token db id) token.
Proof.
  intros Hs t Ht. unfold delete_token in Ht. cbn [downloadTokens] in Ht.
  apply filter_In in Ht as [Ht _]. apply Hs, Ht.
Qed.

Lemma spent_mark_used db id token :
  spent db token -> spent (mark_used db id) token.
Proof.
  intros Hs t Ht. unfold mark_used in Ht. cbn [downloadTokens] in Ht.
  apply in_map_iff in Ht. destruct Ht as (t0 & <- & Ht0).
  destruct (Nat.eqb (tok_id t0) id); cbn [tok_token tok_used]; [reflexivity|].
  apply Hs, Ht0.
Qed.

Lemma spent_confirmDownload db now token' token :
  spent db token -> spent (snd (confirmDownload db now token')) token.
Proof.
  intros Hs. unfold confirmDownload.
  destruct (first_token db token') as [rec|]; [|exact Hs].
  destruct (Z.ltb _ now); [apply spent_delete_token, Hs|].
  destruct (tok_used rec); [exact Hs|].
  destruct (files db !! tok_fileId rec) as [file|];
    [|apply spent_delete_token, Hs].
  destruct (limit_reached file); [apply spent_delete_token, Hs|].
  cbn [snd]. eapply spent_same; [|apply (spent_mark_used db (tok_id rec)), Hs].
  reflexivity.
Qed.

Lemma getDownloadToken_tokens getUrl db now uuid fileId sessionId :
  let db' := snd (getDownloadToken getUrl db now uuid fileId sessionId) in
  downloadTokens db' = downloadTokens db \/
  exists id,
    downloadTokens db'
    = downloadTokens db
      ++ [mkTokenDoc id fileId uuid now false (now + TOKEN_TTL)].
Proof.
  unfold getDownloadToken.
  destruct (files db !! fileId) as [file|]; [|left; reflexivity].
  destruct (passwordProtection file), (session_given sessionId);
    try destruct (Nat.leb _ _); cbn [snd]; try (left; reflexivity);
    destruct (expired file now); cbn [snd]; try (left; reflexivity);
    destruct (limit_reached file); cbn [snd downloadTokens];
    try (left; reflexivity); right; eexists; reflexivity.
Qed.

Lemma spent_getDownloadToken getUrl db now uuid fileId sessionId token :
  uuid <> token -> spent db token ->
  spent (snd (getDownloadToken getUrl db now uuid fileId sessionId)) token.
Proof.
  intros Hne Hs.
  destruct (getDownloadToken_tokens getUrl db now uuid fileId sessionId)
    as [Heq|[id Heq]].
  - eapply spent_same; eassumption.
  - intros t Ht. rewrite Heq in Ht. apply in_app_iff in Ht as [Ht|[<-|[]]].
    + apply Hs, Ht.
    + cbn [tok_token]. intros Htok. contradiction.
Qed.

Lemma spent_run_call getUrl db c token :
  issues_other token c -> spent db token -> spent (run_call getUrl db c) token.
Proof.
  intros Hc Hs.
  destruct c as [authUser args|now uuid fileId sessionId|now token'
                |now fileId sessionId|authUser fileId];
    cbn [run_call issues_other] in *.
  - eapply spent_same; [|exact Hs]. unfold saveFile.
    destruct authUser; reflexivity.
  - apply spent_getDownloadToken; assumption.
  - apply spent_confirmDownload, Hs.
  - eapply spent_same; [|exact Hs]. unfold downloadFile.
    destruct (files db !! fileId) as [file|]; [|reflexivity].
    destruct (passwordProtection file), (session_given sessionId);
      try destruct (Nat.leb _ _); try reflexivity;
      destruct (expired file now); try reflexivity;
      destruct (limit_reached file); reflexivity.
  - eapply spent_same; [|exact Hs]. unfold deleteFile.
    destruct authUser; [|reflexivity].
    destruct (files db !! fileId) as [file|]; [|reflexivity].
    destruct (match userId file with Some _ => _ | None => _ end); reflexivity.
Qed.

Lemma at_most_one {A} (l : list A) x y :
  length l <= 1 -> In x l -> In y l -> x = y.
Proof.
  destruct l as [|a [|b l]]; cbn [length In]; intros Hl Hx Hy;
    [contradiction| |lia].
  destruct Hx as [<-|[]], Hy as [<-|[]]. reflexivity.
Qed.

(** X14 (a token counts once).
    Once a confirmation of a token has succeeded, no later confirmation of
    it ever succeeds again, whatever calls come in between, provided the
    token string was handed out once and is not handed out again. *)
Theorem confirmed_token_stays_spent (getUrl : nat -> option string) (db : Db)
    (now now' : Z) (token : string) (calls : list Call) :
  length (List.filter (fun t => String.eqb (tok_token t) token)
            (downloadTokens db)) <= 1 ->
  fst (confirmDownload db now token) = ConfirmSuccess ->
  Forall (issues_other token) calls ->
  fst (confirmDownload
         (fold_left (run_call getUrl) calls (snd (confirmDownload db now token)))
         now' token)
  <> ConfirmSuccess.
Proof.
  intros Hone Hok Hcalls. apply spent_confirm_fails.
  assert (Hs : spent (snd (confirmDownload db now token)) token).
  { revert Hok. unfold confirmDownload.
    destruct (first_token db token) as [rec|] eqn:Hf; [|discriminate].
    destruct (Z.ltb _ now); [discriminate|].
    destruct (tok_used rec); [discriminate|].
    destruct (files db !! tok_fileId rec) as [file|]; [|discriminate].
    destruct (limit_reached file); [discriminate|]. intros _. cbn [snd].
    destruct (first_token_In _ _ _ Hf) as [Hin Heq].
    intros t Ht. cbn [patch_history patch_file mark_used downloadTokens] in Ht.
    apply in_map_iff in Ht. destruct Ht as (t0 & <- & Ht0).
    destruct (Nat.eqb (tok_id t0) (tok_id rec)) eqn:Hid;
      cbn [tok_token tok_used]; [reflexivity|].
    intros Htok. exfalso.
    assert (t0 = rec).
    { eapply at_most_one; [exact Hone| |];
        apply filter_In; split; try assumption; apply String.eqb_eq; assumption. }
    subst t0. rewrite Nat.eqb_refl in Hid. discriminate. }
  clear Hone Hok. revert Hs.
  generalize (snd (confirmDownload db now token)). intros d Hs.
  induction Hcalls as [|c calls Hc _ IH] in d, Hs |- *; cbn [fold_left];
    [exact Hs|].
  apply IH, spent_run_call; assumption.
Qed.

End TokenExtras.

(** ** [convex/files.ts]: the history, saving and deleting *)

Module HistoryExtras.
Import Convex ConvexQueries ConvexFacts TokenExtras.

Lemma patch_first_history_fileIds f n hs :
  omap hist_fileId (patch_first_history f n hs) = omap hist_fileId hs.
Proof.
  induction hs as [|h hs IH]; [reflexivity|]. cbn [patch_first_history].
  destruct (hist_fileId h) as [g|] eqn:Hg.
  - destruct (Nat.eqb g f); cbn [omap list_omap hist_fileId]; rewrite Hg;
      [reflexivity|]. f_equal. exact IH.
  - cbn [omap list_omap]. rewrite Hg. exact IH.
Qed.

Lemma patch_first_history_other f n hs h' g :
  In h' (patch_first_history f n hs) -> hist_fileId h' = Some g -> g <> f ->
  In h' hs.
Proof.
  induction hs as [|h hs IH]; cbn [patch_first_history]; [auto|].
  intros Hin Hg Hne.
  destruct (hist_fileId h) as [g0|] eqn:Hg0.
  - destruct (Nat.eqb_spec g0 f) as [->|Hg0f].
    + destruct Hin as [<-|Hin]; [|right; exact Hin].
      cbn [hist_fileId] in Hg. congruence.
    + destruct Hin as [<-|Hin]; [left; reflexivity|right; apply IH; assumption].
  - destruct Hin as [<-|Hin]; [left; reflexivity|right; apply IH; assumption].
Qed.

Lemma In_omap_fileId h f hs :
  In h hs -> hist_fileId h = Some f -> f ∈ omap hist_fileId hs.
Proof.
  intros Hin Hf. apply list_elem_of_omap. exists h.
  split; [apply list_elem_of_In, Hin|exact Hf].
Qed.

Lemma patch_first_history_same f n hs h' :
  NoDup (omap hist_fileId hs) ->
  In h' (patch_first_history f n hs) -> hist_fileId h' = Some f ->
  hist_downloads h' = Some n.
Proof.
  induction hs as [|h hs IH]; cbn [patch_first_history]; [contradiction|].
  intros Hnd Hin Hf. cbn [omap list_omap] in Hnd.
  destruct (hist_fileId h) as [g0|] eqn:Hg0.
  - apply NoDup_cons in Hnd as [Hnot Hnd].
    destruct (Nat.eqb_spec g0 f) as [->|Hg0f].
    + destruct Hin as [<-|Hin]; [reflexivity|].
      exfalso. apply Hnot. eapply In_omap_fileId; eassumption.
    + destruct Hin as [<-|Hin]; [congruence|]. apply IH; assumption.
  - destruct Hin as [<-|Hin]; [congruence|]. apply IH; assumption.
Qed.

Lemma history_invariant_same db db' :
  files db' = files db -> fileHistory db' = fileHistory db ->
  next_id db <= next_id db' ->
  history_invariant db -> history_invariant db'.
Proof.
  intros Hf Hh Hn (Hsync & Hfresh & Hhist & Hnd).
  unfold history_invariant, history_in_sync. rewrite Hf, Hh.
  repeat split; try assumption.
  - intros id file Hl. specialize (Hfresh id file Hl). lia.
  - intros h f Hin Hg. specialize (Hhist h f Hin Hg). lia.
Qed.

Lemma history_invariant_saveFile db authUser args :
  history_invariant db -> history_invariant (snd (saveFile db authUser args)).
Proof.
  intros (Hsync & Hfresh & Hhist & Hnd). unfold saveFile.
  destruct authUser as [user|]; cbn [snd];
    unfold history_invariant, history_in_sync;
    cbn [files fileHistory next_id].
  - repeat split.
    + intros h g file Hin Hg Hl. apply in_app_iff in Hin as [Hin|[<-|[]]].
      * pose proof (Hhist h g Hin Hg) as Hlt.
        rewrite lookup_insert_ne in Hl by lia. eapply Hsync; eassumption.
      * cbn [hist_fileId hist_downloads] in *. injection Hg as <-.
        rewrite lookup_insert_eq in Hl. injection Hl as <-.
        unfold counter. cbn [downloads]. rewrite number_or_zero. reflexivity.
    + intros id file Hl.
      destruct (decide (next_id db = id)) as [<-|Hne]; [lia|].
      rewrite lookup_insert_ne in Hl by exact Hne.
      specialize (Hfresh id file Hl). lia.
    + intros h f Hin Hg. apply in_app_iff in Hin as [Hin|[<-|[]]].
      * specialize (Hhist h f Hin Hg). lia.
      * cbn [hist_fileId] in Hg. injection Hg as <-. lia.
    + rewrite omap_app. cbn [omap list_omap hist_fileId].
      apply NoDup_app. split; [exact Hnd|]. split.
      * intros g Hg Hin. apply list_elem_of_omap in Hg.
        destruct Hg as (h & Hh & Hg). apply list_elem_of_In in Hh.
        specialize (Hhist h g Hh Hg).
        apply list_elem_of_singleton in Hin. lia.
      * apply NoDup_singleton.
  - repeat split.
    + intros h g file Hin Hg Hl.
      pose proof (Hhist h g Hin Hg) as Hlt.
      rewrite lookup_insert_ne in Hl by lia. eapply Hsync; eassumption.
    + intros id file Hl.
      destruct (decide (next_id db = id)) as [<-|Hne]; [lia|].
      rewrite lookup_insert_ne in Hl by exact Hne.
      specialize (Hfresh id file Hl). lia.
    + intros h f Hin Hg. specialize (Hhist h f Hin Hg). lia.
    + exact Hnd.
Qed.

Lemma getDownloadToken_history getUrl db now uuid fileId sessionId :
  let db' := snd (getDownloadToken getUrl db now uuid fileId sessionId) in
  fileHistory db' = fileHistory db /\ next_id db <= next_id db'.
Proof.
  cbv zeta. unfold getDownloadToken.
  destruct (files db !! fileId) as [file|];
    [|cbn [snd]; split; [reflexivity|lia]].
  destruct (passwordProtection file), (session_given sessionId);
    try destruct (Nat.leb _ _); cbn [snd];
    try (split; [reflexivity|lia]);
    destruct (expired file now); cbn [snd fileHistory next_id];
    try (split; [reflexivity|lia]);
    destruct (limit_reached file); cbn [snd fileHistory next_id];
    split; (reflexivity || lia).
Qed.

Lemma history_invariant_confirmDownload db now token :
  history_invariant db -> history_invariant (snd (confirmDownload db now token)).
Proof.
  intros Hinv. unfold confirmDownload.
  destruct (first_token db token) as [rec|]; [|exact Hinv].
  assert (Hdel : history_invariant (delete_token db (tok_id rec)))
    by (eapply history_invariant_same; [| | |exact Hinv]; reflexivity).
  destruct (Z.ltb _ now); [exact Hdel|].
  destruct (tok_used rec); [exact Hinv|].
  destruct (files db !! tok_fileId rec) as [file|] eqn:Hfile; [|exact Hdel].
  destruct (limit_reached file); [exact Hdel|]. cbn [snd].
  destruct Hinv as (Hsync & Hfresh & Hhist & Hnd).
  set (f := tok_fileId rec) in *.
  unfold history_invariant, history_in_sync, patch_history, patch_file,
    mark_used. cbn [files fileHistory next_id].
  repeat split.
  - intros h g file' Hin Hg Hl.
    destruct (decide (f = g)) as [<-|Hne].
    + rewrite lookup_insert_eq in Hl. injection Hl as <-.
      unfold counter at 1. cbn [downloads]. rewrite number_or_zero.
      eapply patch_first_history_same; eassumption.
    + rewrite lookup_insert_ne in Hl by exact Hne.
      eapply Hsync; [|exact Hg|exact Hl].
      eapply patch_first_history_other; [exact Hin|exact Hg|congruence].
  - intros id file' Hl.
    destruct (decide (f = id)) as [<-|Hne]; [eapply Hfresh, Hfile|].
    rewrite lookup_insert_ne in Hl by exact Hne. eapply Hfresh, Hl.
  - intros h g Hin Hg.
    pose proof (In_omap_fileId h g _ Hin Hg) as Hel.
    rewrite patch_first_history_fileIds in Hel.
    apply list_elem_of_omap in Hel. destruct Hel as (h0 & Hh0 & Hg0).
    apply list_elem_of_In in Hh0. eapply Hhist; eassumption.
  - rewrite patch_first_history_fileIds. exact Hnd.
Qed.

Lemma history_invariant_deleteFile db authUser fileId :
  history_invariant db -> history_invariant (snd (deleteFile db authUser fileId)).
Proof.
  intros Hinv. unfold deleteFile.
  destruct authUser as [user|]; [|exact Hinv].
  destruct (files db !! fileId) as [file|]; [|exact Hinv].
  destruct (match userId file with Some _ => _ | None => _ end); [|exact Hinv].
  cbn [snd]. destruct Hinv as (Hsync & Hfresh & Hhist & Hnd).
  unfold history_invariant, history_in_sync. cbn [files fileHistory next_id].
  repeat split; try assumption.
  - intros h g file' Hin Hg Hl. apply lookup_delete_Some in Hl as [_ Hl].
    eapply Hsync; eassumption.
  - intros id file' Hl. apply lookup_delete_Some in Hl as [_ Hl].
    eapply Hfresh, Hl.
Qed.

Lemma history_invariant_empty : history_invariant empty_db.
Proof.
  unfold history_invariant, history_in_sync, empty_db.
  cbn [files fileHistory next_id]. repeat split.
  - intros h g file [].
  - intros id file Hl. rewrite lookup_empty in Hl. discriminate.
  - intros h f [].
  - apply NoDup_nil. exact I.
Qed.

Lemma history_invariant_run_call getUrl db c :
  two_phase c -> history_invariant db ->
  history_invariant (run_call getUrl db c).
Proof.
  intros Hc Hinv.
  destruct c as [authUser args|now uuid fileId sessionId|now token
                |now fileId sessionId|authUser fileId];
    cbn [run_call two_phase] in *.
  - apply history_invariant_saveFile, Hinv.
  - destruct (getDownloadToken_history getUrl db now uuid fileId sessionId)
      as [Hh Hn].
    eapply history_invariant_same; [| | |exact Hinv]; try assumption.
    apply getDownloadToken_files.
  - apply history_invariant_confirmDownload, Hinv.
  - contradiction.
  - apply history_invariant_deleteFile, Hinv.
Qed.

(** X15 (the history follows the counter).
    Through any sequence of uploads, token requests, confirmations and
    deletions, the upload history of a signed-in user shows for every file
    that still exists the same download count as the file itself. *)
Theorem history_mirrors_counter (getUrl : nat -> option string)
    (calls : list Call) :
  Forall two_phase calls ->
  history_in_sync (fold_left (run_call getUrl) calls empty_db).
Proof.
  intros Hcalls.
  cut (history_invariant (fold_left (run_call getUrl) calls empty_db)).
  { intros H. apply H. }
  generalize history_invariant_empty. generalize empty_db.
  induction Hcalls as [|c calls Hc _ IH]; intros db Hinv; cbn [fold_left];
    [exact Hinv|].
  apply IH, history_invariant_run_call; assumption.
Qed.

(** X16 (the one-phase download).
    The deprecated one-phase [downloadFile] answers as phase 1 does and
    counts as phase 2 would on the token: the same refusals, the same
    files table afterwards, the same attempts on record.  It leaves the
    upload history as it was, which phase 2 does not. *)
Theorem downloadFile_agrees_with_two_phase (getUrl : nat -> option string)
    (db : Db) (now : Z) (uuid : string) (fileId : Id)
    (sessionId : option string) :
  (forall t, In t (downloadTokens db) -> tok_token t <> uuid) ->
  let legacy := downloadFile getUrl db now fileId sessionId in
  let phase1 := getDownloadToken getUrl db now uuid fileId sessionId in
  let phase2 := confirmDownload (snd phase1) now uuid in
  match fst legacy with
  | None => fst phase1 = TokenNull
  | Some (inl retry) => fst phase1 = RateLimited retry
  | Some (inr url) =>
      fst phase1 = TokenIssued url uuid TOKEN_TTL /\
      fst phase2 = ConfirmSuccess
  end /\
  files (snd legacy) = files (snd phase2) /\
  downloadAttempts (snd legacy) = downloadAttempts (snd phase2) /\
  fileHistory (snd legacy) = fileHistory db.
Proof.
  intros Hfresh legacy phase1 phase2.
  assert (Hold : forall d, downloadTokens d = downloadTokens db ->
                   confirmDownload d now uuid = (ConfirmFailed INVALID_TOKEN, d)).
  { intros d Hd. unfold confirmDownload, first_token. rewrite Hd.
    rewrite find_none_forall; [reflexivity|].
    intros t Ht. apply String.eqb_neq, Hfresh, Ht. }
  assert (Hnew : forall d file,
            downloadTokens d = downloadTokens db ->
            files d !! fileId = Some file ->
            limit_reached file = false ->
            let d' := mkDb (files d)
                        (downloadTokens d ++
                           [mkTokenDoc (next_id d) fileId uuid now false
                              (now + TOKEN_TTL)])
                        (downloadAttempts d) (fileHistory d) (S (next_id d)) in
            fst (confirmDownload d' now uuid) = ConfirmSuccess /\
            files (snd (confirmDownload d' now uuid))
            = files (patch_file d fileId file (counter file + 1) now) /\
            downloadAttempts (snd (confirmDownload d' now uuid))
            = downloadAttempts d).
  { intros d file Hd Hf Hl d'.
    set (rec := mkTokenDoc (next_id d) fileId uuid now false (now + TOKEN_TTL)).
    assert (Hfirst : first_token d' uuid = Some rec).
    { unfold first_token, d'. cbn [downloadTokens]. rewrite Hd.
      rewrite find_app_none.
      - cbn [List.find tok_token]. rewrite String.eqb_refl. reflexivity.
      - apply find_none_forall. intros t Ht.
        apply String.eqb_neq, Hfresh, Ht. }
    rewrite (confirmDownload_success d' now uuid rec file Hfirst);
      try reflexivity; try assumption.
    - cbn [fst snd]. repeat split; reflexivity.
    - cbn [rec tok_expiresAt]. unfold TOKEN_TTL. lia. }
  subst legacy phase1 phase2. unfold downloadFile, getDownloadToken.
  destruct (files db !! fileId) as [file|] eqn:Hf.
  2:{ cbn [fst snd]. rewrite Hold by reflexivity. repeat split; reflexivity. }
  destruct (passwordProtection file) as [w|], (session_given sessionId) as [sid|];
    try destruct (Nat.leb _ _); cbn [fst snd];
    try (rewrite Hold by reflexivity; repeat split; reflexivity);
    destruct (expired file now); cbn [fst snd];
    try (rewrite Hold by reflexivity; repeat split; reflexivity);
    destruct (limit_reached file) eqn:Hl; cbn [fst snd];
    try (rewrite Hold by reflexivity; repeat split; reflexivity);
    match goal with
    | |- context [confirmDownload
                    (mkDb (files ?d) (downloadTokens ?d ++ _) _ _ _) _ _] =>
        destruct (Hnew d file eq_refl Hf Hl) as (H1 & H2 & H3)
    end;
    cbv zeta in H1, H2, H3; cbn [files downloadTokens downloadAttempts
                                  fileHistory next_id] in H1, H2, H3 |- *;
    rewrite H1, H2, H3; repeat split; reflexivity.
Qed.


(** X18 (only the owner deletes).
    [deleteFile] deletes only for the signed-in owner of the file; a file
    uploaded anonymously is deleted for nobody.  A refusal changes nothing.
    After a deletion the file is gone for the download page and for
    phase 1, and no token still out for it can be confirmed. *)
Theorem deleteFile_owner_only (getUrl : nat -> option string) (db : Db)
    (authUser : option string) (fileId : Id) :
  match deleteFile db authUser fileId with
  | (Ok _, db') =>
      (exists user file,
         authUser = Some user /\ files db !! fileId = Some file /\
         userId file = Some user) /\
      files db' = delete fileId (files db) /\
      (forall now, getFileMeta db' now fileId = None) /\
      (forall now uuid sessionId,
         getDownloadToken getUrl db' now uuid fileId sessionId
         = (TokenNull, db')) /\
      (forall now token rec,
         first_token db' token = Some rec -> tok_fileId rec = fileId ->
         fst (confirmDownload db' now token) <> ConfirmSuccess)
  | (Throw _, db') => db' = db
  end.
Proof.
  unfold deleteFile.
  destruct authUser as [user|]; [|reflexivity].
  destruct (files db !! fileId) as [file|] eqn:Hf; [|reflexivity].
  destruct (userId file) as [owner|] eqn:Ho; [|reflexivity].
  destruct (String.eqb_spec owner user) as [->|Hne]; [|reflexivity].
  split; [exists user, file; auto|]. split; [reflexivity|].
  split; [|split].
  - intros now. unfold getFileMeta. cbn [files]. rewrite lookup_delete_eq.
    reflexivity.
  - intros now uuid sessionId. unfold getDownloadToken. cbn [files].
    rewrite lookup_delete_eq. reflexivity.
  - intros now token rec Hfirst Hrec. unfold confirmDownload.
    rewrite Hfirst, Hrec. cbn [files]. rewrite lookup_delete_eq.
    destruct (Z.ltb _ now); [discriminate|].
    destruct (tok_used rec); discriminate.
Qed.

End HistoryExtras.

(** ** [convex/files.ts]: a used-up file stays used up *)

Module LimitExtras.
Import Convex ConvexQueries ConvexFacts.

Lemma exhausted_same db db' fileId :
  files db' = files db -> next_id db <= next_id db' ->
  exhausted db fileId -> exhausted db' fileId.
Proof.
  intros Hf Hn [Hlt Hlim]. split; [lia|]. rewrite Hf. exact Hlim.
Qed.

Lemma exhausted_patch_file db d fileId f file n now :
  files d = files db -> next_id db <= next_id d ->
  files db !! f = Some file -> limit_reached file = false ->
  exhausted db fileId -> exhausted (patch_file d f file n now) fileId.
Proof.
  intros Hf Hn Hfile Hl [Hlt Hlim]. split; [cbn [patch_file next_id]; lia|].
  intros file'. cbn [patch_file files]. rewrite Hf.
  destruct (decide (f = fileId)) as [->|Hne].
  - specialize (Hlim file Hfile). congruence.
  - rewrite lookup_insert_ne by exact Hne. apply Hlim.
Qed.

Lemma exhausted_run_call getUrl db c fileId :
  exhausted db fileId -> exhausted (run_call getUrl db c) fileId.
Proof.
  intros Hex.
  destruct c as [authUser args|now uuid f sessionId|now token
                |now f sessionId|authUser f];
    cbn [run_call].
  - destruct Hex as [Hlt Hlim]. unfold saveFile.
    destruct authUser; cbn [snd]; (split; [cbn [next_id]; lia|]);
      intros file; cbn [files]; rewrite lookup_insert_ne by lia; apply Hlim.
  - destruct (HistoryExtras.getDownloadToken_history getUrl db now uuid f
                sessionId) as [_ Hn].
    eapply exhausted_same; [apply getDownloadToken_files|exact Hn|exact Hex].
  - unfold confirmDownload.
    destruct (first_token db token) as [rec|]; [|exact Hex].
    assert (Hdel : exhausted (delete_token db (tok_id rec)) fileId)
      by (eapply exhausted_same; [| |exact Hex]; [reflexivity|cbn; lia]).
    destruct (Z.ltb _ now); [exact Hdel|].
    destruct (tok_used rec); [exact Hex|].
    destruct (files db !! tok_fileId rec) as [file|] eqn:Hfile; [|exact Hdel].
    destruct (limit_reached file) eqn:Hl; [exact Hdel|]. cbn [snd].
    destruct (exhausted_patch_file db (mark_used db (tok_id rec)) fileId
                (tok_fileId rec) file (counter file + 1) now eq_refl
                (Nat.le_refl _) Hfile Hl Hex) as [Hlt Hlim].
    split; [exact Hlt|exact Hlim].
  - unfold downloadFile.
    destruct (files db !! f) as [file|] eqn:Hfile; [|exact Hex].
    destruct (passwordProtection file), (session_given sessionId);
      try destruct (Nat.leb _ _); cbn [snd]; try exact Hex;
      destruct (expired file now); cbn [snd];
      try exact Hex;
      try (eapply exhausted_same; [| |exact Hex]; [reflexivity|cbn; lia]);
      destruct (limit_reached file) eqn:Hl; cbn [snd];
      try exact Hex;
      try (eapply exhausted_same; [| |exact Hex]; [reflexivity|cbn; lia]);
      (eapply exhausted_patch_file; [| |exact Hfile|exact Hl|exact Hex];
       [reflexivity|cbn; lia]).
  - unfold deleteFile.
    destruct authUser as [user|]; [|exact Hex].
    destruct (files db !! f) as [file|]; [|exact Hex].
    destruct (match userId file with Some _ => _ | None => _ end); [|exact Hex].
    cbn [snd]. destruct Hex as [Hlt Hlim]. split; [exact Hlt|].
    intros file'. cbn [files]. intros Hl.
    apply lookup_delete_Some in Hl as [_ Hl]. apply Hlim, Hl.
Qed.

(** X19 (a used-up file stays used up).
    Once a file has reached its download limit, no sequence of uploads,
    token requests, confirmations, one-phase downloads and deletions makes
    it available again: the download page shows no file, phase 1 issues no
    token and the one-phase download returns no URL, at any time. *)
Theorem exhausted_file_stays_unavailable (getUrl : nat -> option string)
    (db : Db) (fileId : Id) (file : FileDoc) (calls : list Call) (now : Z)
    (uuid : string) (sessionId : option string) :
  fileId < next_id db ->
  files db !! fileId = Some file ->
  limit_reached file = true ->
  let db' := fold_left (run_call getUrl) calls db in
  getFileMeta db' now fileId = None /\
  (forall url token ttl,
     fst (getDownloadToken getUrl db' now uuid fileId sessionId)
     <> TokenIssued url token ttl) /\
  (forall url,
     fst (downloadFile getUrl db' now fileId sessionId) <> Some (inr url)).
Proof.
  intros Hlt Hfile Hl db'.
  assert (Hex : exhausted db' fileId).
  { subst db'.
    assert (H0 : exhausted db fileId).
    { split; [exact Hlt|]. intros f Hf. congruence. }
    clear Hlt Hfile Hl. revert db H0.
    induction calls as [|c calls IH]; intros db H0; cbn [fold_left];
      [exact H0|].
    apply IH, exhausted_run_call, H0. }
  clearbody db'. destruct Hex as [_ Hlim].
  unfold getFileMeta, getDownloadToken, downloadFile.
  destruct (files db' !! fileId) as [f|] eqn:Hf;
    [|repeat split; intros; discriminate].
  rewrite (Hlim f eq_refl).
  repeat split; intros;
    destruct (passwordProtection f), (session_given sessionId);
    try destruct (Nat.leb _ _); destruct (expired f now);
    cbn [fst]; try reflexivity; discriminate.
Qed.

End LimitExtras.

(** ** The download page *)

Module DownloadViewFacts.
Import DownloadPage DownloadView.

(** X20 (the countdown).
    For a whole number of milliseconds from 1 to [MAX_SAFE_INTEGER], where
    the arithmetic of the code is exact, the countdown never shows more
    time than is left, and less than one of its smaller unit less: days and
    hours from a day on, hours and minutes from an hour on, minutes and
    seconds from a minute on, seconds below, the smaller unit always within
    its range. *)
Theorem formatCountdown_within_unit (ms : Z) :
  (0 < ms <= MAX_SAFE_INTEGER)%Z ->
  (exists d h,
     formatCountdown ms
     = Some (Number_toString d ++ lit "d " ++ Number_toString h ++ lit "h") /\
     (0 < d)%Z /\ (0 <= h < 24)%Z /\
     ((d * 24 + h) * 3600000 <= ms < (d * 24 + h + 1) * 3600000)%Z) \/
  (exists h m,
     formatCountdown ms
     = Some (Number_toString h ++ lit "h " ++ Number_toString m ++ lit "m") /\
     (0 < h < 24)%Z /\ (0 <= m < 60)%Z /\
     ((h * 60 + m) * 60000 <= ms < (h * 60 + m + 1) * 60000)%Z) \/
  (exists m s,
     formatCountdown ms
     = Some (Number_toString m ++ lit "m " ++ Number_toString s ++ lit "s") /\
     (0 < m < 60)%Z /\ (0 <= s < 60)%Z /\
     ((m * 60 + s) * 1000 <= ms < (m * 60 + s + 1) * 1000)%Z) \/
  (exists s,
     formatCountdown ms = Some (Number_toString s ++ lit "s") /\
     (0 <= s < 60)%Z /\ (s * 1000 <= ms < (s + 1) * 1000)%Z).
Proof.
  intros Hms. unfold formatCountdown.
  destruct (Z.leb_spec ms 0) as [|_]; [lia|].
  destruct (Z.ltb_spec MAX_SAFE_INTEGER ms) as [|_]; [lia|]. cbv zeta.
  set (seconds := (ms / 1000)%Z).
  set (minutes := (seconds / 60)%Z).
  set (hours := (minutes / 60)%Z).
  set (days := (hours / 24)%Z).
  assert (Hs : (seconds * 1000 <= ms < (seconds + 1) * 1000)%Z)
    by (subst seconds; Z.to_euclidean_division_equations; lia).
  assert (Hm : (minutes * 60 <= seconds < (minutes + 1) * 60)%Z)
    by (subst minutes; Z.to_euclidean_division_equations; lia).
  assert (Hh : (hours * 60 <= minutes < (hours + 1) * 60)%Z)
    by (subst hours; Z.to_euclidean_division_equations; lia).
  assert (Hd : (days * 24 <= hours < (days + 1) * 24)%Z)
    by (subst days; Z.to_euclidean_division_equations; lia).
  assert (Hs60 : (0 <= seconds mod 60 < 60)%Z /\
                 (seconds = minutes * 60 + seconds mod 60)%Z)
    by (subst minutes; Z.to_euclidean_division_equations; lia).
  assert (Hm60 : (0 <= minutes mod 60 < 60)%Z /\
                 (minutes = hours * 60 + minutes mod 60)%Z)
    by (subst hours; Z.to_euclidean_division_equations; lia).
  assert (Hh24 : (0 <= hours mod 24 < 24)%Z /\
                 (hours = days * 24 + hours mod 24)%Z)
    by (subst days; Z.to_euclidean_division_equations; lia).
  clearbody seconds minutes hours days.
  destruct (Z.ltb_spec 0 days).
  { left. exists days, (hours mod 24)%Z. split; [reflexivity|]. lia. }
  destruct (Z.ltb_spec 0 hours).
  { right; left. exists hours, (minutes mod 60)%Z. split; [reflexivity|]. lia. }
  destruct (Z.ltb_spec 0 minutes).
  { right; right; left. exists minutes, (seconds mod 60)%Z.
    split; [reflexivity|]. lia. }
  right; right; right. exists seconds. split; [reflexivity|]. lia.
Qed.

Section WithPlatform.
Context `{P : Platform}.

Lemma not_saved_nil : ~ saved [].
Proof. intros (f & c & []). Qed.

Lemma not_confirmed_nil : ~ confirmed [].
Proof. intros (t & []). Qed.

Lemma not_saved_turnstile t : ~ saved [FetchTurnstile t].
Proof. intros (f & c & [H|[]]). discriminate. Qed.

Lemma not_confirmed_turnstile t : ~ confirmed [FetchTurnstile t].
Proof. intros (k & [H|[]]). discriminate. Qed.

Ltac no_effect :=
  let H := fresh in
  first [ intros (? & ? & H) | intros (? & H) ];
  repeat rewrite in_app_iff in H; cbn [In] in H;
  unfold saved, confirmed in *; firstorder discriminate.

(** How the part of a run from the token request on can end. *)
Lemma download_and_decrypt_outcome env fd crn key meta st log :
  ~ saved log -> ~ confirmed log ->
  match download_and_decrypt env fd crn key meta st log with
  | (Thrown e, st', log') =>
      st' = st /\ ~ confirmed log' /\
      (~ saved log' \/
       cache_response env = Throw e /\
       exists sid url token blob content name,
         log' = log ++ [FetchDownloadToken sid; FetchBlob url;
                        SaveAs name content] /\
         token_granted env url token /\
         blob_response env = Ok (true, blob) /\
         decrypt_payload env fd key blob = Ok content)
  | (Returned, st', log') =>
      status st' = error /\ rateLimitMsg st' <> None /\
      ~ saved log' /\ ~ confirmed log'
  | (Finished, st', log') =>
      st' = setStatus done st /\
      exists sid url token blob content name,
        log' = log ++ [FetchDownloadToken sid; FetchBlob url;
                       SaveAs name content; CacheFileInfo name;
                       FetchConfirmDownload token] /\
        token_granted env url token /\
        blob_response env = Ok (true, blob) /\
        decrypt_payload env fd key blob = Ok content /\
        cache_response env = Ok tt
  end.
Proof.
  intros Hs Hc. unfold download_and_decrypt.
  destruct (token_response env) as [reply|e] eqn:Hreply.
  2:{ split; [reflexivity|]. split; [|left]; no_effect. }
  destruct reply as [r|].
  2:{ split; [reflexivity|]. split; [|left]; no_effect. }
  destruct (reply_error r) as [code|] eqn:Hcode;
    [destruct (String.eqb_spec code "RATE_LIMITED") as [->|Hne]|].
  { cbn [status rateLimitMsg setErrorMsg setRateLimitMsg setStatus].
    split; [reflexivity|]. split; [discriminate|]. split; no_effect. }
  all: assert (Hnr : reply_error r <> Some "RATE_LIMITED"%string)
    by (rewrite Hcode; congruence).
  all: destruct (truthy_str (reply_url r)) as [url|] eqn:Hurl;
    [|split; [reflexivity|]; split; [|left]; no_effect].
  all: destruct (truthy_str (reply_token r)) as [tok|] eqn:Htok;
    [|split; [reflexivity|]; split; [|left]; no_effect].
  all: destruct (blob_response env) as [[[|] blob]|e] eqn:Hblob;
    try (split; [reflexivity|]; split; [|left]; no_effect).
  all: destruct (decrypt_payload env fd key blob) as [content|e] eqn:Hdec;
    [|split; [reflexivity|]; split; [|left]; no_effect].
  all: assert (Hg : token_granted env url tok)
    by (exists r; repeat split; assumption).
  all: cbv zeta; destruct (cache_response env) as [[]|e] eqn:Hcache.
  all: try (destruct (confirm_response env); (split; [reflexivity|]);
            eexists _, url, tok, blob, content, _;
            (split; [rewrite <- !app_assoc; reflexivity|auto])).
  all: split; [reflexivity|]; split; [no_effect|]; right;
    split; [reflexivity|];
    eexists _, url, tok, blob, content, _;
    split; [rewrite <- !app_assoc; reflexivity|auto].
Qed.

Lemma run_outcome_thrown env fd e st' log :
  status st' = decrypting -> ~ saved log -> ~ confirmed log ->
  run_outcome env fd (catch_clause (Thrown e, st', log)).
Proof.
  intros Hst Hs Hc. unfold run_outcome.
  cbn [catch_clause fst snd status errorMsg setErrorMsg setStatus].
  split; [no_effect|].
  right. exists e. split; [reflexivity|].
  split; [apply in_app_iff; right; left; reflexivity|].
  left. no_effect.
Qed.

Lemma run_outcome_download env fd crn key meta st' pre :
  status st' = decrypting ->
  pre = [] \/ (exists t, pre = [FetchTurnstile t]) ->
  run_outcome env fd
    (catch_clause (download_and_decrypt env fd crn key meta st' pre)).
Proof.
  intros Hst Hpre.
  assert (Hs : ~ saved pre) by (destruct Hpre as [->|[t ->]]; no_effect).
  assert (Hc : ~ confirmed pre) by (destruct Hpre as [->|[t ->]]; no_effect).
  pose proof (download_and_decrypt_outcome env fd crn key meta st' pre Hs Hc)
    as Hout.
  destruct (download_and_decrypt env fd crn key meta st' pre)
    as [[[e| |] st2] log2].
  - destruct Hout as (-> & Hc2 & [Hs2|(Hcache & sid & url & tok & blob
                                        & content & name & Hlog & Hg & Hb
                                        & Hd)]).
    { apply run_outcome_thrown; assumption. }
    unfold run_outcome.
    cbn [catch_clause fst snd status errorMsg setErrorMsg setStatus].
    split; [no_effect|].
    right. exists e. split; [reflexivity|].
    split; [apply in_app_iff; right; left; reflexivity|].
    right. split; [exact Hcache|].
    exists pre, sid, url, tok, blob, content, name, key.
    split; [rewrite Hlog, <- app_assoc; reflexivity|auto 10].
  - destruct Hout as (Hst2 & Hrl & Hs2 & Hc2). unfold run_outcome.
    cbn [catch_clause fst snd]. rewrite Hst2. auto.
  - destruct Hout as (-> & sid & url & tok & blob & content & name & Hlog
                      & Hg & Hb & Hd & Hcache).
    unfold run_outcome. cbn [catch_clause fst snd status setStatus].
    exists pre, sid, url, tok, blob, content, name, key. auto 10.
Qed.

(** X21 (how a run ends).
    A run of [executeDownload] on a loaded file record never leaves the
    page in [decrypting].  It ends in [done] exactly after the token
    request, the fetch of the blob, the save of the decrypted blob, the
    written cache entry and the confirmation of the granted token, in this
    order; otherwise in [error] with nothing confirmed, showing the
    rate-limit message, with nothing saved, or the message of the exception
    it logged.  In the latter case nothing was saved either, unless the
    exception is that of the cache entry's write: then the decrypted blob
    was saved just before, no cache entry was written and the status never
    became [done]. *)
Theorem executeDownload_outcome (env : Env) (st : PageState) (fd : FileMeta) :
  fileData st = Some fd ->
  let out := executeDownload env st in
  match status (fst out) with
  | done =>
      exists pre sid url token blob content name key,
        snd out = pre ++ [FetchDownloadToken sid; FetchBlob url;
                          SaveAs name content; CacheFileInfo name;
                          FetchConfirmDownload token] /\
        (pre = [] \/ exists t, pre = [FetchTurnstile t]) /\
        token_granted env url token /\
        blob_response env = Ok (true, blob) /\
        decrypt_payload env fd key blob = Ok content /\
        cache_response env = Ok tt
  | error =>
      ~ confirmed (snd out) /\
      (rateLimitMsg (fst out) <> None /\ ~ saved (snd out) \/
       exists e,
         errorMsg (fst out) = exn_message e /\
         In (ConsoleError e) (snd out) /\
         (~ saved (snd out) \/
          cache_response env = Throw e /\
          exists pre sid url token blob content name key,
            snd out = pre ++ [FetchDownloadToken sid; FetchBlob url;
                              SaveAs name content; ConsoleError e] /\
            (pre = [] \/ exists t, pre = [FetchTurnstile t]) /\
            token_granted env url token /\
            blob_response env = Ok (true, blob) /\
            decrypt_payload env fd key blob = Ok content))
  | _ => False
  end.
Proof using Type.
  intros Hfd out. subst out.
  change (run_outcome env fd (executeDownload env st)).
  unfold executeDownload. rewrite Hfd. unfold executeDownload_try.
  set (st1 := setRateLimitMsg None (setStatus decrypting st)).
  assert (Hst1 : status st1 = decrypting) by reflexivity.
  destruct (fm_passwordProtection fd) as [pp|].
  - destruct (password st) as [|c w];
      [apply run_outcome_thrown; auto using not_saved_nil, not_confirmed_nil|].
    destruct (truthy_str (turnstileToken st)) as [t|];
      [|apply run_outcome_thrown; auto using not_saved_nil, not_confirmed_nil].
    destruct (turnstile_response env) as [[|]|e];
      try (apply run_outcome_thrown;
           auto using not_saved_turnstile, not_confirmed_turnstile).
    destruct (unwrapKeyWithPassword _ _ _ _ _) as [fileKey|e];
      [|apply run_outcome_thrown;
        auto using not_saved_turnstile, not_confirmed_turnstile].
    destruct (decryptMetadataWithKey _ fileKey) as [meta|e];
      [destruct (json_truthy meta)|];
      apply run_outcome_download; eauto.
  - destruct (location_hash env);
      [apply run_outcome_thrown; auto using not_saved_nil, not_confirmed_nil|].
    apply run_outcome_download; auto.
Qed.

(** X22 (no token request before the unwrap).
    A token is requested for a password-protected file only after the
    human verification has passed and the typed password has unwrapped the
    file key, and the request carries the session id; for a file without
    password it is requested only with a key in the URL, and carries no
    session id. *)
Theorem token_request_after_unwrap (env : Env) (st : PageState)
    (fd : FileMeta) (sid : option string) :
  fileData st = Some fd ->
  In (FetchDownloadToken sid) (snd (executeDownload env st)) ->
  match fm_passwordProtection fd with
  | Some pp =>
      sid = Some (session_id env) /\
      turnstile_response env = Ok true /\
      exists fileKey,
        unwrapKeyWithPassword (pp_encryptedKey pp) (password st) (pp_salt pp)
          (pp_iv pp) (pp_iterations pp) = Ok fileKey
  | None => sid = None /\ location_hash env <> []
  end.
Proof using Type.
  intros Hfd. unfold executeDownload. rewrite Hfd.
  assert (Hdad : forall crn key meta st' pre,
            (forall s, ~ In (FetchDownloadToken s) pre) ->
            In (FetchDownloadToken sid)
              (snd (catch_clause
                      (download_and_decrypt env fd crn key meta st' pre))) ->
            sid = match fm_passwordProtection fd with
                  | Some _ => Some (session_id env)
                  | None => None
                  end).
  { intros crn key meta st' pre Hpre. unfold download_and_decrypt.
    set (s0 := match fm_passwordProtection fd with
               | Some _ => Some (session_id env)
               | None => None
               end).
    repeat match goal with
           | |- context [match ?x with _ => _ end] =>
               lazymatch x with
               | context [match _ with _ => _ end] => fail
               | _ => destruct x
               end
           | |- context [if ?x then _ else _] => destruct x
           end;
      cbn [catch_clause snd]; intros Hin;
      repeat rewrite in_app_iff in Hin; cbn [In] in Hin;
      repeat match goal with
             | H : _ \/ _ |- _ => destruct H
             end;
      try discriminate; try contradiction;
      try (exfalso; eapply Hpre; eassumption);
      match goal with
      | H : FetchDownloadToken _ = FetchDownloadToken _ |- _ =>
          injection H as <-; reflexivity
      end. }
  unfold executeDownload_try.
  destruct (fm_passwordProtection fd) as [pp|] eqn:Hpp.
  - destruct (password st) as [|c w];
      [cbn; intros [H|[]]; discriminate|].
    destruct (truthy_str (turnstileToken st)) as [t|];
      [|cbn; intros [H|[]]; discriminate].
    destruct (turnstile_response env) as [[|]|e];
      try (cbn; intros [H|[H|[]]]; discriminate).
    destruct (unwrapKeyWithPassword _ _ _ _ _) as [fileKey|e];
      [|cbn; intros [H|[H|[]]]; discriminate].
    intros Hin. split; [|split; [reflexivity|eauto]].
    destruct (decryptMetadataWithKey _ fileKey) as [meta|e];
      [destruct (json_truthy meta)|];
      (eapply Hdad; [|exact Hin]; intros s [H|[]]; discriminate).
  - destruct (location_hash env) as [|c h];
      [cbn; intros [H|[]]; discriminate|].
    intros Hin. split; [|discriminate].
    eapply Hdad; [|exact Hin]. intros s [].
Qed.

End WithPlatform.
End DownloadViewFacts.

(** ** From the upload form to the saved file *)

Section EndToEnd.
Context `{P : Platform}.
Import DownloadPage DownloadView.

Lemma encode_nonempty (bs : list N) : bs <> [] -> Base64.encode bs <> [].
Proof.
  intros Hb He. apply (f_equal (@length N)) in He.
  rewrite LabelFacts.length_encode in He. cbn [length] in He.
  destruct bs as [|b bs]; [contradiction|]. cbn [length] in He. divlia.
Qed.

Lemma toUrlSafe_nonempty (bs : list N) :
  Forall is_octet bs -> bs <> [] -> toUrlSafe (Base64.encode bs) <> [].
Proof.
  intros Ho Hb He. apply (f_equal (@length N)) in He.
  rewrite toUrlSafe_encode in He by exact Ho.
  rewrite !length_map, Base64Facts.length_sextets_of in He. cbn [length] in He.
  destruct bs as [|b bs]; [contradiction|]. cbn [length] in He. divlia.
Qed.

(** The "encrypting" step in full: also the wrapped key. *)
Lemma handleEncryptAndSend_encrypting_full file M password e :
  jwk_text_latin1 P ->
  let K := mkCryptoKey AES_GCM true [usage_encrypt; usage_decrypt] (drawn e 32) in
  let ivb := drawn (advance e 32) 12 in
  let mivb := drawn (advance (advance e 32) 12) 12 in
  exists up e',
    handleEncryptAndSend_encrypting file M password e = (Ok up, e') /\
    up_file up
    = mkEncryptedFile (aes_gcm_encrypt (drawn e 32) ivb file)
        (Base64.encode (String_fromCharCode ivb)) ivb
        (toUrlSafe (Base64.encode (JSON_stringify (jwk_export K)))) /\
    up_encryptedMetadata up
    = Base64.encode
        (String_fromCharCode
           (mivb ++ aes_gcm_encrypt (drawn e 32) mivb
                      (TextEncoder_encode (JSON_stringify M)))) /\
    match password with
    | [] => up_passwordProtection up = None
    | _ :: _ =>
        exists w,
          up_passwordProtection up = Some w /\
          wk_iterations w = CURRENT_ITERATIONS /\
          wrapping_of K password CURRENT_ITERATIONS (wk_encryptedKey w)
            (wk_salt w) (wk_iv w)
    end.
Proof using Type.
  intros Hl K ivb mivb.
  assert (HK : file_key K).
  { apply freshly_generated_file_key. exists e. reflexivity. }
  unfold handleEncryptAndSend_encrypting.
  rewrite (rand_bind_ok _ _ _ _ _ (generateKey_spec e)).
  rewrite (rand_bind_ok _ _ _ _ _ (encryptFile_spec file K (advance e 32) Hl HK)).
  rewrite (rand_bind_ok _ _ _ _ _
             (encryptMetadata_spec M K (advance (advance e 32) 12)
                eq_refl (or_introl eq_refl))).
  unfold generatePublicLabel at 1.
  unfold rand_bind at 1 2. unfold getRandomValues at 1. unfold rand_ret at 1.
  cbv beta iota.
  destruct password as [|c w].
  - unfold rand_bind, rand_ret. eexists _, _.
    split; [reflexivity|]. cbn [up_file up_encryptedMetadata up_passwordProtection].
    repeat split; reflexivity.
  - set (e3 := advance (advance (advance (advance e 32) 12) 12) 8).
    destruct (wrapKeyWithPassword K (c :: w) e3) as [[wr|x] e4] eqn:Hw.
    2:{ rewrite (wrapKeyWithPassword_spec K (c :: w) e3 eq_refl eq_refl) in Hw.
        discriminate. }
    rewrite (rand_bind_ok _ _ _ _ _ (rand_bind_ok _ _ _ _ _ Hw)).
    unfold rand_ret. eexists _, _.
    split; [reflexivity|]. cbn [up_file up_encryptedMetadata up_passwordProtection].
    split; [reflexivity|]. split; [reflexivity|].
    exists wr. split; [reflexivity|].
    destruct (wrapKeyWithPassword_wrapping_of _ _ _ _ _ Hw) as [Hi Hwr].
    rewrite Hi in Hwr. auto.
Qed.

(** What [download_and_decrypt] does when the token is granted, the blob
    arrives and decrypts: the save, and then either the cache entry, the
    status [done] and the confirmation, or the exception of the cache
    entry's write. *)
Lemma download_and_decrypt_success env fd crn key meta st log url tok blob
      content :
  token_granted env url tok ->
  blob_response env = Ok (true, blob) ->
  decrypt_payload env fd key blob = Ok content ->
  let name :=
    match truthy_js crn with
    | Some n => n
    | None =>
        match truthy_js (match meta with
                         | Some m => json_name m
                         | None => None
                         end) with
        | Some n => n
        | None => fm_publicName fd
        end
    end in
  let sid :=
    match fm_passwordProtection fd with
    | Some _ => Some (session_id env)
    | None => None
    end in
  download_and_decrypt env fd crn key meta st log
  = match cache_response env with
    | Ok _ =>
        (Finished, setStatus done st,
         log ++ [FetchDownloadToken sid; FetchBlob url; SaveAs name content;
                 CacheFileInfo name; FetchConfirmDownload tok])
    | Throw x =>
        (Thrown x, st,
         log ++ [FetchDownloadToken sid; FetchBlob url; SaveAs name content])
    end.
Proof using Type.
  intros (r & Hr & Hnr & Hu & Ht) Hb Hd name sid. unfold download_and_decrypt.
  rewrite Hr, (DownloadFacts.not_rate_limited r Hnr), Hu, Ht, Hb, Hd.
  fold name sid. rewrite <- !app_assoc. cbn [app].
  destruct (cache_response env); [|reflexivity].
  destruct (confirm_response env); reflexivity.
Qed.

(** X23 (upload and download by link).
    A file sent without a password comes back from its link.  The upload
    form's encrypting step succeeds; a download page that has the record
    of that upload and the key string in the URL first decrypts the real
    filename, and a run with a granted token and the stored blob then saves
    the very bytes that were uploaded, under the real filename when the
    metadata has one and the public label otherwise.  When the cache
    entry's write succeeds the run ends in [done] and confirms the
    download; when it throws, the file is saved all the same, the run ends
    in [error] with that exception's message and nothing is confirmed. *)
Theorem upload_then_download_by_link (selectedFile : bytes)
    (metadataPayload : json) (e : Entropy) (size : Z) :
  jwk_text_latin1 P -> jwk_text_nonempty P -> json_roundtrip P ->
  jwk_roundtrip P -> aead_correct P -> utf8_roundtrip P ->
  exists up e',
    handleEncryptAndSend_encrypting selectedFile metadataPayload [] e
    = (Ok up, e') /\
    forall env url token,
      location_hash env = keyString (up_file up) ->
      token_granted env url token ->
      blob_response env = Ok (true, encryptedBlob (up_file up)) ->
      let st := decryptMetadata_on_load env (loaded (record_of up size) [] None) in
      let name :=
        match truthy_js (realFilename st) with
        | Some n => n
        | None => up_publicName up
        end in
      realFilename st
      = (if json_truthy metadataPayload then json_name metadataPayload
         else None) /\
      match cache_response env with
      | Ok _ =>
          status (fst (executeDownload env st)) = done /\
          snd (executeDownload env st)
          = [FetchDownloadToken None; FetchBlob url; SaveAs name selectedFile;
             CacheFileInfo name; FetchConfirmDownload token]
      | Throw x =>
          status (fst (executeDownload env st)) = error /\
          errorMsg (fst (executeDownload env st)) = exn_message x /\
          snd (executeDownload env st)
          = [FetchDownloadToken None; FetchBlob url; SaveAs name selectedFile;
             ConsoleError x]
      end.
Proof using Type.
  intros Hl Hne Hj Hw Hc Hu.
  destruct (handleEncryptAndSend_encrypting_full selectedFile metadataPayload
              [] e Hl) as (up & e' & Hup & Hfile & Hmeta & Hpp).
  exists up, e'. split; [exact Hup|].
  intros env url token Hhash Hg Hb.
  set (K := mkCryptoKey AES_GCM true [usage_encrypt; usage_decrypt] (drawn e 32))
    in *.
  assert (HK : file_key K).
  { apply freshly_generated_file_key. exists e. reflexivity. }
  set (ivb := drawn (advance e 32) 12) in *.
  set (mivb := drawn (advance (advance e 32) 12) 12) in *.
  set (ks := toUrlSafe (Base64.encode (JSON_stringify (jwk_export K)))) in *.
  assert (Hks : keyString (up_file up) = ks) by (rewrite Hfile; reflexivity).
  assert (Hblob : encryptedBlob (up_file up)
                  = aes_gcm_encrypt (drawn e 32) ivb selectedFile)
    by (rewrite Hfile; reflexivity).
  assert (Hiv : iv (up_file up) = Base64.encode (String_fromCharCode ivb))
    by (rewrite Hfile; reflexivity).
  rewrite Hks in Hhash. rewrite Hblob in Hb.
  assert (Hksne : ks <> []) by (apply toUrlSafe_nonempty; [apply Hl|apply Hne]).
  assert (Hkey : decodeKeyFromTransport ks
                 = Ok (mkCryptoKey AES_GCM true [usage_decrypt] (key_material K)))
    by (apply decodeKeyFromTransport_transport; assumption).
  assert (Hdm : decryptMetadata (up_encryptedMetadata up) ks = Ok metadataPayload).
  { rewrite Hmeta, decryptMetadata_split, Hkey. cbn [rbind].
    destruct (split_iv_ciphertext mivb
                (aes_gcm_encrypt (drawn e 32) mivb
                   (TextEncoder_encode (JSON_stringify metadataPayload))))
      as [-> ->]; [apply length_drawn|].
    apply (decrypt_envelope metadataPayload mivb K);
      try assumption; try reflexivity; try apply length_drawn;
      cbn [In key_usages]; auto. }
  assert (Hdf : decryptFile (aes_gcm_encrypt (drawn e 32) ivb selectedFile) ks
                  (Base64.encode (String_fromCharCode ivb)) = Ok selectedFile).
  { unfold decryptFile. rewrite Hkey. cbn [rbind].
    rewrite atob_encode by apply fromCharCode_is_octet. cbn [rbind].
    rewrite Uint8Array_from_fromCharCode.
    rewrite subtle_decrypt_ok by (cbn; auto). cbn [key_material K].
    rewrite Hc. reflexivity. }
  assert (Hmne : up_encryptedMetadata up <> []).
  { rewrite Hmeta. apply encode_nonempty. intros Hnil.
    apply (f_equal (@length N)) in Hnil.
    rewrite length_fromCharCode, length_app in Hnil.
    unfold mivb in Hnil. rewrite length_drawn in Hnil. cbn in Hnil. lia. }
  assert (Hrec : record_of up size
                 = mkFileMeta (up_publicName up) size (up_encryptedMetadata up)
                     (Base64.encode (String_fromCharCode ivb)) None).
  { unfold record_of. rewrite Hpp, Hiv. reflexivity. }
  rewrite Hrec.
  set (fd := mkFileMeta _ _ _ _ _).
  assert (Hst : decryptMetadata_on_load env (loaded fd [] None)
                = setRealFilename
                    (if json_truthy metadataPayload
                     then json_name metadataPayload else None)
                    (loaded fd [] None)).
  { unfold decryptMetadata_on_load. rewrite Hhash.
    destruct ks as [|c0 ks0] eqn:Eks; [contradiction|].
    cbn [fileData loaded fm_encryptedMetadata fd].
    destruct (up_encryptedMetadata up) as [|m0 ms] eqn:Em; [contradiction|].
    rewrite Hdm. reflexivity. }
  rewrite Hst. cbv zeta.
  set (rf := if json_truthy metadataPayload then json_name metadataPayload
             else None).
  split; [reflexivity|].
  unfold executeDownload. cbn [fileData setRealFilename loaded].
  unfold executeDownload_try. cbn [fm_passwordProtection fd]. rewrite Hhash.
  destruct ks as [|c0 ks0] eqn:Eks; [contradiction|]. rewrite <- Eks in *.
  cbn [realFilename].
  rewrite (download_and_decrypt_success env fd rf None None _ [] url token
             (aes_gcm_encrypt (drawn e 32) ivb selectedFile) selectedFile
             Hg Hb).
  2:{ unfold decrypt_payload. cbn [fm_passwordProtection fd fm_iv].
      rewrite Hhash. exact Hdf. }
  cbn [fm_passwordProtection fd].
  destruct (cache_response env) as [u|x];
    cbn [catch_clause fst snd status errorMsg setStatus setErrorMsg app
         fm_publicName fd];
    repeat split; reflexivity.
Qed.

(** X24 (upload and download by password).
    A file sent with a password comes back with the password and no key
    in the URL.  The encrypting step succeeds and wraps the key; a download
    page that has the record of that upload, the same password typed and
    the human verification passed unwraps the key, and a run with a granted
    token and the stored blob then saves the very bytes that were uploaded,
    under the real filename when the metadata has one and the public label
    otherwise.  When the cache entry's write succeeds the run ends in
    [done] and confirms the download; when it throws, the file is saved all
    the same, the run ends in [error] with that exception's message and
    nothing is confirmed. *)
Theorem upload_then_download_by_password (selectedFile : bytes)
    (metadataPayload : json) (password : jsstring) (e : Entropy) (size : Z) :
  jwk_text_latin1 P -> json_roundtrip P -> aead_correct P ->
  utf8_roundtrip P -> password <> [] ->
  exists up e',
    handleEncryptAndSend_encrypting selectedFile metadataPayload password e
    = (Ok up, e') /\
    forall env url token verification,
      truthy_str (Some verification) = Some verification ->
      turnstile_response env = Ok true ->
      token_granted env url token ->
      blob_response env = Ok (true, encryptedBlob (up_file up)) ->
      let st := loaded (record_of up size) password (Some verification) in
      let name := saved_name metadataPayload (up_publicName up) in
      match cache_response env with
      | Ok _ =>
          status (fst (executeDownload env st)) = done /\
          snd (executeDownload env st)
          = [FetchTurnstile verification;
             FetchDownloadToken (Some (session_id env)); FetchBlob url;
             SaveAs name selectedFile; CacheFileInfo name;
             FetchConfirmDownload token]
      | Throw x =>
          status (fst (executeDownload env st)) = error /\
          errorMsg (fst (executeDownload env st)) = exn_message x /\
          snd (executeDownload env st)
          = [FetchTurnstile verification;
             FetchDownloadToken (Some (session_id env)); FetchBlob url;
             SaveAs name selectedFile; ConsoleError x]
      end.
Proof using Type.
  intros Hl Hj Hc Hu Hpw.
  destruct (handleEncryptAndSend_encrypting_full selectedFile metadataPayload
              password e Hl) as (up & e' & Hup & Hfile & Hmeta & Hpp).
  exists up, e'. split; [exact Hup|].
  intros env url token verification Hver Hturn Hg Hb.
  destruct password as [|c0 pw0]; [contradiction|].
  destruct Hpp as (w & Hpp & Hits & Hwrap).
  set (typed := c0 :: pw0) in *.
  set (K := mkCryptoKey AES_GCM true [usage_encrypt; usage_decrypt] (drawn e 32))
    in *.
  set (ivb := drawn (advance e 32) 12) in *.
  set (mivb := drawn (advance (advance e 32) 12) 12) in *.
  set (K' := mkCryptoKey AES_GCM true [usage_encrypt; usage_decrypt]
               (key_material K)).
  assert (Hblob : encryptedBlob (up_file up)
                  = aes_gcm_encrypt (drawn e 32) ivb selectedFile)
    by (rewrite Hfile; reflexivity).
  assert (Hiv : iv (up_file up) = Base64.encode (String_fromCharCode ivb))
    by (rewrite Hfile; reflexivity).
  rewrite Hblob in Hb.
  assert (Hunwrap : unwrapKeyWithPassword (wk_encryptedKey w) typed
                      (wk_salt w) (wk_iv w) (Some (wk_iterations w)) = Ok K').
  { assert (Hlen : length (key_material K) = 16 \/ length (key_material K) = 24
                   \/ length (key_material K) = 32)
      by (right; right; apply length_drawn).
    assert (Hn : number_or (Some (wk_iterations w)) LEGACY_ITERATIONS
                 = CURRENT_ITERATIONS) by (rewrite Hits; reflexivity).
    exact (unwrap_wrapping_of K typed CURRENT_ITERATIONS _ _ _ _ Hc Hlen
             Hwrap valid_CURRENT_ITERATIONS Hn). }
  assert (Hdm : decryptMetadataWithKey (up_encryptedMetadata up) K'
                = Ok metadataPayload).
  { rewrite Hmeta, decryptMetadataWithKey_split.
    destruct (split_iv_ciphertext mivb
                (aes_gcm_encrypt (drawn e 32) mivb
                   (TextEncoder_encode (JSON_stringify metadataPayload))))
      as [-> ->]; [apply length_drawn|].
    apply (decrypt_envelope metadataPayload mivb K);
      try assumption; try reflexivity; try apply length_drawn.
    right. left. reflexivity. }
  assert (Hrec : record_of up size
                 = mkFileMeta (up_publicName up) size (up_encryptedMetadata up)
                     (Base64.encode (String_fromCharCode ivb))
                     (Some (mkPasswordProtection (wk_encryptedKey w)
                              (wk_salt w) (wk_iv w) (Some (wk_iterations w))))).
  { unfold record_of. rewrite Hpp, Hiv. reflexivity. }
  rewrite Hrec. cbv zeta.
  set (pp := mkPasswordProtection _ _ _ _).
  set (fd := mkFileMeta _ _ _ _ _).
  assert (Hdp : decrypt_payload env fd (Some K')
                  (aes_gcm_encrypt (drawn e 32) ivb selectedFile)
                = Ok selectedFile).
  { unfold decrypt_payload. cbn [fm_passwordProtection fd fm_iv].
    rewrite atob_encode by apply fromCharCode_is_octet. cbn [rbind].
    rewrite Uint8Array_from_fromCharCode.
    rewrite subtle_decrypt_ok by (cbn; auto). cbn [key_material K' K].
    rewrite Hc. reflexivity. }
  unfold executeDownload. cbn [fileData loaded].
  unfold executeDownload_try.
  cbn [fm_passwordProtection fd DownloadPage.password turnstileToken loaded
       pp_encryptedKey pp_salt pp_iv pp_iterations pp fm_encryptedMetadata
       realFilename].
  rewrite Hver, Hturn. unfold typed at 1. fold typed. rewrite Hunwrap, Hdm.
  match goal with
  | |- context [download_and_decrypt env fd None (Some K') (Some metadataPayload)
                  ?s ?l] =>
      rewrite (download_and_decrypt_success env fd None (Some K')
                 (Some metadataPayload) s l url token
                 (aes_gcm_encrypt (drawn e 32) ivb selectedFile) selectedFile
                 Hg Hb Hdp)
  end.
  cbn [fm_passwordProtection fd].
  unfold saved_name.
  destruct (cache_response env) as [u|x], (json_truthy metadataPayload);
    cbn [catch_clause fst snd app fm_publicName fd truthy_js status errorMsg
         setStatus setErrorMsg setRealFilename];
    repeat split; reflexivity.
Qed.

End EndToEnd.

(** ** The further properties on concrete inputs *)

Module ExtraWitnesses.
Import Convex ConvexQueries DownloadPage DownloadView ExtraScenario.

Section OnToy.
#[local] Existing Instance Toy.platform.

Lemma toy_jwk_text_nonempty : jwk_text_nonempty Toy.platform.
Proof. intros k. cbn. unfold Toy.export. cbn. discriminate. Qed.

Lemma toy_correct_nonempty : Toy.correct <> [].
Proof. intros H. vm_compute in H. discriminate. Qed.

Lemma encryptFile_keyString_url_safe_witness :
  exists out,
    encryptFile Toy.plaintext Toy.key Toy.entropy
    = (Ok out, advance Toy.entropy 12) /\
    Forall (fun c => url_safe c = true) (keyString out) /\
    length (keyString out)
    = (4 * length (JSON_stringify (jwk_export Toy.key)) + 2) / 3.
Proof.
  exact (LabelFacts.encryptFile_keyString_url_safe Toy.plaintext Toy.key
           Toy.entropy ToyFacts.jwk_text_latin1 ToyFacts.key_file_key).
Defined.

Lemma encryptFile_sizes_witness :
  exists out,
    encryptFile Toy.plaintext Toy.key Toy.entropy
    = (Ok out, advance Toy.entropy 12) /\
    length (encryptedBlob out) = length Toy.plaintext + 16 /\
    length (ivBytes out) = 12 /\
    length (iv out) = 16 /\
    rbind (atob (iv out)) (fun d => Ok (Uint8Array_from d)) = Ok (ivBytes out).
Proof.
  exact (LabelFacts.encryptFile_sizes Toy.plaintext Toy.key Toy.entropy
           ToyFacts.jwk_text_latin1 ToyFacts.aead_tag_16 ToyFacts.key_file_key).
Defined.

Lemma unwrapKeyWithPassword_outcomes_witness :
  match unwrapKeyWithPassword (lit "d3JhcHBlZA==") Toy.wrong
          (lit "c2FsdHNhbHRzYWx0c2FsdA==") (lit "not base64!") (Some 0%Z) with
  | Ok K =>
      file_key K /\ key_usages K = [usage_encrypt; usage_decrypt] /\
      base64_ok (lit "c2FsdHNhbHRzYWx0c2FsdA==") /\
      base64_ok (lit "not base64!") /\ base64_ok (lit "d3JhcHBlZA==")
  | Throw x =>
      (x = DOMException InvalidCharacterError /\
       ~ (base64_ok (lit "c2FsdHNhbHRzYWx0c2FsdA==") /\
          base64_ok (lit "not base64!") /\ base64_ok (lit "d3JhcHBlZA==")))
      \/ (x = Error "Incorrect Password" /\
          base64_ok (lit "c2FsdHNhbHRzYWx0c2FsdA==") /\
          base64_ok (lit "not base64!") /\ base64_ok (lit "d3JhcHBlZA=="))
  end.
Proof.
  apply (unwrapKeyWithPassword_outcomes (lit "d3JhcHBlZA==") Toy.wrong
           (lit "c2FsdHNhbHRzYWx0c2FsdA==") (lit "not base64!") (Some 0%Z)).
  exact valid_LEGACY_ITERATIONS.
Defined.

Lemma wrapKeyWithPassword_format_witness :
  exists w,
    wrapKeyWithPassword Toy.key Toy.correct Toy.entropy
    = (Ok w, advance (advance Toy.entropy 16) 12) /\
    wk_iterations w = 310000%Z /\ wk_version w = 2%Z /\
    length (wk_salt w) = 24 /\ length (wk_iv w) = 16 /\
    length (wk_encryptedKey w)
    = 4 * ((length (key_material Toy.key) + 18) / 3) /\
    (length (key_material Toy.key) = 32 -> length (wk_encryptedKey w) = 64).
Proof.
  exact (wrapKeyWithPassword_format Toy.key Toy.correct Toy.entropy
           ToyFacts.aead_tag_16 ToyFacts.key_file_key).
Defined.

Lemma derivePasswordKey_matches_wrapping_witness :
  exists w e',
    wrapKeyWithPassword Toy.key Toy.correct Toy.entropy = (Ok w, e') /\
    exists passwordKey ivDecoded encryptedKeyDecoded,
      derivePasswordKey Toy.correct (wk_salt w) None = Ok passwordKey /\
      key_extractable passwordKey = true /\
      atob (wk_iv w) = Ok ivDecoded /\
      atob (wk_encryptedKey w) = Ok encryptedKeyDecoded /\
      subtle_decrypt (Uint8Array_from ivDecoded) passwordKey
        (Uint8Array_from encryptedKeyDecoded)
      = Ok (key_material Toy.key).
Proof.
  eexists _, _. split.
  - apply (wrapKeyWithPassword_spec Toy.key Toy.correct Toy.entropy eq_refl
             eq_refl).
  - apply (derivePasswordKey_matches_wrapping Toy.key Toy.correct Toy.entropy
             _ _ None ToyFacts.aead_correct
             (wrapKeyWithPassword_spec Toy.key Toy.correct Toy.entropy eq_refl
                eq_refl)).
    left. reflexivity.
Defined.

Lemma executeDownload_outcome_witness :
  (let env := DownloadScenario.answers in
   let fd := DownloadScenario.record in
   let out := executeDownload env (DownloadScenario.page fd Toy.correct) in
   match status (fst out) with
   | done =>
       exists pre sid url token blob content name key,
         snd out = pre ++ [FetchDownloadToken sid; FetchBlob url;
                           SaveAs name content; CacheFileInfo name;
                           FetchConfirmDownload token] /\
         (pre = [] \/ exists t, pre = [FetchTurnstile t]) /\
         token_granted env url token /\
         blob_response env = Ok (true, blob) /\
         decrypt_payload env fd key blob = Ok content /\
         cache_response env = Ok tt
   | error =>
       ~ confirmed (snd out) /\
       (rateLimitMsg (fst out) <> None /\ ~ saved (snd out) \/
        exists e,
          errorMsg (fst out) = exn_message e /\
          In (ConsoleError e) (snd out) /\
          (~ saved (snd out) \/
           cache_response env = Throw e /\
           exists pre sid url token blob content name key,
             snd out = pre ++ [FetchDownloadToken sid; FetchBlob url;
                               SaveAs name content; ConsoleError e] /\
             (pre = [] \/ exists t, pre = [FetchTurnstile t]) /\
             token_granted env url token /\
             blob_response env = Ok (true, blob) /\
             decrypt_payload env fd key blob = Ok content))
   | _ => False
   end) /\
  (let env := DownloadScenario.storage_full in
   let fd := DownloadScenario.record in
   let out := executeDownload env (DownloadScenario.page fd Toy.correct) in
   match status (fst out) with
   | done =>
       exists pre sid url token blob content name key,
         snd out = pre ++ [FetchDownloadToken sid; FetchBlob url;
                           SaveAs name content; CacheFileInfo name;
                           FetchConfirmDownload token] /\
         (pre = [] \/ exists t, pre = [FetchTurnstile t]) /\
         token_granted env url token /\
         blob_response env = Ok (true, blob) /\
         decrypt_payload env fd key blob = Ok content /\
         cache_response env = Ok tt
   | error =>
       ~ confirmed (snd out) /\
       (rateLimitMsg (fst out) <> None /\ ~ saved (snd out) \/
        exists e,
          errorMsg (fst out) = exn_message e /\
          In (ConsoleError e) (snd out) /\
          (~ saved (snd out) \/
           cache_response env = Throw e /\
           exists pre sid url token blob content name key,
             snd out = pre ++ [FetchDownloadToken sid; FetchBlob url;
                               SaveAs name content; ConsoleError e] /\
             (pre = [] \/ exists t, pre = [FetchTurnstile t]) /\
             token_granted env url token /\
             blob_response env = Ok (true, blob) /\
             decrypt_payload env fd key blob = Ok content))
   | _ => False
   end) /\
  status (fst (executeDownload DownloadScenario.storage_full
                 (DownloadScenario.page DownloadScenario.record Toy.correct)))
  = error.
Proof.
  split; [|split].
  - cbv zeta.
    apply (DownloadViewFacts.executeDownload_outcome DownloadScenario.answers
             (DownloadScenario.page DownloadScenario.record Toy.correct)
             DownloadScenario.record).
    reflexivity.
  - cbv zeta.
    apply (DownloadViewFacts.executeDownload_outcome
             DownloadScenario.storage_full
             (DownloadScenario.page DownloadScenario.record Toy.correct)
             DownloadScenario.record).
    reflexivity.
  - vm_compute. reflexivity.
Defined.

Lemma token_request_after_unwrap_witness :
  In (FetchDownloadToken (Some "session-1"%string))
     (snd (executeDownload DownloadScenario.answers
             (DownloadScenario.page DownloadScenario.record Toy.correct))) /\
  match fm_passwordProtection DownloadScenario.record with
  | Some pp =>
      Some "session-1"%string = Some (session_id DownloadScenario.answers) /\
      turnstile_response DownloadScenario.answers = Ok true /\
      exists fileKey,
        unwrapKeyWithPassword (pp_encryptedKey pp)
          (password (DownloadScenario.page DownloadScenario.record Toy.correct))
          (pp_salt pp) (pp_iv pp) (pp_iterations pp) = Ok fileKey
  | None =>
      Some "session-1"%string = None /\
      location_hash DownloadScenario.answers <> []
  end.
Proof.
  assert (Hin : In (FetchDownloadToken (Some "session-1"%string))
                  (snd (executeDownload DownloadScenario.answers
                          (DownloadScenario.page DownloadScenario.record
                             Toy.correct)))).
  { vm_compute. right. left. reflexivity. }
  split; [exact Hin|].
  apply (DownloadViewFacts.token_request_after_unwrap DownloadScenario.answers
           (DownloadScenario.page DownloadScenario.record Toy.correct)
           DownloadScenario.record (Some "session-1"%string) eq_refl Hin).
Defined.

Lemma granted_in_scenario env :
  token_response env = token_response DownloadScenario.answers ->
  token_granted env "https://storage.example/blob" "token-1".
Proof.
  intros Hr. eexists. split; [rewrite Hr; reflexivity|].
  split; [discriminate|]. split; reflexivity.
Qed.

Lemma upload_then_download_by_link_witness :
  let up := DownloadScenario.upload_by_link in
  let full := Throw (DOMException QuotaExceededError) in
  let page env :=
    decryptMetadata_on_load env (loaded (record_of up 14) [] None) in
  let name env :=
    match truthy_js (realFilename (page env)) with
    | Some n => n
    | None => up_publicName up
    end in
  fst (handleEncryptAndSend_encrypting Toy.plaintext Toy.metadata []
         Toy.entropy) = Ok up /\
  (let env := DownloadScenario.link_answers (Ok tt) in
   status (fst (executeDownload env (page env))) = done /\
   snd (executeDownload env (page env))
   = [FetchDownloadToken None; FetchBlob "https://storage.example/blob";
      SaveAs (name env) Toy.plaintext; CacheFileInfo (name env);
      FetchConfirmDownload "token-1"]) /\
  (let env := DownloadScenario.link_answers full in
   status (fst (executeDownload env (page env))) = error /\
   errorMsg (fst (executeDownload env (page env)))
   = exn_message (DOMException QuotaExceededError) /\
   snd (executeDownload env (page env))
   = [FetchDownloadToken None; FetchBlob "https://storage.example/blob";
      SaveAs (name env) Toy.plaintext;
      ConsoleError (DOMException QuotaExceededError)]).
Proof.
  destruct (upload_then_download_by_link (P := Toy.platform) Toy.plaintext
              Toy.metadata
              Toy.entropy 14 ToyFacts.jwk_text_latin1 toy_jwk_text_nonempty
              ToyFacts.json_roundtrip ToyFacts.jwk_roundtrip
              ToyFacts.aead_correct ToyFacts.utf8_roundtrip)
    as (up & e' & Hup & Hrun).
  assert (Hu : up = DownloadScenario.upload_by_link).
  { unfold DownloadScenario.upload_by_link, DownloadScenario.value_of.
    rewrite Hup. reflexivity. }
  subst up. cbv zeta.
  split; [rewrite Hup; reflexivity|].
  split.
  - destruct (Hrun (DownloadScenario.link_answers (Ok tt))
                "https://storage.example/blob"%string "token-1"%string
                eq_refl (granted_in_scenario _ eq_refl) eq_refl)
      as (_ & Hdone).
    exact Hdone.
  - destruct (Hrun (DownloadScenario.link_answers
                      (Throw (DOMException QuotaExceededError)))
                "https://storage.example/blob"%string "token-1"%string
                eq_refl (granted_in_scenario _ eq_refl) eq_refl)
      as (_ & Herror).
    exact Herror.
Defined.

Lemma upload_then_download_by_password_witness :
  let up := DownloadScenario.upload in
  let st :=
    loaded (record_of up 14) Toy.correct (Some "turnstile-pass"%string) in
  let name := saved_name Toy.metadata (up_publicName up) in
  fst (handleEncryptAndSend_encrypting Toy.plaintext Toy.metadata Toy.correct
         Toy.entropy) = Ok up /\
  (status (fst (executeDownload DownloadScenario.answers st)) = done /\
   snd (executeDownload DownloadScenario.answers st)
   = [FetchTurnstile "turnstile-pass";
      FetchDownloadToken (Some "session-1"%string);
      FetchBlob "https://storage.example/blob";
      SaveAs name Toy.plaintext; CacheFileInfo name;
      FetchConfirmDownload "token-1"]) /\
  (status (fst (executeDownload DownloadScenario.storage_full st)) = error /\
   errorMsg (fst (executeDownload DownloadScenario.storage_full st))
   = exn_message (DOMException QuotaExceededError) /\
   snd (executeDownload DownloadScenario.storage_full st)
   = [FetchTurnstile "turnstile-pass";
      FetchDownloadToken (Some "session-1"%string);
      FetchBlob "https://storage.example/blob";
      SaveAs name Toy.plaintext;
      ConsoleError (DOMException QuotaExceededError)]).
Proof.
  destruct (upload_then_download_by_password (P := Toy.platform)
              Toy.plaintext Toy.metadata
              Toy.correct Toy.entropy 14 ToyFacts.jwk_text_latin1
              ToyFacts.json_roundtrip ToyFacts.aead_correct
              ToyFacts.utf8_roundtrip toy_correct_nonempty)
    as (up & e' & Hup & Hrun).
  assert (Hu : up = DownloadScenario.upload).
  { unfold DownloadScenario.upload, DownloadScenario.value_of.
    rewrite Hup. reflexivity. }
  subst up. cbv zeta.
  split; [rewrite Hup; reflexivity|].
  split.
  - exact (Hrun DownloadScenario.answers "https://storage.example/blob"%string
             "token-1"%string "turnstile-pass"%string eq_refl eq_refl
             (granted_in_scenario _ eq_refl) eq_refl).
  - exact (Hrun DownloadScenario.storage_full
             "https://storage.example/blob"%string "token-1"%string
             "turnstile-pass"%string eq_refl eq_refl
             (granted_in_scenario _ eq_refl) eq_refl).
Defined.

End OnToy.

Lemma formatCountdown_within_unit_witness :
  (exists d h,
     formatCountdown 90061000
     = Some (Number_toString d ++ lit "d " ++ Number_toString h ++ lit "h") /\
     (0 < d)%Z /\ (0 <= h < 24)%Z /\
     ((d * 24 + h) * 3600000 <= 90061000 < (d * 24 + h + 1) * 3600000)%Z) \/
  (exists h m,
     formatCountdown 90061000
     = Some (Number_toString h ++ lit "h " ++ Number_toString m ++ lit "m") /\
     (0 < h < 24)%Z /\ (0 <= m < 60)%Z /\
     ((h * 60 + m) * 60000 <= 90061000 < (h * 60 + m + 1) * 60000)%Z) \/
  (exists m s,
     formatCountdown 90061000
     = Some (Number_toString m ++ lit "m " ++ Number_toString s ++ lit "s") /\
     (0 < m < 60)%Z /\ (0 <= s < 60)%Z /\
     ((m * 60 + s) * 1000 <= 90061000 < (m * 60 + s + 1) * 1000)%Z) \/
  (exists s,
     formatCountdown 90061000 = Some (Number_toString s ++ lit "s") /\
     (0 <= s < 60)%Z /\ (s * 1000 <= 90061000 < (s + 1) * 1000)%Z).
Proof.
  apply (DownloadViewFacts.formatCountdown_within_unit 90061000).
  vm_compute. split; [reflexivity|discriminate].
Defined.

Lemma getFileMeta_agrees_with_getDownloadToken_witness :
  match getFileMeta Scenario.limited_db 3000 0 with
  | None =>
      forall url token ttl,
        fst (getDownloadToken Scenario.getUrl Scenario.limited_db 4000 "u" 0
               None)
        <> TokenIssued url token ttl
  | Some v =>
      view_id v = 0 /\
      ((exists url,
          fst (getDownloadToken Scenario.getUrl Scenario.limited_db 3000 "u" 0
                 None)
          = TokenIssued url "u" TOKEN_TTL)
       \/ (exists retry,
             fst (getDownloadToken Scenario.getUrl Scenario.limited_db 3000
                    "u" 0 None)
             = RateLimited retry))
  end.
Proof.
  apply (ConvexExtras.getFileMeta_agrees_with_getDownloadToken Scenario.getUrl
           Scenario.limited_db 3000 4000 "u" 0 None).
  lia.
Defined.

Lemma getUserFiles_isExpired_witness :
  let v := user_file_view 5000 0 protected_doc in
  exists file,
    files protected_db !! uf_id v = Some file /\
    userId file = Some "alice"%string /\
    (uf_isExpired v = true <-> getFileMeta protected_db 5000 (uf_id v) = None) /\
    (uf_isExpired v = true <-> uf_expiredReason v <> None) /\
    (limit_reached file = true -> uf_expiredReason v = Some download_limit).
Proof.
  apply (ConvexExtras.getUserFiles_isExpired protected_db "alice" 5000
           (user_file_view 5000 0 protected_doc)).
  vm_compute. left. reflexivity.
Defined.

Lemma rate_limited_retry_bounds_witness :
  (1 <= 15 <= 15)%Z /\
  snd (getDownloadToken Scenario.getUrl rate_limited_db 2000 "a6" 0
         (Some "session-1"%string))
  = rate_limited_db /\
  exists file wrapping sid,
    files rate_limited_db !! 0 = Some file /\
    passwordProtection file = Some wrapping /\
    session_given (Some "session-1"%string) = Some sid /\
    MAX_ATTEMPTS <= length (recent_attempts rate_limited_db 0 sid 2000).
Proof.
  apply (ConvexExtras.rate_limited_retry_bounds Scenario.getUrl rate_limited_db
           2000 "a6" 0 (Some "session-1"%string) 15).
  - intros a Ha. vm_compute in Ha.
    repeat (destruct Ha as [<-|Ha]; [vm_compute; discriminate|]).
    contradiction.
  - vm_compute. reflexivity.
Defined.

Lemma rate_limit_invariant_witness :
  attempts_bounded (request_tokens Scenario.getUrl five_attempts protected_db)
    (last_clock 0 five_attempts).
Proof.
  apply (ConvexExtras.rate_limit_invariant Scenario.getUrl five_attempts
           protected_db 0).
  - intros f s. vm_compute. lia.
  - cbn. lia.
Defined.

Lemma no_session_no_rate_limit_witness :
  (forall retry,
     fst (getDownloadToken Scenario.getUrl rate_limited_db 2000 "a6" 0 None)
     <> RateLimited retry) /\
  downloadAttempts
    (snd (getDownloadToken Scenario.getUrl rate_limited_db 2000 "a6" 0 None))
  = downloadAttempts rate_limited_db.
Proof.
  apply (ConvexExtras.no_session_no_rate_limit Scenario.getUrl rate_limited_db
           2000 "a6" 0 None).
  left. reflexivity.
Defined.

Lemma issued_token_lifetime_witness :
  let db' := snd (getDownloadToken Scenario.getUrl Scenario.unlimited_db 1000
                    "t1" 0 None) in
  "t1"%string = "t1"%string /\ 300000%Z = (5 * 60 * 1000)%Z /\
  exists file,
    files Scenario.unlimited_db !! 0 = Some file /\
    if (2000 <=? 1000 + 300000)%Z
    then
      fst (confirmDownload db' 2000 "t1") = ConfirmSuccess /\
      counter_of (snd (confirmDownload db' 2000 "t1")) 0
      = Some (counter file + 1)%Z
    else
      fst (confirmDownload db' 2000 "t1") = ConfirmFailed TOKEN_EXPIRED /\
      counter_of (snd (confirmDownload db' 2000 "t1")) 0
      = Some (counter file) /\
      first_token (snd (confirmDownload db' 2000 "t1")) "t1" = None.
Proof.
  apply (TokenExtras.issued_token_lifetime Scenario.getUrl
           Scenario.unlimited_db _ 1000 2000 "t1" "t1" 0 None
           (Some "https://storage.example/blob"%string) 300000).
  - vm_compute. reflexivity.
  - intros t Ht. vm_compute in Ht. contradiction.
Defined.

Lemma confirmed_token_stays_spent_witness :
  fst (confirmDownload
         (fold_left (run_call Scenario.getUrl) later_calls
            (snd (confirmDownload Scenario.after_requests 2000 "t3")))
         3000 "t3")
  <> ConfirmSuccess.
Proof.
  apply (TokenExtras.confirmed_token_stays_spent Scenario.getUrl
           Scenario.after_requests 2000 3000 "t3" later_calls).
  - vm_compute. lia.
  - vm_compute. reflexivity.
  - unfold later_calls. repeat apply List.Forall_cons; try apply List.Forall_nil.
    + cbn. discriminate.
    + exact I.
Defined.

Lemma history_mirrors_counter_witness :
  history_in_sync (fold_left (run_call Scenario.getUrl) three_calls empty_db).
Proof.
  apply (HistoryExtras.history_mirrors_counter Scenario.getUrl three_calls).
  unfold three_calls. repeat apply List.Forall_cons; try apply List.Forall_nil;
    exact I.
Defined.

Lemma downloadFile_agrees_with_two_phase_witness :
  let legacy := downloadFile Scenario.getUrl Scenario.unlimited_db 1000 0 None in
  let phase1 :=
    getDownloadToken Scenario.getUrl Scenario.unlimited_db 1000 "u1" 0 None in
  let phase2 := confirmDownload (snd phase1) 1000 "u1" in
  match fst legacy with
  | None => fst phase1 = TokenNull
  | Some (inl retry) => fst phase1 = RateLimited retry
  | Some (inr url) =>
      fst phase1 = TokenIssued url "u1" TOKEN_TTL /\
      fst phase2 = ConfirmSuccess
  end /\
  files (snd legacy) = files (snd phase2) /\
  downloadAttempts (snd legacy) = downloadAttempts (snd phase2) /\
  fileHistory (snd legacy) = fileHistory Scenario.unlimited_db.
Proof.
  apply (HistoryExtras.downloadFile_agrees_with_two_phase Scenario.getUrl
           Scenario.unlimited_db 1000 "u1" 0 None).
  intros t Ht. vm_compute in Ht. contradiction.
Defined.

Lemma exhausted_file_stays_unavailable_witness :
  let db' := fold_left (run_call Scenario.getUrl) later_calls
               Scenario.limited_db in
  getFileMeta db' 5000 0 = None /\
  (forall url token ttl,
     fst (getDownloadToken Scenario.getUrl db' 5000 "u" 0 None)
     <> TokenIssued url token ttl) /\
  (forall url,
     fst (downloadFile Scenario.getUrl db' 5000 0 None) <> Some (inr url)).
Proof.
  apply (LimitExtras.exhausted_file_stays_unavailable Scenario.getUrl
           Scenario.limited_db 0
           (mkFileDoc 7 None (lit "File-k3x9q2ab") (lit "bWV0YQ==")
              (lit "aXY=") None (Some (Number_of_Z 1)) (Some 1%Z) (Some 2000%Z)
                 None)
           later_calls 5000 "u" None).
  - vm_compute. lia.
  - vm_compute. reflexivity.
  - vm_compute. reflexivity.
Defined.

End ExtraWitnesses.
